(** * TourneyController: a shallow embedding of the reconciliation engine

    The development follows the Go packages of the repository:
    [config], [ports], [database], [steam] and [controller].  Go values of
    type [int] are 64-bit two's-complement integers, modelled as [Z] with the
    wrap-around of [+] written out; Go strings are byte sequences, modelled
    as [string]; Go maps are [gmap]/[gset]; a Go [error] is a value of the
    inductive type [error]; a function returning [(T, error)] returns
    [Result T].

    What the controller talks to is state.  The secrets of the namespace
    are a finite map behind [Get], [Create], [Update] and [Delete] with
    resource versions, and a deletion may be refused; the tables the
    controller writes are lists of rows, a statement that writes may be
    failed by the driver, and the read-only queries are answers that may
    be errors of the driver; the manifest renderer, the HTTP endpoint of the identity
    registry and the random source are given with the world.  A procedure
    of the controller is a function from the world to its result and the
    world it leaves, and the world records the calls whose effect no
    store keeps. *)

From Stdlib Require Import ZArith Lia Bool List Ascii String.
From Stdlib Require Import Decimal DecimalString DecimalZ DecimalPos.
From stdpp Require Import base decidable option list gmap strings.

Local Open Scope Z_scope.

(** ** Go's [int] *)

Module GoInt.

Definition min_int : Z := - 2 ^ 63.
Definition max_int : Z := 2 ^ 63 - 1.

Definition in_range (z : Z) : Prop := min_int <= z <= max_int.

Definition in_rangeb (z : Z) : bool := (min_int <=? z) && (z <=? max_int).

(** Reduction of a mathematical integer to its 64-bit representative. *)
Definition wrap (z : Z) : Z := (z + 2 ^ 63) mod 2 ^ 64 - 2 ^ 63.

(** [a + b] on [int]. *)
Definition add (a b : Z) : Z := wrap (a + b).

End GoInt.

(** ** Errors and results *)

Inductive NumErrorKind := ErrSyntax | ErrRange.

(** The reasons of a Kubernetes API status error: the one the controller
    tests, and the others the secrets API answers with. *)
Inductive StatusReason := NotFound | AlreadyExists | Conflict | Forbidden.

Inductive error :=
| errorString (msg : string)
| wrapError (prefix : string) (cause : error)
| numError (fn : string) (input : string) (kind : NumErrorKind)
| statusError (reason : StatusReason) (name : string).

Inductive Result (A : Type) :=
| Ok (a : A)
| Err (e : error).
Arguments Ok {A} a.
Arguments Err {A} e.

Definition is_Ok {A} (r : Result A) : bool :=
  match r with Ok _ => true | Err _ => false end.

Definition is_Err {A} (r : Result A) : bool := negb (is_Ok r).

(** [fmt.Errorf("<prefix>: %w", err)] applied to the error of a result. *)
Definition wrapResult {A} (prefix : string) (r : Result A) : Result A :=
  match r with
  | Ok a => Ok a
  | Err e => Err (wrapError prefix e)
  end.

(** ** Package strconv *)

Module strconv.

(** [strconv.Itoa]: shortest decimal text, with a leading [-] for
    negative numbers. *)
Definition Itoa (z : Z) : string := NilZero.string_of_int (Z.to_int z).

(** [strconv.Atoi]: an optional sign followed by one or more decimal
    digits, denoting a value of type [int]. *)
Definition Atoi (s : string) : Result Z :=
  match s with
  | EmptyString => Err (numError "Atoi" s ErrSyntax)
  | String c rest =>
      let neg := Ascii.eqb c "-" in
      let digits := if neg || Ascii.eqb c "+" then rest else s in
      match digits with
      | EmptyString => Err (numError "Atoi" s ErrSyntax)
      | String _ _ =>
          match NilEmpty.uint_of_string digits with
          | None => Err (numError "Atoi" s ErrSyntax)
          | Some d =>
              let n := Z.of_uint d in
              let v := if neg then - n else n in
              if GoInt.in_rangeb v then Ok v
              else Err (numError "Atoi" s ErrRange)
          end
      end
  end.

End strconv.

(** ** Package strings and the rest of the Go runtime

    [strings.Contains] is a search on bytes and is written out.  The
    Unicode-aware functions of the standard library ([strings.TrimSpace],
    [strings.ToLower]), [net.ParseIP], [fmt.Sprintf] with a configured
    format, and the JSON decoders are an interface: every definition and
    theorem below holds for any implementation of it. *)

Module strings.

Fixpoint HasPrefix (s prefix : string) : bool :=
  match prefix, s with
  | EmptyString, _ => true
  | String _ _, EmptyString => false
  | String p prefix', String c s' => Ascii.eqb c p && HasPrefix s' prefix'
  end.

Fixpoint Contains (s substr : string) : bool :=
  HasPrefix s substr ||
  match s with
  | EmptyString => false
  | String _ s' => Contains s' substr
  end.

Fixpoint Join (elems : list string) (sep : string) : string :=
  match elems with
  | [] => EmptyString
  | [e] => e
  | e :: rest => e +:+ sep +:+ Join rest sep
  end.

(** [strings.Split(s, sep)] for a separator of one byte: the text
    between the separators, one more field than there are separators. *)
Fixpoint Split (s : string) (sep : ascii) : list string :=
  match s with
  | EmptyString => [EmptyString]
  | String ch rest =>
      if Ascii.eqb ch sep then EmptyString :: Split rest sep
      else match Split rest sep with
           | field :: fields => String ch field :: fields
           | [] => [String ch EmptyString]
           end
  end.

End strings.

(** The functions of the Go standard library that the controller calls on
    text it does not control. *)
Class GoRuntime := {
  (** [strings.TrimSpace] *)
  TrimSpace : string -> string;
  (** [strings.ToLower] *)
  ToLower : string -> string;
  (** [ip := net.ParseIP(s); ip != nil && ip.To4() != nil] *)
  ParseIPv4 : string -> bool;
  (** [fmt.Sprintf(format, ints...)] for a format taken from the
      configuration *)
  Sprintf : string -> list Z -> string;
}.

(** ** Package database *)

Module database.

(** A row of league_matches relevant to scheduling. *)
Record Match := {
  mID : Z;
  RosterAwayID : Z;
  RosterHomeID : Z;
  WinLimit : Z;
  Status : Z;
  ManualNotDone : bool;
}.

(** A row of league_match_rounds; the floating-point score difference is
    not read by the controller and is left out. *)
Record MatchRound := {
  rID : Z;
  rMatchID : Z;
  MapID : Z;
  HomeTeamScore : Z;
  AwayTeamScore : Z;
  LoserID : option Z;
  WinnerID : option Z;
  HasOutcome : bool;
  HomeReady : bool;
  AwayReady : bool;
}.

(** A row of matches_server_details, decoded. *)
Record MatchDetails := {
  dMatchID : Z;
  dRoundID : Z;
  ServerIP : string;
  Port : Z;
  SourceTVPort : Z;
  Password : string;
  Map : string;
}.

(** Per-division gameplay metadata; of the point tables nothing is read
    by the controller. *)
Record League := { MinPlayers : Z; MaxPlayers : Z }.

Record Division := { divID : string; divName : string }.

(** matches_server_details as the driver hands it to [Scan]: the two
    port columns are scanned into strings. *)
Record DetailsRow := {
  row_match_id : Z;
  row_round_id : Z;
  row_server_ip : string;
  row_port : string;
  row_sourcetvport : string;
  row_password : string;
  row_map : string;
}.

Record NotificationRow := {
  n_user_id : Z;
  n_read : bool;
  n_message : string;
  n_link : string;
}.

(** The database: the answers of the read-only queries (which may be
    errors of the driver), the tables the controller reads back or
    writes, and, for each statement that writes, the error of the driver
    when it fails the statement ([ExecContext] returning an error leaves
    the table as it was). *)
Record DB := {
  q_matches : list Z -> Result (list Match);
  q_division : Z -> Result Division;
  q_league_id : string -> Result Z;
  q_league : Z -> Result League;
  q_steam_ids : Z -> Result (list (option string));
  q_match_rounds : Z -> Result (list MatchRound);
  q_map_name : Z -> Result string;
  q_user_ids : Z -> Result (list Z);
  matches_server_details : list DetailsRow;
  user_notifications : list NotificationRow;
  x_upsert_details : MatchDetails -> option error;
  x_delete_details : Z -> Z -> option error;
  x_insert_notification : Z -> string -> string -> option error;
}.

Definition set_details (rows : list DetailsRow) (d : DB) : DB :=
  {| q_matches := q_matches d;
     q_division := q_division d; q_league_id := q_league_id d;
     q_league := q_league d;
     q_steam_ids := q_steam_ids d; q_match_rounds := q_match_rounds d;
     q_map_name := q_map_name d;
     q_user_ids := q_user_ids d;
     matches_server_details := rows;
     user_notifications := user_notifications d;
     x_upsert_details := x_upsert_details d;
     x_delete_details := x_delete_details d;
     x_insert_notification := x_insert_notification d |}.

Definition set_notifications (rows : list NotificationRow) (d : DB) : DB :=
  {| q_matches := q_matches d;
     q_division := q_division d; q_league_id := q_league_id d;
     q_league := q_league d;
     q_steam_ids := q_steam_ids d; q_match_rounds := q_match_rounds d;
     q_map_name := q_map_name d;
     q_user_ids := q_user_ids d;
     matches_server_details := matches_server_details d;
     user_notifications := rows;
     x_upsert_details := x_upsert_details d;
     x_delete_details := x_delete_details d;
     x_insert_notification := x_insert_notification d |}.

Section Repository.
Context `{GoRuntime}.

(** All matches whose status is in the provided set and whose two
    rosters are set. *)
Definition FetchMatches (d : DB) (statuses : list Z) : Result (list Match) :=
  wrapResult "query league_matches" (q_matches d statuses).

Definition FetchDivision (d : DB) (rosterID : Z) : Result Division :=
  wrapResult ("fetch division for roster " +:+ strconv.Itoa rosterID)
             (q_division d rosterID).

Definition FetchLeague (d : DB) (divisionID : string) : Result League :=
  match q_league_id d divisionID with
  | Err e => Err (wrapError ("fetch league_id for division " +:+ divisionID) e)
  | Ok leagueID =>
      wrapResult ("fetch league metadata " +:+ strconv.Itoa leagueID)
                 (q_league d leagueID)
  end.

(** Every SteamID on the roster: NULL and blank values are dropped,
    the others trimmed. *)
Definition FetchTeamSteamIDs (d : DB) (rosterID : Z) : Result (list string) :=
  match q_steam_ids d rosterID with
  | Err e =>
      Err (wrapError ("fetch steam ids for roster " +:+ strconv.Itoa rosterID) e)
  | Ok rows =>
      Ok (omap (fun id =>
                  match id with
                  | Some v =>
                      if String.eqb (TrimSpace v) EmptyString then None
                      else Some (TrimSpace v)
                  | None => None
                  end) rows)
  end.

Definition FetchMatchRounds (d : DB) (matchID : Z) : Result (list MatchRound) :=
  wrapResult ("fetch match rounds for " +:+ strconv.Itoa matchID)
             (q_match_rounds d matchID).

Definition FetchMapName (d : DB) (mapID : Z) : Result string :=
  wrapResult ("fetch map " +:+ strconv.Itoa mapID) (q_map_name d mapID).

Definition rowFor (matchID roundID : Z) (row : DetailsRow) : bool :=
  (row_match_id row =? matchID) && (row_round_id row =? roundID).

(** [FetchMatchDetails]: [QueryRowContext(...).Scan] yields the first
    row that matches, or [sql.ErrNoRows]. *)
Definition FetchMatchDetails (d : DB) (matchID roundID : Z)
  : Result (option MatchDetails) :=
  match List.find (rowFor matchID roundID) (matches_server_details d) with
  | None => Ok None
  | Some row =>
      match strconv.Atoi (TrimSpace (row_port row)) with
      | Err e => Err (wrapError "parse port from details" e)
      | Ok port =>
      match strconv.Atoi (TrimSpace (row_sourcetvport row)) with
      | Err e => Err (wrapError "parse sourcetv port from details" e)
      | Ok sourceTV =>
          Ok (Some {| dMatchID := row_match_id row;
                      dRoundID := row_round_id row;
                      ServerIP := row_server_ip row;
                      Port := port;
                      SourceTVPort := sourceTV;
                      Password := row_password row;
                      Map := row_map row |})
      end end
  end.

Definition rowOf (details : MatchDetails) : DetailsRow :=
  {| row_match_id := dMatchID details;
     row_round_id := dRoundID details;
     row_server_ip := ServerIP details;
     row_port := strconv.Itoa (Port details);
     row_sourcetvport := strconv.Itoa (SourceTVPort details);
     row_password := Password details;
     row_map := Map details |}.

(** [INSERT ... ON CONFLICT (match_id, round_id) DO UPDATE]. *)
Definition UpsertMatchDetails (details : MatchDetails) (d : DB) : Result unit * DB :=
  match x_upsert_details d details with
  | Some e => (Err (wrapError "upsert match details" e), d)
  | None =>
      let rows := matches_server_details d in
      let hit := rowFor (dMatchID details) (dRoundID details) in
      let rows' :=
        if existsb hit rows
        then map (fun row => if hit row then rowOf details else row) rows
        else rows ++ [rowOf details] in
      (Ok tt, set_details rows' d)
  end.

Definition DeleteMatchDetails (matchID roundID : Z) (d : DB) : Result unit * DB :=
  match x_delete_details d matchID roundID with
  | Some e =>
      (Err (wrapError ("delete match details (" +:+ strconv.Itoa matchID +:+ "," +:+
                         strconv.Itoa roundID +:+ ")") e), d)
  | None =>
      (Ok tt,
       set_details
         (List.filter (fun row => negb (rowFor matchID roundID row))
                      (matches_server_details d)) d)
  end.

(** The users of a roster; an error of the query, of a scan or of the
    iteration is returned as it is. *)
Definition fetchTeamUserIDs (d : DB) (rosterID : Z) : Result (list Z) :=
  q_user_ids d rosterID.

Definition createUserNotification (userID : Z) (message link : string) (d : DB)
  : Result unit * DB :=
  match x_insert_notification d userID message link with
  | Some e =>
      (Err (wrapError ("insert user_notification for " +:+ strconv.Itoa userID) e), d)
  | None =>
      (Ok tt,
       set_notifications
         (user_notifications d ++
          [{| n_user_id := userID; n_read := false;
              n_message := message; n_link := link |}]) d)
  end.

(** The insertion loop over the recipients; the first failure ends it. *)
Fixpoint notifyEach (recipients : list Z) (message link : string) (d : DB)
  : Result unit * DB :=
  match recipients with
  | [] => (Ok tt, d)
  | userID :: rest =>
      match createUserNotification userID message link d with
      | (Ok _, d') => notifyEach rest message link d'
      | (Err e, d') =>
          (Err (wrapError ("create notification for user " +:+
                             strconv.Itoa userID) e), d')
      end
  end.

(** [SendNotificationsToTeams] fans a message out to both rosters. *)
Definition SendNotificationsToTeams (homeRosterID awayRosterID : Z)
    (message link : string) (d : DB) : Result unit * DB :=
  match fetchTeamUserIDs d homeRosterID with
  | Err e => (Err (wrapError "fetch home user ids" e), d)
  | Ok homeUsers =>
  match fetchTeamUserIDs d awayRosterID with
  | Err e => (Err (wrapError "fetch away user ids" e), d)
  | Ok awayUsers =>
      notifyEach (homeUsers ++ awayUsers) message link d
  end end.

End Repository.

End database.

(** ** Package config *)

Module config.

(** An inclusive start/end block. *)
Record PortRange := { Start : Z; End_ : Z }.

Record PortsConfig := {
  GameRange : PortRange;
  SourceTVRange : PortRange;
  ClientRange : PortRange;
  SteamRange : PortRange;
}.

Definition Validate (r : PortRange) : Result unit :=
  if (Start r <=? 0) || (End_ r <=? 0)
  then Err (errorString "ports must be positive integers")
  else if End_ r <? Start r
  then Err (errorString
              ("invalid range " +:+ strconv.Itoa (Start r) +:+ "-" +:+
               strconv.Itoa (End_ r)))
  else Ok tt.

(** Gameplay-related runtime settings. *)
Record SRCDSConfig := {
  TickRate : Z;
  MaxPlayersOverride : Z;
  StaticToken : string;
  PasswordLength : Z;
  RCONLength : Z;
}.

(** Which matches are reconciled. *)
Record MatchConfig := {
  TargetStatuses : list Z;
  DefaultMap : string;
  DivisionFilters : list string;
}.

Definition NodeIPPreference := string.
Definition NodeIPExternalFirst : NodeIPPreference := "external-first".
Definition NodeIPInternalOnly : NodeIPPreference := "internal-only".

Record NetworkingConfig := {
  HostNetwork : bool;
  NodeIPPreference_ : NodeIPPreference;
  ExternalTrafficPolicy : string;
}.

Record NotificationConfig := {
  Enabled : bool;
  LinkFormat : string;
}.

(** Modelled from the spec: the [Steam] block of [Config] is read by
    controller.go but not declared in config.go; its fields are the ones
    the controller reads (the API key, the two switches for minting and
    cleaning up registry tokens, the application id and the memo
    template applied to the match and round ids). *)
Record SteamConfig := {
  APIKey : string;
  EnableAutoTokens : bool;
  EnableTokenCleanup : bool;
  SteamAppID : Z;
  TokenMemoTemplate : string;
}.

Record Config := {
  Namespace : string;
  Ports : PortsConfig;
  SRCDS : SRCDSConfig;
  Match : MatchConfig;
  Networking : NetworkingConfig;
  Notifications : NotificationConfig;
  Steam : SteamConfig;
}.

(** The process environment: [os.Getenv] gives the empty string for a
    variable that is not set. *)
Definition Environ := gmap string string.

Definition Getenv (env : Environ) (key : string) : string :=
  match env !! key with
  | Some value => value
  | None => EmptyString
  end.

Section Loading.
Context `{GoRuntime}.
(** [fmt.Sprintf("%q", s)] *)
Variable Quote : string -> string.
Variable env : Environ.

Definition parsePortRange (raw : string) : Result PortRange :=
  match strings.Split (TrimSpace raw) "-" with
  | [first; second] =>
      match strconv.Atoi (TrimSpace first) with
      | Err e => Err e
      | Ok start =>
      match strconv.Atoi (TrimSpace second) with
      | Err e => Err e
      | Ok end_ =>
          let r := {| Start := start; End_ := end_ |} in
          match Validate r with
          | Err e => Err e
          | Ok _ => Ok r
          end
      end end
  | _ => Err (errorString ("expected format start-end, got " +:+ Quote raw))
  end.

Definition getEnv (key fallback : string) : string :=
  let value := TrimSpace (Getenv env key) in
  if String.eqb value EmptyString then fallback else value.

Definition getEnvInt (key : string) (fallback : Z) : Result Z :=
  let raw := TrimSpace (Getenv env key) in
  if String.eqb raw EmptyString then Ok fallback else strconv.Atoi raw.

Definition loadPortConfig : Result PortsConfig :=
  match parsePortRange (getEnv "PORT_RANGE_GAME" "30000-30299") with
  | Err e => Err (wrapError "invalid PORT_RANGE_GAME" e)
  | Ok game =>
  match parsePortRange (getEnv "PORT_RANGE_SOURCETV" "30300-30599") with
  | Err e => Err (wrapError "invalid PORT_RANGE_SOURCETV" e)
  | Ok sourceTV =>
  match parsePortRange (getEnv "PORT_RANGE_CLIENT" "40000-40299") with
  | Err e => Err (wrapError "invalid PORT_RANGE_CLIENT" e)
  | Ok client =>
  match parsePortRange (getEnv "PORT_RANGE_STEAM" "29000-29299") with
  | Err e => Err (wrapError "invalid PORT_RANGE_STEAM" e)
  | Ok steam =>
      Ok {| GameRange := game; SourceTVRange := sourceTV;
            ClientRange := client; SteamRange := steam |}
  end end end end.

(** The loop of [parseIntSlice] over the parts; the first part that is
    not a number ends it. *)
Fixpoint parseParts (parts : list string) : Result (list Z) :=
  match parts with
  | [] => Ok []
  | part :: rest =>
      match strconv.Atoi (TrimSpace part) with
      | Err e => Err e
      | Ok num =>
          match parseParts rest with
          | Err e => Err e
          | Ok out => Ok (num :: out)
          end
      end
  end.

Definition parseIntSlice (raw : string) : Result (list Z) :=
  let trimmed := TrimSpace raw in
  if String.eqb trimmed EmptyString then Ok []
  else parseParts (strings.Split trimmed ",").

Definition parseStringSlice (raw : string) : list string :=
  let trimmed := TrimSpace raw in
  if String.eqb trimmed EmptyString then []
  else
    omap (fun part =>
            let value := TrimSpace part in
            if negb (String.eqb value EmptyString) then Some value else None)
         (strings.Split trimmed ",").

End Loading.

End config.

(** ** Package ports *)

Module ports.
Import config.

(** A concrete set of NodePorts for a server. *)
Record Assignment := {
  aGame : Z;
  aSourceTV : Z;
  aClient : Z;
  aSteam : Z;
}.

(** The part of [corev1.Service] the allocator reads: every port entry
    of the service spec with its [NodePort] (an [int32]). *)
Record ServicePort := { NodePort : Z }.
Record Service := { svcName : string; svcPorts : list ServicePort }.

(** The two nested loops that fill [used] from the service list. *)
Definition markPorts (used : gset Z) (prts : list ServicePort) : gset Z :=
  foldl (fun u p => if 0 <? NodePort p then {[ NodePort p ]} ∪ u else u)
        used prts.

Definition markServices (used : gset Z) (items : list Service) : gset Z :=
  foldl (fun u svc => markPorts u (svcPorts svc)) used items.

(** How the [for] loop of [nextFree] can end. *)
Inductive Scan :=
| Found (port : Z)
| Exhausted
| Spinning.

(** [for port := pr.Start; port <= pr.End; port++], one iteration per
    unit of fuel; [port++] is addition on [int]. *)
Fixpoint scan (fuel : nat) (port stop : Z) (used : gset Z) : Scan :=
  match fuel with
  | O => Spinning
  | S fuel' =>
      if decide (port <= stop) then
        if decide (port ∈ used) then scan fuel' (GoInt.add port 1) stop used
        else Found port
      else Exhausted
  end.

(** Iterations after which the loop has ended: one per port of the range
    and the final test, or, once the counter has wrapped, one per
    reserved port. *)
Definition scanFuel (pr : PortRange) (used : gset Z) : nat :=
  S (Z.to_nat (End_ pr - Start pr + 1) + size used).

Definition noFreePorts (pr : PortRange) : error :=
  errorString ("no free ports available in range " +:+
               strconv.Itoa (Start pr) +:+ "-" +:+ strconv.Itoa (End_ pr)).

(** [nextFree] returns the port and the used-set with the port
    reserved. *)
Definition nextFree (pr : PortRange) (used : gset Z) : Result (Z * gset Z) :=
  match scan (scanFuel pr used) (Start pr) (End_ pr) used with
  | Found port => Ok (port, {[ port ]} ∪ used)
  | Exhausted => Err (noFreePorts pr)
  | Spinning => Err (errorString "nextFree: scan does not end")
  end.

(** [Allocate], from the service list the client returned. *)
Definition Allocate (ranges : PortsConfig) (items : list Service)
  : Result Assignment :=
  let used := markServices ∅ items in
  match nextFree (GameRange ranges) used with
  | Err e => Err e
  | Ok (game, used) =>
  match nextFree (SourceTVRange ranges) used with
  | Err e => Err e
  | Ok (sourceTV, used) =>
  match nextFree (ClientRange ranges) used with
  | Err e => Err e
  | Ok (client, used) =>
  match nextFree (SteamRange ranges) used with
  | Err e => Err e
  | Ok (steam, _) =>
      Ok {| aGame := game; aSourceTV := sourceTV;
            aClient := client; aSteam := steam |}
  end end end end.

End ports.

(** ** Package steam *)

Module steam.

Definition location : string := "https://api.steampowered.com/IGameServersService/".
Definition version : string := "v1".

Record SteamClient := { apiKey : string }.

Definition NewSteamClient (key : string) : SteamClient := {| apiKey := key |}.

(** A game server account with its login token. *)
Record Account := {
  SteamID : string;
  AppID : Z;
  LoginToken : string;
  Memo : string;
  IsDeleted : bool;
  IsExpired : bool;
  LastLogon : Z;
}.

Definition noAccount : Account :=
  {| SteamID := EmptyString; AppID := 0; LoginToken := EmptyString;
     Memo := EmptyString; IsDeleted := false; IsExpired := false;
     LastLogon := 0 |}.

(** [encoding/json] on the three shapes the client decodes. *)
Class JSON := {
  (** [json.Unmarshal] into [steamResponse], giving the raw text of its
      [response] field *)
  unmarshalResponse : string -> Result string;
  unmarshalAccount : string -> Result Account;
  (** [json.Unmarshal] into [serversResponse], giving its [servers] *)
  unmarshalServers : string -> Result (list Account);
}.

Record Request := {
  reqMethod : string;
  reqURL : string;
  reqQuery : list (string * string);
}.

(** What [querySteam] reads of an [http.Response]: the status code, the
    value of [Header.Get] for X-error_message (empty when the header is
    absent) and the outcome of reading the body. *)
Record Response := {
  StatusCode : Z;
  XErrorMessage : string;
  Body : Result string;
}.

Definition StatusOK : Z := 200.

Section Client.
Context `{JSON}.

(** Removes the response wrapper and returns the inner JSON text. *)
Definition unwrapResponse (response : string) : Result string :=
  unmarshalResponse response.

(** The part of [querySteam] that follows a completed round trip. *)
Definition checkResponse (resp : Response) : Result string :=
  if negb (String.eqb (XErrorMessage resp) EmptyString)
  then Err (errorString (XErrorMessage resp))
  else if negb (StatusCode resp =? StatusOK)
  then Err (errorString ("steam API request failed with status " +:+
                          strconv.Itoa (StatusCode resp)))
  else match Body resp with
       | Err e => Err e
       | Ok body => unwrapResponse body
       end.

Definition newRequest (client : SteamClient) (command method : string)
    (params : list (string * string)) : Request :=
  {| reqMethod := method;
     reqURL := location +:+ command +:+ "/" +:+ version;
     reqQuery := ("key", apiKey client) :: params |}.

(** The transport performs a request and changes the state [T] of
    whatever it talks to. *)
Context {T : Type}.
Variable do : Request -> T -> Result Response * T.

Definition querySteam (client : SteamClient) (command method : string)
    (params : list (string * string)) (t : T) : Result string * T :=
  match do (newRequest client command method params) t with
  | (Err e, t') => (Err e, t')
  | (Ok resp, t') => (checkResponse resp, t')
  end.

Definition CreateAccount (client : SteamClient) (appID : Z) (memo : string)
    (t : T) : Result Account * T :=
  match querySteam client "CreateAccount" "POST"
          [("appid", strconv.Itoa appID); ("memo", memo)] t with
  | (Err e, t') => (Err e, t')
  | (Ok data, t') => (unmarshalAccount data, t')
  end.

Definition GetAccountList (client : SteamClient) (t : T)
  : Result (list Account) * T :=
  match querySteam client "GetAccountList" "GET" [] t with
  | (Err e, t') => (Err e, t')
  | (Ok data, t') => (unmarshalServers data, t')
  end.

Definition DeleteAccount (client : SteamClient) (steamID : string) (t : T)
  : Result unit * T :=
  match querySteam client "DeleteAccount" "POST" [("steamid", steamID)] t with
  | (Err e, t') => (Err e, t')
  | (Ok _, t') => (Ok tt, t')
  end.

(** [ResetLoginToken] generates a new login token for an existing
    account. *)
Definition ResetLoginToken (client : SteamClient) (steamID : string) (t : T)
  : Result Account * T :=
  match querySteam client "ResetLoginToken" "POST" [("steamid", steamID)] t with
  | (Err e, t') => (Err e, t')
  | (Ok data, t') => (unmarshalAccount data, t')
  end.

End Client.

End steam.

(** ** The cluster, as the typed client shows it *)

Module kube.

(** An opaque secret of the controller's namespace. *)
Record Secret := {
  Name : string;
  Namespace : string;
  Labels : gmap string string;
  Data : gmap string string;
  ResourceVersion : nat;
}.

Inductive NodeAddressType :=
| NodeHostName
| NodeInternalIP
| NodeExternalIP
| NodeInternalDNS
| NodeExternalDNS.

Record NodeAddress := { Type_ : NodeAddressType; Address : string }.

Record Node := { Addresses : list NodeAddress }.

(** The namespace as the API server answers for it; [denied] tells the
    secrets whose deletion the server refuses to the controller. *)
Record Cluster := {
  services : list ports.Service;
  secrets : gmap string Secret;
  nodes : list Node;
  denied : string -> bool;
}.

Definition set_secrets (m : gmap string Secret) (cl : Cluster) : Cluster :=
  {| services := services cl; secrets := m; nodes := nodes cl;
     denied := denied cl |}.

Definition IsNotFound (e : error) : bool :=
  match e with
  | statusError NotFound _ => true
  | _ => false
  end.

Definition withVersion (v : nat) (s : Secret) : Secret :=
  {| Name := Name s; Namespace := Namespace s; Labels := Labels s;
     Data := Data s; ResourceVersion := v |}.

(** [Secrets(ns).Get] *)
Definition Get (name : string) (cl : Cluster) : Result Secret :=
  match secrets cl !! name with
  | Some s => Ok s
  | None => Err (statusError NotFound name)
  end.

(** [Secrets(ns).Create]: the server assigns the first resource version. *)
Definition Create (desired : Secret) (cl : Cluster) : Result unit * Cluster :=
  match secrets cl !! Name desired with
  | Some _ => (Err (statusError AlreadyExists (Name desired)), cl)
  | None =>
      (Ok tt, set_secrets (<[Name desired := withVersion 1 desired]> (secrets cl)) cl)
  end.

(** [Secrets(ns).Update]: refused unless the resource version is the
    stored one. *)
Definition Update (desired : Secret) (cl : Cluster) : Result unit * Cluster :=
  match secrets cl !! Name desired with
  | None => (Err (statusError NotFound (Name desired)), cl)
  | Some existing =>
      if Nat.eqb (ResourceVersion desired) (ResourceVersion existing)
      then (Ok tt,
            set_secrets
              (<[Name desired := withVersion (S (ResourceVersion existing)) desired]>
                 (secrets cl)) cl)
      else (Err (statusError Conflict (Name desired)), cl)
  end.

(** [Secrets(ns).Delete]: a refused deletion leaves the secret. *)
Definition Delete (name : string) (cl : Cluster) : Result unit * Cluster :=
  if denied cl name then (Err (statusError Forbidden name), cl)
  else
    match secrets cl !! name with
    | None => (Err (statusError NotFound name), cl)
    | Some _ => (Ok tt, set_secrets (delete name (secrets cl)) cl)
    end.

(** [Secrets(ns).List] with a label selector that names a key: the
    secrets that carry the label, whatever its value. *)
Definition ListSecrets (labelKey : string) (cl : Cluster) : Result (list Secret) :=
  Ok (List.filter (fun s => bool_decide (is_Some (Labels s !! labelKey)))
                  (map snd (map_to_list (secrets cl)))).

End kube.

(** ** Package ports, the allocation that also reads the state secrets *)

Module ports_secrets.
Import config ports.

Definition portKeys : list string :=
  ["game_port"; "sourcetv_port"; "client_port"; "steam_port"].

(** [parsePortsFromSecret] adds the port numbers of a secret's data to
    the used-set. *)
Definition parsePortsFromSecret (data : gmap string string) (used : gset Z)
  : gset Z :=
  foldl (fun u key =>
           match data !! key with
           | Some portBytes =>
               match strconv.Atoi portBytes with
               | Ok port => if 0 <? port then {[ port ]} ∪ u else u
               | Err _ => u
               end
           | None => u
           end) used portKeys.

Definition markSecrets (used : gset Z) (items : list kube.Secret) : gset Z :=
  foldl (fun u secret => parsePortsFromSecret (kube.Data secret) u) used items.

(** The label selector of the secret list. *)
Definition tournamentSelector : string := "udl.tf/match-id".

(** [AllocateWithSecrets], from the service list the client returned
    and the outcome of listing the secrets selected by
    [tournamentSelector]; a failed listing is passed over. *)
Definition AllocateWithSecrets (ranges : PortsConfig) (items : list Service)
    (secretList : Result (list kube.Secret)) : Result Assignment :=
  let used := markServices ∅ items in
  let used :=
    match secretList with
    | Ok secrets => markSecrets used secrets
    | Err _ => used
    end in
  match nextFree (GameRange ranges) used with
  | Err e => Err e
  | Ok (game, used) =>
  match nextFree (SourceTVRange ranges) used with
  | Err e => Err e
  | Ok (sourceTV, used) =>
  match nextFree (ClientRange ranges) used with
  | Err e => Err e
  | Ok (client, used) =>
  match nextFree (SteamRange ranges) used with
  | Err e => Err e
  | Ok (steam, _) =>
      Ok {| aGame := game; aSourceTV := sourceTV;
            aClient := client; aSteam := steam |}
  end end end end.

End ports_secrets.

(** ** Package chart *)

Module chart.

(** A tree of override values ([chartutil.Values]). *)
#[local] Set Warnings "-register-all".
Inductive Value :=
| VString (s : string)
| VInt (n : Z)
| VBool (b : bool)
| VStrings (l : list string)
| VList (l : list Value)
| VMap (entries : list (string * Value)).

(** The renderer is used through its two methods, which render the
    release and apply the objects to the cluster, or delete them. *)
Record Renderer := {
  Apply : string -> Value -> kube.Cluster -> Result unit * kube.Cluster;
  Delete : string -> Value -> kube.Cluster -> Result unit * kube.Cluster;
}.

End chart.

(** ** Package controller *)

Module controller.

Record serverState := {
  ReleaseName : string;
  Ports : ports.Assignment;
  Password : string;
  RCON : string;
  Map : string;
  Token : string;
}.

Definition secretKeyPassword : string := "password".
Definition secretKeyRCON : string := "rcon".
Definition secretKeyGamePort : string := "game_port".
Definition secretKeySourcePort : string := "sourcetv_port".
Definition secretKeyClientPort : string := "client_port".
Definition secretKeySteamPort : string := "steam_port".
Definition secretKeyMap : string := "map".
Definition secretKeyToken : string := "token".

(** The reconciliation dependencies.  The repository and the clientset
    are the database and the cluster of the [World]. *)
Record Controller := {
  cfg : config.Config;
  portAllocator : config.PortsConfig;
  renderer : option chart.Renderer;
  steamClient : option steam.SteamClient;
}.

(** [New] wires the dependencies together. *)
Definition New (cfg : config.Config) (renderer : option chart.Renderer) : Controller :=
  {| cfg := cfg;
     portAllocator := config.Ports cfg;
     renderer := renderer;
     steamClient :=
       if config.EnableAutoTokens (config.Steam cfg) &&
          negb (String.eqb (config.APIKey (config.Steam cfg)) EmptyString)
       then Some (steam.NewSteamClient (config.APIKey (config.Steam cfg)))
       else None |}.

(** Calls on collaborators whose effect is not kept in a store, and the
    entry of the two per-round procedures. *)
Inductive Event :=
| EvEnsureRound (matchID roundID : Z)
| EvTeardownRound (matchID roundID : Z)
| EvAllocate (outcome : Result ports.Assignment)
| EvHelmApply (release : string) (values : chart.Value)
| EvHelmDelete (release : string) (values : chart.Value)
| EvSteamRequest (req : steam.Request)
| EvNotifyTeams (homeRosterID awayRosterID : Z) (message link : string).

(** Everything outside the process: the cluster, the database, the
    identity registry behind its HTTP endpoint, the system's random
    source with the number of values drawn so far, and the calls made. *)
Record World := {
  cluster : kube.Cluster;
  db : database.DB;
  steamAPI : steam.Request -> Result steam.Response;
  entropy : nat -> Result nat;
  draws : nat;
  trace : list Event;
}.

Definition set_cluster (cl : kube.Cluster) (w : World) : World :=
  {| cluster := cl; db := db w; steamAPI := steamAPI w;
     entropy := entropy w; draws := draws w; trace := trace w |}.

Definition set_db (d : database.DB) (w : World) : World :=
  {| cluster := cluster w; db := d; steamAPI := steamAPI w;
     entropy := entropy w; draws := draws w; trace := trace w |}.

Definition set_draws (n : nat) (w : World) : World :=
  {| cluster := cluster w; db := db w; steamAPI := steamAPI w;
     entropy := entropy w; draws := n; trace := trace w |}.

Definition set_trace (t : list Event) (w : World) : World :=
  {| cluster := cluster w; db := db w; steamAPI := steamAPI w;
     entropy := entropy w; draws := draws w; trace := t |}.

(** *** Computations on the world that may end in an error *)

Definition M (A : Type) : Type := World -> Result A * World.

Definition ret {A} (a : A) : M A := fun w => (Ok a, w).

Definition bind {A B} (c : M A) (k : A -> M B) : M B :=
  fun w =>
    match c w with
    | (Ok a, w') => k a w'
    | (Err e, w') => (Err e, w')
    end.

(** [x, err := f(); if err != nil { return fmt.Errorf("<prefix>: %w", err) }] *)
Definition wrap {A} (prefix : string) (c : M A) : M A :=
  fun w => let (r, w') := c w in (wrapResult prefix r, w').

(** A call whose error is handled on the spot (logged, or replaced by a
    fallback) instead of being returned. *)
Definition try {A} (c : M A) : M (Result A) :=
  fun w => let (r, w') := c w in (Ok r, w').

Definition lift {A} (r : Result A) : M A := fun w => (r, w).

Definition emit (e : Event) : M unit :=
  fun w => (Ok tt, set_trace (trace w ++ [e]) w).

Definition onCluster {A} (f : kube.Cluster -> Result A * kube.Cluster) : M A :=
  fun w => let (r, cl) := f (cluster w) in (r, set_cluster cl w).

Definition onDB {A} (f : database.DB -> Result A * database.DB) : M A :=
  fun w => let (r, d) := f (db w) in (r, set_db d w).

Definition readCluster {A} (f : kube.Cluster -> Result A) : M A :=
  fun w => (f (cluster w), w).

Definition readDB {A} (f : database.DB -> Result A) : M A :=
  fun w => (f (db w), w).

Declare Scope go_scope.
Delimit Scope go_scope with go.
Notation "x <- c ;; k" := (bind c (fun x => k))
  (at level 100, c at next level, right associativity) : go_scope.
Notation "c ;; k" := (bind c (fun _ => k))
  (at level 100, right associativity) : go_scope.
Local Open Scope go_scope.

Section Reconciler.
Context `{GoRuntime} `{steam.JSON}.
Variable c : Controller.

Definition releaseName (matchID roundID : Z) : string :=
  "udl-" +:+ strconv.Itoa matchID +:+ "-r" +:+ strconv.Itoa roundID.

Definition secretName (releaseName : string) : string :=
  releaseName +:+ "-settings".

(** The loop of [preferValue] over the candidates. *)
Fixpoint firstNonBlank (candidates : list string) : string :=
  match candidates with
  | [] => EmptyString
  | candidate :: rest =>
      let trimmed := TrimSpace candidate in
      if negb (String.eqb trimmed EmptyString) then trimmed
      else firstNonBlank rest
  end.

Definition preferValue (primary : string) (fallbacks : list string) : string :=
  firstNonBlank (primary :: fallbacks).

(** The loop of [divisionMatchesFilter] over the filters. *)
Fixpoint anyFilterIn (normalized : string) (filters : list string) : bool :=
  match filters with
  | [] => false
  | filter :: rest =>
      if String.eqb filter EmptyString then anyFilterIn normalized rest
      else if strings.Contains normalized filter then true
      else anyFilterIn normalized rest
  end.

Definition divisionMatchesFilter (name : string) : bool :=
  let filters := config.DivisionFilters (config.Match (cfg c)) in
  if Nat.eqb (length filters) 0 then true
  else
    let normalized := ToLower (TrimSpace name) in
    if String.eqb normalized EmptyString then false
    else anyFilterIn normalized filters.

(** *** The state secret *)

Definition parseKey (secret : kube.Secret) (key : string) : string :=
  match kube.Data secret !! key with
  | Some data => data
  | None => EmptyString
  end.

Definition toInt (secret : kube.Secret) (key : string) : Result Z :=
  let raw := parseKey secret key in
  if String.eqb raw EmptyString
  then Err (errorString ("secret missing " +:+ key))
  else strconv.Atoi raw.

Definition decodeState (releaseName : string) (secret : kube.Secret)
  : Result serverState :=
  match toInt secret secretKeyGamePort with
  | Err e => Err e
  | Ok gamePort =>
  match toInt secret secretKeySourcePort with
  | Err e => Err e
  | Ok sourcePort =>
  match toInt secret secretKeyClientPort with
  | Err e => Err e
  | Ok clientPort =>
  match toInt secret secretKeySteamPort with
  | Err e => Err e
  | Ok steamPort =>
      Ok {| ReleaseName := releaseName;
            Ports := {| ports.aGame := gamePort;
                        ports.aSourceTV := sourcePort;
                        ports.aClient := clientPort;
                        ports.aSteam := steamPort |};
            Password := parseKey secret secretKeyPassword;
            RCON := parseKey secret secretKeyRCON;
            Map := parseKey secret secretKeyMap;
            Token := parseKey secret secretKeyToken |}
  end end end end.

(** [loadServerState]: an absent secret is not an error. *)
Definition loadServerState (releaseName : string) : M (option serverState) :=
  readCluster (fun cl =>
    match kube.Get (secretName releaseName) cl with
    | Err e => if kube.IsNotFound e then Ok None else Err e
    | Ok secret =>
        match decodeState releaseName secret with
        | Err e => Err e
        | Ok state => Ok (Some state)
        end
    end).

Definition desiredSecret (match_ : database.Match) (round : database.MatchRound)
    (state : serverState) : kube.Secret :=
  {| kube.Name := secretName (ReleaseName state);
     kube.Namespace := config.Namespace (cfg c);
     kube.Labels :=
       <["app.kubernetes.io/instance" := ReleaseName state]>
       (<["udl.tf/match-id" := strconv.Itoa (database.mID match_)]>
       (<["udl.tf/round-id" := strconv.Itoa (database.rID round)]> ∅));
     kube.Data :=
       <[secretKeyPassword := Password state]>
       (<[secretKeyRCON := RCON state]>
       (<[secretKeyGamePort := strconv.Itoa (ports.aGame (Ports state))]>
       (<[secretKeySourcePort := strconv.Itoa (ports.aSourceTV (Ports state))]>
       (<[secretKeyClientPort := strconv.Itoa (ports.aClient (Ports state))]>
       (<[secretKeySteamPort := strconv.Itoa (ports.aSteam (Ports state))]>
       (<[secretKeyMap :=
            preferValue (Map state)
              [config.DefaultMap (config.Match (cfg c)); EmptyString]]>
       (<[secretKeyToken := Token state]> ∅)))))));
     kube.ResourceVersion := 0 |}.

(** [persistStateSecret]: create if absent, otherwise update with the
    observed resource version. *)
Definition persistStateSecret (match_ : database.Match)
    (round : database.MatchRound) (state : serverState) : M unit :=
  let desired := desiredSecret match_ round state in
  onCluster (fun cl =>
    match kube.Get (kube.Name desired) cl with
    | Err e =>
        if kube.IsNotFound e then kube.Create desired cl else (Err e, cl)
    | Ok existing =>
        kube.Update (kube.withVersion (kube.ResourceVersion existing) desired) cl
    end).

Definition deleteStateSecret (releaseName : string) : M unit :=
  onCluster (fun cl =>
    match kube.Delete (secretName releaseName) cl with
    | (Err e, cl') => if kube.IsNotFound e then (Ok tt, cl') else (Err e, cl')
    | (Ok _, cl') => (Ok tt, cl')
    end).

(** *** Secrets and registry tokens *)

Definition alphabet : string :=
  "abcdefghijklmnopqrstuvwxyzABCDEFGHIJKLMNOPQRSTUVWXYZ0123456789".

(** [rand.Int(rand.Reader, max)]: the next value of the random source,
    below [max]. *)
Definition randInt (max : nat) : M nat :=
  fun w =>
    (match entropy w (draws w) with
     | Ok v => Ok (v mod max)%nat
     | Err e => Err e
     end, set_draws (S (draws w)) w).

Definition alphabetAt (idx : nat) : ascii :=
  match String.get idx alphabet with
  | Some ch => ch
  | None => "a"%char
  end.

(** The loop of [generateSecret] over the bytes of the output. *)
Fixpoint drawBytes (n : nat) : M string :=
  match n with
  | O => ret EmptyString
  | S n' =>
      idx <- randInt (String.length alphabet) ;;
      rest <- drawBytes n' ;;
      ret (String (alphabetAt idx) rest)
  end.

Definition generateSecret (length : Z) : M string :=
  drawBytes (Z.to_nat length).

(** The HTTP transport of the registry client: the request is recorded
    and answered by the registry. *)
Definition steamDo (req : steam.Request) (w : World)
  : Result steam.Response * World :=
  (steamAPI w req, set_trace (trace w ++ [EvSteamRequest req]) w).

(** [generateSRCDSToken] mints a token at the registry if configured,
    otherwise falls back to the static token. *)
Definition generateSRCDSToken (matchID roundID : Z) : M string :=
  match steamClient c with
  | Some client =>
      if negb (config.EnableAutoTokens (config.Steam (cfg c)))
      then ret (config.StaticToken (config.SRCDS (cfg c)))
      else
        let memo :=
          Sprintf (config.TokenMemoTemplate (config.Steam (cfg c)))
                  [matchID; roundID] in
        account <- wrap "create steam account"
                     (steam.CreateAccount steamDo client
                        (config.SteamAppID (config.Steam (cfg c))) memo) ;;
        ret (steam.LoginToken account)
  | None => ret (config.StaticToken (config.SRCDS (cfg c)))
  end.

(** The loop of [cleanupSRCDSToken] over the accounts. *)
Fixpoint deleteMatching (client : steam.SteamClient) (memo : string)
    (accounts : list steam.Account) : M unit :=
  match accounts with
  | [] => ret tt
  | account :: rest =>
      (if String.eqb (steam.Memo account) memo && negb (steam.IsDeleted account)
       then _ <- try (steam.DeleteAccount steamDo client (steam.SteamID account)) ;;
            ret tt
       else ret tt) ;;
      deleteMatching client memo rest
  end.

Definition cleanupSRCDSToken (matchID roundID : Z) : M unit :=
  match steamClient c with
  | Some client =>
      if negb (config.EnableTokenCleanup (config.Steam (cfg c))) then ret tt
      else
        let memo :=
          Sprintf (config.TokenMemoTemplate (config.Steam (cfg c)))
                  [matchID; roundID] in
        accounts <- wrap "get account list" (steam.GetAccountList steamDo client) ;;
        deleteMatching client memo accounts
  | None => ret tt
  end.

(** *** Node-address discovery *)

Definition isIPv4 (addr : string) : bool := ParseIPv4 (TrimSpace addr).

Inductive Pick :=
| Return (address : string)
| Candidate (internalCandidate : string).

Definition isExternalIP (a : kube.NodeAddress) : bool :=
  match kube.Type_ a with kube.NodeExternalIP => true | _ => false end.

Definition isInternalIP (a : kube.NodeAddress) : bool :=
  match kube.Type_ a with kube.NodeInternalIP => true | _ => false end.

Fixpoint scanAddresses (addrs : list kube.NodeAddress) (internalCandidate : string)
  : Pick :=
  match addrs with
  | [] => Candidate internalCandidate
  | addr :: rest =>
      if isExternalIP addr && isIPv4 (kube.Address addr) &&
         String.eqb (config.NodeIPPreference_ (config.Networking (cfg c)))
                    config.NodeIPExternalFirst
      then Return (kube.Address addr)
      else if isInternalIP addr && isIPv4 (kube.Address addr) &&
              String.eqb internalCandidate EmptyString
      then scanAddresses rest (kube.Address addr)
      else scanAddresses rest internalCandidate
  end.

Fixpoint scanNodes (items : list kube.Node) (internalCandidate : string) : Pick :=
  match items with
  | [] => Candidate internalCandidate
  | node :: rest =>
      match scanAddresses (kube.Addresses node) internalCandidate with
      | Return address => Return address
      | Candidate candidate => scanNodes rest candidate
      end
  end.

Definition pickNodeIP : M string :=
  readCluster (fun cl =>
    match scanNodes (kube.nodes cl) EmptyString with
    | Return address => Ok address
    | Candidate internalCandidate =>
        if negb (String.eqb internalCandidate EmptyString)
        then Ok internalCandidate
        else Err (errorString "no suitable node IP found")
    end).

(** *** The manifest *)

Definition applyHelmRelease (releaseName : string) (overrides : chart.Value)
  : M unit :=
  match renderer c with
  | None => lift (Err (errorString "helm renderer is not configured"))
  | Some r =>
      emit (EvHelmApply releaseName overrides) ;;
      onCluster (chart.Apply r releaseName overrides)
  end.

Definition deleteHelmRelease (releaseName : string) (overrides : chart.Value)
  : M unit :=
  match renderer c with
  | None => lift (Err (errorString "helm renderer is not configured"))
  | Some r =>
      emit (EvHelmDelete releaseName overrides) ;;
      onCluster (chart.Delete r releaseName overrides)
  end.

(** [fmt.Sprintf("%v", value)] on the values put in the environment. *)
Definition sprintV (value : chart.Value) : string :=
  match value with
  | chart.VInt n => strconv.Itoa n
  | chart.VString v => v
  | chart.VBool true => "true"
  | chart.VBool false => "false"
  | _ => EmptyString
  end.

Definition envVar (name : string) (value : chart.Value) : chart.Value :=
  chart.VMap [("name", chart.VString name);
              ("value", chart.VString (sprintV value))].

Definition namedPort (name : string) (port : Z) (protocol : string) (hostPort : Z)
  : chart.Value :=
  chart.VMap
    ([("name", chart.VString name);
      ("containerPort", chart.VInt port);
      ("protocol", chart.VString protocol)] ++
     (if 0 <? hostPort then [("hostPort", chart.VInt hostPort)] else [])).

Definition servicePort (name : string) (port target : Z) (protocol : string)
  : chart.Value :=
  chart.VMap [("name", chart.VString name);
              ("port", chart.VInt port);
              ("targetPort", chart.VInt target);
              ("protocol", chart.VString protocol);
              ("nodePort", chart.VInt port)].

Definition overlay (name path sourcePath : string) : chart.Value :=
  chart.VMap [("name", chart.VString name);
              ("path", chart.VString path);
              ("sourcePath", chart.VString sourcePath);
              ("hostPathType", chart.VString "Directory");
              ("readOnly", chart.VBool false)].

(** [buildValues]: the override bundle of a release. *)
Definition buildValues (match_ : database.Match) (round : database.MatchRound)
    (divisionID : string) (league : database.League)
    (homeIDs awayIDs : list string) (state : serverState) : chart.Value :=
  let srcds := config.SRCDS (cfg c) in
  let net := config.Networking (cfg c) in
  let prt := Ports state in
  let maxPlayers :=
    if 0 <? config.MaxPlayersOverride srcds then config.MaxPlayersOverride srcds
    else database.MaxPlayers league in
  let env :=
    [envVar "SRCDS_PORT" (chart.VInt (ports.aGame prt));
     envVar "SRCDS_PW" (chart.VString (Password state));
     envVar "SRCDS_MAXPLAYERS" (chart.VInt maxPlayers);
     envVar "SRCDS_TICKRATE" (chart.VInt (config.TickRate srcds));
     envVar "SRCDS_RCONPW" (chart.VString (RCON state));
     envVar "SRCDS_STARTMAP"
       (chart.VString
          (preferValue (Map state)
             [config.DefaultMap (config.Match (cfg c)); EmptyString]));
     envVar "SRCDS_STATIC_HOSTNAME"
       (chart.VString ("UDL.TF | " +:+ strconv.Itoa (database.mID match_) +:+
                       " | Round #" +:+ strconv.Itoa (database.rID round)));
     envVar "SRCDS_TOKEN" (chart.VString (Token state));
     envVar "SRCDS_TV_PORT" (chart.VInt (ports.aSourceTV prt));
     envVar "SRCDS_CLIENT_PORT" (chart.VInt (ports.aClient prt));
     envVar "SRCDS_STEAM_PORT" (chart.VInt (ports.aSteam prt));
     envVar "MATCH_ID" (chart.VInt (database.mID match_));
     envVar "ROUND_ID" (chart.VInt (database.rID round));
     envVar "AWAY_TEAM" (chart.VString (strings.Join awayIDs ","));
     envVar "AWAY_TEAM_ID" (chart.VInt (database.RosterAwayID match_));
     envVar "HOME_TEAM" (chart.VString (strings.Join homeIDs ","));
     envVar "HOME_TEAM_ID" (chart.VInt (database.RosterHomeID match_));
     envVar "MIN_PLAYERS" (chart.VInt (database.MinPlayers league));
     envVar "MAX_PLAYERS" (chart.VInt maxPlayers);
     envVar "WIN_LIMIT" (chart.VInt (database.WinLimit match_))] in
  let appPorts :=
    [namedPort "game-udp" (ports.aGame prt) "UDP" 0;
     namedPort "game-tcp" (ports.aGame prt) "TCP" 0;
     namedPort "sourcetv" (ports.aSourceTV prt) "UDP" 0;
     namedPort "client" (ports.aClient prt) "UDP" 0;
     namedPort "steam" (ports.aSteam prt) "UDP" 0] in
  let servicePorts :=
    [servicePort "game-udp" (ports.aGame prt) (ports.aGame prt) "UDP";
     servicePort "game-tcp" (ports.aGame prt) (ports.aGame prt) "TCP";
     servicePort "sourcetv" (ports.aSourceTV prt) (ports.aSourceTV prt) "UDP";
     servicePort "client" (ports.aClient prt) (ports.aClient prt) "UDP";
     servicePort "steam" (ports.aSteam prt) (ports.aSteam prt) "UDP"] in
  let enabled := negb (config.HostNetwork net) in
  let serviceConfig :=
    [("enabled", chart.VBool enabled)] ++
    (if enabled
     then [("type", chart.VString "NodePort");
           ("nameOverride", chart.VString (ReleaseName state));
           ("ports", chart.VList servicePorts)]
     else []) ++
    (if config.HostNetwork net then []
     else if negb (String.eqb (config.ExternalTrafficPolicy net) EmptyString)
     then [("externalTrafficPolicy",
            chart.VString (config.ExternalTrafficPolicy net))]
     else []) in
  chart.VMap
    ([("workload",
       chart.VMap
         [("kind", chart.VString "Deployment");
          ("nameOverride", chart.VString (ReleaseName state));
          ("deploymentStrategy",
           chart.VMap [("type", chart.VString "Recreate")])]);
      ("service", chart.VMap serviceConfig);
      ("app",
       chart.VMap
         [("name", chart.VString (ReleaseName state));
          ("containerPort", chart.VInt (ports.aGame prt));
          ("ports", chart.VList appPorts);
          ("env", chart.VList env);
          ("stdin", chart.VBool true);
          ("tty", chart.VBool true)]);
      ("paths",
       chart.VMap
         [("hostSource", chart.VString "/mnt/tf2");
          ("hostPathType", chart.VString "Directory");
          ("containerTarget", chart.VString "/tf")]);
      ("decompressor",
       chart.VMap
         [("scanBase", chart.VBool false);
          ("scanOverlays", chart.VStrings ["serverfiles-dodgeball-tourney"]);
          ("cache",
           chart.VMap
             [("enabled", chart.VBool true);
              ("type", chart.VString "hostPath");
              ("mountAsOverlay", chart.VBool true);
              ("overlayName", chart.VString "decomp-cache");
              ("hostPath", chart.VString "/mnt/dodgeball-cache");
              ("hostPathType", chart.VString "DirectoryOrCreate")])]);
      ("writablePaths",
       chart.VStrings ["tf/logs"; "tf/demos"; "tf/addons/sourcemod/data";
                       "tf/addons/sourcemod/logs"]);
      ("copyTemplates",
       chart.VList
         [chart.VMap
            [("targetPath", chart.VString "tf/addons/sourcemod/configs/sourcebans");
             ("overlay", chart.VString "serverfiles-base");
             ("sourcePath",
              chart.VString "serverfiles/base/addons/sourcemod/configs/sourcebans");
             ("cleanTarget", chart.VBool false);
             ("targetMode", chart.VString "writable");
             ("onlyOnInit", chart.VBool true)]]);
      ("overlays",
       chart.VList
         [overlay "serverfiles-base-sourcemod" "/mnt/serverfiles"
                  "serverfiles/base/sourcemod";
          overlay "serverfiles-base-sourcebans" "/mnt/serverfiles"
                  "serverfiles/base/sourcebans";
          overlay "serverfilesprivate-base" "/mnt/serverfilesprivate"
                  "serverfiles/base";
          overlay "serverfilesprivate-dodgeball-base" "/mnt/serverfilesprivate"
                  "serverfiles/dodgeball/base";
          overlay "serverfiles-dodgeball-tourney" "/mnt/serverfiles"
                  "serverfiles/dodgeball/tourney"]);
      ("permissionsInit",
       chart.VMap
         [("applyDuringMerge", chart.VBool true);
          ("applyPaths", chart.VStrings ["/tf"]);
          ("user", chart.VInt 1000);
          ("group", chart.VInt 1000);
          ("chmod", chart.VString "775")]);
      ("podLabels",
       chart.VMap
         [("udl.tf/match-id", chart.VString (strconv.Itoa (database.mID match_)));
          ("udl.tf/round-id", chart.VString (strconv.Itoa (database.rID round)));
          ("udl.tf/division", chart.VString divisionID)])] ++
     (if config.HostNetwork net
      then [("hostNetwork", chart.VBool true);
            ("dnsPolicy", chart.VString "ClusterFirstWithHostNet")]
      else [])).

(** *** Ensure and teardown *)

(** [portAllocator.Allocate] on the services of the namespace. *)
Definition allocate : M ports.Assignment :=
  fun w =>
    let outcome :=
      ports.Allocate (portAllocator c) (kube.services (cluster w)) in
    (outcome, set_trace (trace w ++ [EvAllocate outcome]) w).

Definition orStatic (minted : Result string) : string :=
  match minted with
  | Ok token => token
  | Err _ => config.StaticToken (config.SRCDS (cfg c))
  end.

Definition withMap (m : string) (state : serverState) : serverState :=
  {| ReleaseName := ReleaseName state; Ports := Ports state;
     Password := Password state; RCON := RCON state;
     Map := m; Token := Token state |}.

Definition withToken (t : string) (state : serverState) : serverState :=
  {| ReleaseName := ReleaseName state; Ports := Ports state;
     Password := Password state; RCON := RCON state;
     Map := Map state; Token := t |}.

(** The first branch of [ensureRound]: no secret exists yet. *)
Definition createState (match_ : database.Match) (round : database.MatchRound)
    (mapName releaseName : string) : M serverState :=
  assign <- wrap "allocate ports" allocate ;;
  password <- wrap "generate password"
                (generateSecret (config.PasswordLength (config.SRCDS (cfg c)))) ;;
  rcon <- wrap "generate rcon"
            (generateSecret (config.RCONLength (config.SRCDS (cfg c)))) ;;
  minted <- try (generateSRCDSToken (database.mID match_) (database.rID round)) ;;
  ret {| ReleaseName := releaseName; Ports := assign;
         Password := password; RCON := rcon;
         Map := mapName; Token := orStatic minted |}.

(** The second branch: the secret exists; the map is refreshed and a
    missing token minted. *)
Definition refreshState (match_ : database.Match) (round : database.MatchRound)
    (mapName : string) (state : serverState) : M serverState :=
  let state :=
    withMap (preferValue mapName
               [Map state; config.DefaultMap (config.Match (cfg c))]) state in
  if String.eqb (Token state) EmptyString
  then
    minted <- try (generateSRCDSToken (database.mID match_) (database.rID round)) ;;
    ret (withToken (orStatic minted) state)
  else ret state.

Definition notificationMessage (match_ : database.Match)
    (round : database.MatchRound) (nodeIP : string) (state : serverState)
  : string :=
  "Match " +:+ strconv.Itoa (database.mID match_) +:+
  " Round " +:+ strconv.Itoa (database.rID round) +:+
  " is running on " +:+ nodeIP +:+ ":" +:+
  strconv.Itoa (ports.aGame (Ports state)) +:+
  " with password " +:+ Password state.

(** [ensureRound], first part: the state is loaded, or created when no
    secret exists; the flag tells whether it is new. *)
Definition ensureState (match_ : database.Match) (round : database.MatchRound)
    (mapName releaseName : string) : M (serverState * bool) :=
  loaded <- wrap "load server state" (loadServerState releaseName) ;;
  match loaded with
  | None =>
      state <- createState match_ round mapName releaseName ;;
      ret (state, true)
  | Some state =>
      state <- refreshState match_ round mapName state ;;
      ret (state, false)
  end.

Definition detailsPayload (match_ : database.Match) (round : database.MatchRound)
    (mapName nodeIP : string) (state : serverState) : database.MatchDetails :=
  {| database.dMatchID := database.mID match_;
     database.dRoundID := database.rID round;
     database.ServerIP := nodeIP;
     database.Port := ports.aGame (Ports state);
     database.SourceTVPort := ports.aSourceTV (Ports state);
     database.Password := Password state;
     database.Map :=
       preferValue (Map state)
         [mapName; config.DefaultMap (config.Match (cfg c))] |}.

(** Second part: the state is persisted, the manifest applied and the
    connection details published; the node address is returned. *)
Definition publishServer (match_ : database.Match) (round : database.MatchRound)
    (divisionID : string) (league : database.League)
    (homeIDs awayIDs : list string) (mapName releaseName : string)
    (state : serverState) : M string :=
  wrap "persist secret" (persistStateSecret match_ round state) ;;
  let values :=
    buildValues match_ round divisionID league homeIDs awayIDs state in
  wrap "apply helm release" (applyHelmRelease releaseName values) ;;
  nodeIP <- wrap "discover node ip" pickNodeIP ;;
  wrap "upsert match details"
       (onDB (database.UpsertMatchDetails
                (detailsPayload match_ round mapName nodeIP state))) ;;
  ret nodeIP.

Definition notificationLink (match_ : database.Match) : string :=
  Sprintf (config.LinkFormat (config.Notifications (cfg c)))
          [database.mID match_].

(** Last part: the teams are notified of a new server; a failure is
    logged and not returned. *)
Definition notifyTeams (match_ : database.Match) (round : database.MatchRound)
    (nodeIP : string) (state : serverState) (isNew : bool) : M unit :=
  if isNew && config.Enabled (config.Notifications (cfg c))
  then
    let message := notificationMessage match_ round nodeIP state in
    let link := notificationLink match_ in
    emit (EvNotifyTeams (database.RosterHomeID match_)
                        (database.RosterAwayID match_) message link) ;;
    _ <- try (onDB (database.SendNotificationsToTeams
                      (database.RosterHomeID match_)
                      (database.RosterAwayID match_) message link)) ;;
    ret tt
  else ret tt.

Definition ensureRound (match_ : database.Match) (round : database.MatchRound)
    (divisionID : string) (league : database.League)
    (homeIDs awayIDs : list string) (mapName : string)
    (details : option database.MatchDetails) (releaseName : string) : M unit :=
  emit (EvEnsureRound (database.mID match_) (database.rID round)) ;;
  fresh <- ensureState match_ round mapName releaseName ;;
  let state := fst fresh in
  let isNew := snd fresh in
  nodeIP <- publishServer match_ round divisionID league homeIDs awayIDs
                          mapName releaseName state ;;
  notifyTeams match_ round nodeIP state isNew.

(** The state [teardownRound] renders with: the stored one, or one
    synthesized from the connection details. *)
Definition teardownState (mapName releaseName : string)
    (details : database.MatchDetails) (loaded : option serverState)
  : serverState :=
  match loaded with
  | Some state => state
  | None =>
      {| ReleaseName := releaseName;
         Ports :=
           {| ports.aGame := database.Port details;
              ports.aSourceTV := database.SourceTVPort details;
              ports.aClient := GoInt.add (database.Port details) 1;
              ports.aSteam := GoInt.add (database.Port details) 2 |};
         Password := database.Password details;
         RCON := EmptyString;
         Map := preferValue (database.Map details)
                  [mapName; config.DefaultMap (config.Match (cfg c))];
         Token := config.StaticToken (config.SRCDS (cfg c)) |}
  end.

Definition teardownRound (match_ : database.Match) (round : database.MatchRound)
    (divisionID : string) (league : database.League)
    (homeIDs awayIDs : list string) (mapName releaseName : string)
    (details : database.MatchDetails) : M unit :=
  emit (EvTeardownRound (database.mID match_) (database.rID round)) ;;
  loaded <- wrap "load state for teardown" (loadServerState releaseName) ;;
  let state := teardownState mapName releaseName details loaded in
  wrap "delete helm release"
       (deleteHelmRelease releaseName
          (buildValues match_ round divisionID league homeIDs awayIDs state)) ;;
  wrap "delete match details"
       (onDB (database.DeleteMatchDetails (database.mID match_)
                                          (database.rID round))) ;;
  wrap "delete secret" (deleteStateSecret releaseName) ;;
  _ <- try (cleanupSRCDSToken (database.mID match_) (database.rID round)) ;;
  ret tt.

(** *** The tick *)

(** The body of the loop of [reconcileMatch] over the rounds. *)
Definition reconcileRound (match_ : database.Match) (divisionID : string)
    (league : database.League) (homeIDs awayIDs : list string)
    (round : database.MatchRound) : M unit :=
  looked <- try (readDB (fun d => database.FetchMapName d (database.MapID round))) ;;
  let mapName :=
    match looked with
    | Ok name => name
    | Err _ => config.DefaultMap (config.Match (cfg c))
    end in
  details <- wrap "fetch match details"
               (readDB (fun d => database.FetchMatchDetails d
                                   (database.mID match_) (database.rID round))) ;;
  let needsServer := database.ManualNotDone match_ || negb (database.HasOutcome round) in
  let releaseName := releaseName (database.mID match_) (database.rID round) in
  if needsServer
  then
    _ <- try (ensureRound match_ round divisionID league homeIDs awayIDs
                          mapName details releaseName) ;;
    ret tt
  else
    match details with
    | Some d =>
        _ <- try (teardownRound match_ round divisionID league homeIDs awayIDs
                                mapName releaseName d) ;;
        ret tt
    | None => ret tt
    end.

Fixpoint forEach {A} (body : A -> M unit) (items : list A) : M unit :=
  match items with
  | [] => ret tt
  | item :: rest => body item ;; forEach body rest
  end.

Definition reconcileMatch (match_ : database.Match) : M unit :=
  division <- wrap "fetch division"
                (readDB (fun d => database.FetchDivision d
                                    (database.RosterHomeID match_))) ;;
  if negb (divisionMatchesFilter (database.divName division)) then ret tt
  else
    league <- wrap "fetch league"
                (readDB (fun d => database.FetchLeague d (database.divID division))) ;;
    homeIDs <- wrap "fetch home steam ids"
                 (readDB (fun d => database.FetchTeamSteamIDs d
                                     (database.RosterHomeID match_))) ;;
    awayIDs <- wrap "fetch away steam ids"
                 (readDB (fun d => database.FetchTeamSteamIDs d
                                     (database.RosterAwayID match_))) ;;
    rounds <- wrap "fetch match rounds"
                (readDB (fun d => database.FetchMatchRounds d
                                    (database.mID match_))) ;;
    forEach (reconcileRound match_ (database.divID division) league
                            homeIDs awayIDs) rounds.

(** One tick: a failure of one match is logged and the tick goes on. *)
Definition reconcile : M unit :=
  matches <- readDB (fun d => database.FetchMatches d
                                (config.TargetStatuses (config.Match (cfg c)))) ;;
  forEach (fun match_ => _ <- try (reconcileMatch match_) ;; ret tt) matches.

End Reconciler.
End controller.

(** ** An implementation of the runtime on ASCII text

    It runs the model on concrete inputs.  On ASCII text it computes what
    the Go functions compute. *)

Module ascii_runtime.

Definition isSpace (ch : ascii) : bool :=
  let n := nat_of_ascii ch in
  ((9 <=? n) && (n <=? 13) || (n =? 32))%nat.

Fixpoint trimLeft (s : string) : string :=
  match s with
  | String ch rest => if isSpace ch then trimLeft rest else s
  | EmptyString => EmptyString
  end.

Fixpoint trimRight (s : string) : string :=
  match s with
  | String ch rest =>
      match trimRight rest with
      | EmptyString => if isSpace ch then EmptyString else String ch EmptyString
      | kept => String ch kept
      end
  | EmptyString => EmptyString
  end.

Definition lowerChar (ch : ascii) : ascii :=
  let n := nat_of_ascii ch in
  if ((65 <=? n) && (n <=? 90))%nat then ascii_of_nat (n + 32) else ch.

Fixpoint lower (s : string) : string :=
  match s with
  | String ch rest => String (lowerChar ch) (lower rest)
  | EmptyString => EmptyString
  end.

(** Splits at the dots. *)
Fixpoint fields (s : string) (current : string) : list string :=
  match s with
  | EmptyString => [current]
  | String ch rest =>
      if Ascii.eqb ch "." then current :: fields rest EmptyString
      else fields rest (current +:+ String ch EmptyString)
  end.

Definition isOctet (field : string) : bool :=
  match field with
  | EmptyString => false
  | String ch rest =>
      if Ascii.eqb ch "0" && negb (String.eqb rest EmptyString) then false
      else if Ascii.eqb ch "-" || Ascii.eqb ch "+" then false
      else match strconv.Atoi field with
           | Ok n => (0 <=? n) && (n <=? 255)
           | Err _ => false
           end
  end.

Definition dottedQuad (s : string) : bool :=
  match fields s EmptyString with
  | [a; b; c; d] => isOctet a && isOctet b && isOctet c && isOctet d
  | _ => false
  end.

(** The verb [%d] takes the next argument; [%%] is a percent sign. *)
Fixpoint format (fmt : string) (args : list Z) : string :=
  match fmt with
  | EmptyString => EmptyString
  | String ch rest =>
      if Ascii.eqb ch "%" then
        match rest with
        | String verb rest' =>
            if Ascii.eqb verb "d" then
              match args with
              | arg :: args' => strconv.Itoa arg +:+ format rest' args'
              | [] => "%!d(MISSING)" +:+ format rest' []
              end
            else if Ascii.eqb verb "%" then String "%" (format rest' args)
            else String ch (format rest args)
        | EmptyString => "%!(NOVERB)"
        end
      else String ch (format rest args)
  end.

#[export] Instance runtime : GoRuntime := {|
  TrimSpace s := trimRight (trimLeft s);
  ToLower := lower;
  ParseIPv4 := dottedQuad;
  Sprintf := format;
|}.

(** [fmt.Sprintf("%q", s)] on text without quotes, backslashes and
    control characters. *)
Definition quote (s : string) : string :=
  String (ascii_of_nat 34) (s +:+ String (ascii_of_nat 34) EmptyString).

(** A decoder for examples that never reach the registry. *)
#[export] Instance nothingDecodes : steam.JSON := {|
  steam.unmarshalResponse _ := Err (errorString "unexpected end of JSON input");
  steam.unmarshalAccount _ := Err (errorString "unexpected end of JSON input");
  steam.unmarshalServers _ := Err (errorString "unexpected end of JSON input");
|}.

End ascii_runtime.

(** ** A concrete deployment

    The first scenario of the specification: match 42 with round 7, the
    default port ranges, a cluster without services. *)

Module example.
Import ascii_runtime.

Definition range (a b : Z) : config.PortRange :=
  {| config.Start := a; config.End_ := b |}.

Definition portRanges : config.PortsConfig :=
  {| config.GameRange := range 30000 30299;
     config.SourceTVRange := range 30300 30599;
     config.ClientRange := range 40000 40299;
     config.SteamRange := range 29000 29299 |}.

Definition settings (filters : list string) (defaultMap : string) : config.Config :=
  {| config.Namespace := "udl";
     config.Ports := portRanges;
     config.SRCDS :=
       {| config.TickRate := 128; config.MaxPlayersOverride := 0;
          config.StaticToken := "static-token";
          config.PasswordLength := 10; config.RCONLength := 46 |};
     config.Match :=
       {| config.TargetStatuses := [0]; config.DefaultMap := defaultMap;
          config.DivisionFilters := filters |};
     config.Networking :=
       {| config.HostNetwork := false;
          config.NodeIPPreference_ := config.NodeIPExternalFirst;
          config.ExternalTrafficPolicy := "Cluster" |};
     config.Notifications :=
       {| config.Enabled := true; config.LinkFormat := "/matches/%d" |};
     config.Steam :=
       {| config.APIKey := EmptyString; config.EnableAutoTokens := false;
          config.EnableTokenCleanup := false; config.SteamAppID := 440;
          config.TokenMemoTemplate := "udl-%d-r%d" |} |}.

(** A renderer whose calls succeed. *)
Definition helm : chart.Renderer :=
  {| chart.Apply _ _ cl := (Ok tt, cl); chart.Delete _ _ cl := (Ok tt, cl) |}.

Definition ctl : controller.Controller :=
  controller.New (settings [] "tfdb_octagon_odb_a1") (Some helm).

(** The same controller with the division filters of the fourth
    scenario. *)
Definition filtering : controller.Controller :=
  controller.New (settings ["invite"; "premier"] "tfdb_octagon_odb_a1") (Some helm).

Definition match42 : database.Match :=
  {| database.mID := 42; database.RosterAwayID := 2; database.RosterHomeID := 1;
     database.WinLimit := 3; database.Status := 0;
     database.ManualNotDone := false |}.

Definition round7 : database.MatchRound :=
  {| database.rID := 7; database.rMatchID := 42; database.MapID := 5;
     database.HomeTeamScore := 0; database.AwayTeamScore := 0;
     database.LoserID := None; database.WinnerID := None;
     database.HasOutcome := false;
     database.HomeReady := false; database.AwayReady := false |}.

Definition league : database.League :=
  {| database.MinPlayers := 4; database.MaxPlayers := 8 |}.

Definition readOnly : error :=
  errorString "pq: cannot execute in a read-only transaction".

(** The database of the scenario.  Users 101 and 102 are on the home
    roster and user 201 on the away roster.  The driver fails the
    insertion of a notification for the users in [refused], and the
    statements on the details table when [frozen] is set. *)
Definition tables (frozen : bool) (refused : list Z)
    (details : list database.DetailsRow) : database.DB :=
  {| database.q_matches _ := Ok [match42];
     database.q_division _ :=
       Ok {| database.divID := "3"; database.divName := "Intermediate North" |};
     database.q_league_id _ := Ok 1;
     database.q_league _ := Ok league;
     database.q_steam_ids _ := Ok [Some "76561198000000001"];
     database.q_match_rounds _ := Ok [round7];
     database.q_map_name _ := Ok "tfdb_box_a2";
     database.q_user_ids rosterID :=
       Ok (if rosterID =? 1 then [101; 102]
           else if rosterID =? 2 then [201] else []);
     database.matches_server_details := details;
     database.user_notifications := [];
     database.x_upsert_details _ := if frozen then Some readOnly else None;
     database.x_delete_details _ _ := if frozen then Some readOnly else None;
     database.x_insert_notification userID _ _ :=
       if existsb (Z.eqb userID) refused then Some readOnly else None |}.

(** The same database with a driver that fails no statement. *)
Definition rows (details : list database.DetailsRow) : database.DB :=
  tables false [] details.

Definition node : kube.Node :=
  {| kube.Addresses :=
       [ {| kube.Type_ := kube.NodeInternalIP; kube.Address := "10.0.0.5" |};
         {| kube.Type_ := kube.NodeExternalIP; kube.Address := "203.0.113.7" |} ] |}.

Definition world (nodes : list kube.Node) (details : list database.DetailsRow)
  : controller.World :=
  {| controller.cluster :=
       {| kube.services := []; kube.secrets := ∅; kube.nodes := nodes;
          kube.denied _ := false |};
     controller.db := rows details;
     controller.steamAPI _ := Err (errorString "no route to host");
     controller.entropy n := Ok n;
     controller.draws := 0;
     controller.trace := [] |}.

(** The details row of a server published earlier for the round. *)
Definition published : database.DetailsRow :=
  {| database.row_match_id := 42; database.row_round_id := 7;
     database.row_server_ip := "203.0.113.7";
     database.row_port := "30000"; database.row_sourcetvport := "30300";
     database.row_password := "Xa12cdE678"; database.row_map := "tfdb_box_a2" |}.

Definition stored : controller.serverState :=
  {| controller.ReleaseName := "udl-42-r7";
     controller.Ports :=
       {| ports.aGame := 30000; ports.aSourceTV := 30300;
          ports.aClient := 40000; ports.aSteam := 29000 |};
     controller.Password := "Xa12cdE678";
     controller.RCON := "r";
     controller.Map := EmptyString;
     controller.Token := "static-token" |}.

(** The same row, decoded. *)
Definition publishedDetails : database.MatchDetails :=
  {| database.dMatchID := 42; database.dRoundID := 7;
     database.ServerIP := "203.0.113.7";
     database.Port := 30000; database.SourceTVPort := 30300;
     database.Password := "Xa12cdE678"; database.Map := "tfdb_box_a2" |}.

(** A row whose port column does not hold a number. *)
Definition malformed : database.DetailsRow :=
  {| database.row_match_id := 42; database.row_round_id := 7;
     database.row_server_ip := "203.0.113.7";
     database.row_port := " 30000/udp "; database.row_sourcetvport := "30300";
     database.row_password := "Xa12cdE678"; database.row_map := "tfdb_box_a2" |}.

(** A registry that answers with the error header and status 200. *)
Definition refusing (_ : steam.Request) (t : unit)
  : Result steam.Response * unit :=
  (Ok {| steam.StatusCode := 200; steam.XErrorMessage := "Access is denied";
         steam.Body := Ok EmptyString |}, t).

(** A registry that answers with status 204 and no header. *)
Definition noContent (_ : steam.Request) (t : unit)
  : Result steam.Response * unit :=
  (Ok {| steam.StatusCode := 204; steam.XErrorMessage := EmptyString;
         steam.Body := Ok EmptyString |}, t).

(** A state secret of another round, written before its service
    exists. *)
Definition held : kube.Secret :=
  {| kube.Name := "udl-41-r3-settings"; kube.Namespace := "udl";
     kube.Labels := {[ "udl.tf/match-id" := "41" ]};
     kube.Data :=
       <["game_port" := "30000"]>
       (<["sourcetv_port" := "30300"]>
       (<["client_port" := "40000"]>
       (<["steam_port" := "29000"]> ∅)));
     kube.ResourceVersion := 1 |}.

(** A state secret of round 7 without its port keys. *)
Definition broken : kube.Secret :=
  {| kube.Name := "udl-42-r7-settings"; kube.Namespace := "udl";
     kube.Labels := {[ "udl.tf/match-id" := "42" ]};
     kube.Data := {[ "password" := "Xa12cdE678" ]};
     kube.ResourceVersion := 1 |}.

(** A world with one more secret in its cluster. *)
Definition withSecret (secret : kube.Secret) (w : controller.World)
  : controller.World :=
  controller.set_cluster
    (kube.set_secrets
       (<[kube.Name secret := secret]> (kube.secrets (controller.cluster w)))
       (controller.cluster w)) w.

(** The world after a restart of the controller: the state of round 7
    is in its secret. *)
Definition restarted : controller.World :=
  snd (controller.persistStateSecret ctl match42 round7 stored (world [node] [])).

(** A service that holds every port of the game range. *)
Definition occupied : ports.Service :=
  {| ports.svcName := "others";
     ports.svcPorts := map (fun p => {| ports.NodePort := p |}) (seqZ 30000 300) |}.

Definition crowded : controller.World :=
  controller.set_cluster
    {| kube.services := [occupied]; kube.secrets := ∅; kube.nodes := [node];
       kube.denied _ := false |}
    (world [node] []).

(** A world whose API server refuses every deletion of a secret. *)
Definition locked (w : controller.World) : controller.World :=
  controller.set_cluster
    {| kube.services := kube.services (controller.cluster w);
       kube.secrets := kube.secrets (controller.cluster w);
       kube.nodes := kube.nodes (controller.cluster w);
       kube.denied _ := true |} w.

(** A world with another database. *)
Definition withTables (d : database.DB) (w : controller.World) : controller.World :=
  controller.set_db d w.

(** An environment whose game and SourceTV ranges are both the single
    port at the largest [int]. *)
Definition topOfInt : config.Environ :=
  <["PORT_RANGE_GAME" := "9223372036854775807-9223372036854775807"]>
  (<["PORT_RANGE_SOURCETV" := "9223372036854775807-9223372036854775807"]> ∅).

(** The arguments of the first scenario's call of the per-round
    procedures. *)
Definition homeIDs : list string := ["76561198000000001"].
Definition awayIDs : list string := ["76561198000000002"].

End example.

(** * Specification vocabulary *)

Module AllocatorSpec.
Import config ports.

(** The observed used-set: every positive node-port of every service. *)
Definition observed (items : list Service) (p : Z) : Prop :=
  exists svc prt,
    svc ∈ items /\ prt ∈ svcPorts svc /\ 0 < NodePort prt /\ p = NodePort prt.

Definition reserve (used : Z -> Prop) (p : Z) : Z -> Prop :=
  fun q => used q \/ q = p.

Definition inRange (pr : PortRange) (p : Z) : Prop :=
  Start pr <= p <= End_ pr.

Definition free (used : Z -> Prop) (pr : PortRange) (p : Z) : Prop :=
  inRange pr p /\ ~ used p.

(** The smallest free port of the range, scanning upward from its start. *)
Definition leastFree (used : Z -> Prop) (pr : PortRange) (p : Z) : Prop :=
  free used pr p /\ forall q, free used pr q -> p <= q.

Definition exhausted (used : Z -> Prop) (pr : PortRange) : Prop :=
  forall q, ~ free used pr q.

(** A range of Go ints whose end is not the largest [int]. *)
Definition boundedRange (pr : PortRange) : Prop :=
  GoInt.min_int <= Start pr /\ End_ pr < GoInt.max_int.

Definition boundedRanges (ranges : PortsConfig) : Prop :=
  boundedRange (GameRange ranges) /\ boundedRange (SourceTVRange ranges) /\
  boundedRange (ClientRange ranges) /\ boundedRange (SteamRange ranges).

(** The four picks, in the fixed order game, SourceTV, client, steam,
    each one reserved before the next is chosen. *)
Definition allocationOf (ranges : PortsConfig) (items : list Service)
    (a : Assignment) : Prop :=
  let u0 := observed items in
  let u1 := reserve u0 (aGame a) in
  let u2 := reserve u1 (aSourceTV a) in
  let u3 := reserve u2 (aClient a) in
  leastFree u0 (GameRange ranges) (aGame a) /\
  leastFree u1 (SourceTVRange ranges) (aSourceTV a) /\
  leastFree u2 (ClientRange ranges) (aClient a) /\
  leastFree u3 (SteamRange ranges) (aSteam a).

(** After reserving the earlier categories' picks, some category's range
    contains no free port. *)
Definition someRangeExhausted (ranges : PortsConfig) (items : list Service)
    : Prop :=
  let u0 := observed items in
  exhausted u0 (GameRange ranges) \/
  exists g, leastFree u0 (GameRange ranges) g /\
    let u1 := reserve u0 g in
    (exhausted u1 (SourceTVRange ranges) \/
     exists s, leastFree u1 (SourceTVRange ranges) s /\
       let u2 := reserve u1 s in
       (exhausted u2 (ClientRange ranges) \/
        exists c, leastFree u2 (ClientRange ranges) c /\
          exhausted (reserve u2 c) (SteamRange ranges))).

Definition pairwiseDistinct (a : Assignment) : Prop :=
  aGame a <> aSourceTV a /\ aGame a <> aClient a /\ aGame a <> aSteam a /\
  aSourceTV a <> aClient a /\ aSourceTV a <> aSteam a /\
  aClient a <> aSteam a.

Definition insideRanges (ranges : PortsConfig) (a : Assignment) : Prop :=
  inRange (GameRange ranges) (aGame a) /\ inRange (SourceTVRange ranges) (aSourceTV a) /\
  inRange (ClientRange ranges) (aClient a) /\ inRange (SteamRange ranges) (aSteam a).

Definition noneObserved (items : list Service) (a : Assignment) : Prop :=
  ~ observed items (aGame a) /\ ~ observed items (aSourceTV a) /\
  ~ observed items (aClient a) /\ ~ observed items (aSteam a).

End AllocatorSpec.

(** The allocation that also reads the state secrets. *)
Module AllocatorSecretsSpec.
Import config ports ports_secrets AllocatorSpec.

(** A positive number stored under one of the four port keys of one of
    the secrets. *)
Definition recorded (secrets : list kube.Secret) (p : Z) : Prop :=
  exists secret key raw,
    secret ∈ secrets /\ key ∈ portKeys /\
    kube.Data secret !! key = Some raw /\ strconv.Atoi raw = Ok p /\ 0 < p.

(** The ports recorded in the secrets, when they could be listed. *)
Definition listed (secretList : Result (list kube.Secret)) (p : Z) : Prop :=
  match secretList with
  | Ok secrets => recorded secrets p
  | Err _ => False
  end.

(** What the allocation treats as used: the observed node-ports and the
    ports recorded in the listed secrets. *)
Definition taken (items : list Service) (secretList : Result (list kube.Secret))
    (p : Z) : Prop :=
  observed items p \/ listed secretList p.

(** The four picks from a used-set, in the fixed order, each one
    reserved before the next is chosen. *)
Definition picksFrom (used : Z -> Prop) (ranges : PortsConfig) (a : Assignment)
  : Prop :=
  let u1 := reserve used (aGame a) in
  let u2 := reserve u1 (aSourceTV a) in
  let u3 := reserve u2 (aClient a) in
  leastFree used (GameRange ranges) (aGame a) /\
  leastFree u1 (SourceTVRange ranges) (aSourceTV a) /\
  leastFree u2 (ClientRange ranges) (aClient a) /\
  leastFree u3 (SteamRange ranges) (aSteam a).

Definition exhaustedFrom (used : Z -> Prop) (ranges : PortsConfig) : Prop :=
  exhausted used (GameRange ranges) \/
  exists g, leastFree used (GameRange ranges) g /\
    let u1 := reserve used g in
    (exhausted u1 (SourceTVRange ranges) \/
     exists s, leastFree u1 (SourceTVRange ranges) s /\
       let u2 := reserve u1 s in
       (exhausted u2 (ClientRange ranges) \/
        exists c, leastFree u2 (ClientRange ranges) c /\
          exhausted (reserve u2 c) (SteamRange ranges))).

(** The ports of an assignment. *)
Definition portsOf (a : Assignment) : list Z :=
  [aGame a; aSourceTV a; aClient a; aSteam a].

(** A range [Validate] accepts. *)
Definition validRange (pr : PortRange) : Prop := 0 < Start pr <= End_ pr.

Definition validRanges (ranges : PortsConfig) : Prop :=
  validRange (GameRange ranges) /\ validRange (SourceTVRange ranges) /\
  validRange (ClientRange ranges) /\ validRange (SteamRange ranges).

End AllocatorSecretsSpec.

(** Text. *)
Module TextSpec.

Definition isDigit (ch : ascii) : bool :=
  let n := nat_of_ascii ch in ((48 <=? n) && (n <=? 57))%nat.

(** A decimal digit or the minus sign. *)
Definition isDecimal (ch : ascii) : bool := isDigit ch || Ascii.eqb ch "-".

(** A letter of the Latin alphabet or a decimal digit. *)
Definition isAlphanumeric (ch : ascii) : bool :=
  let n := nat_of_ascii ch in
  ((97 <=? n) && (n <=? 122) || (65 <=? n) && (n <=? 90) ||
   (48 <=? n) && (n <=? 57))%nat.

Fixpoint allOf (P : ascii -> bool) (s : string) : bool :=
  match s with
  | EmptyString => true
  | String ch rest => P ch && allOf P rest
  end.

End TextSpec.

(** The calls the controller makes, by kind. *)
Module Calls.
Import controller.

Inductive Kind :=
| KEnsure | KTeardown | KAllocate | KHelmApply | KHelmDelete | KSteam | KNotify.

Definition kind (e : Event) : Kind :=
  match e with
  | EvEnsureRound _ _ => KEnsure
  | EvTeardownRound _ _ => KTeardown
  | EvAllocate _ => KAllocate
  | EvHelmApply _ _ => KHelmApply
  | EvHelmDelete _ _ => KHelmDelete
  | EvSteamRequest _ => KSteam
  | EvNotifyTeams _ _ _ _ => KNotify
  end.

(** The recorded calls of the selected kinds, oldest first. *)
Definition callsOf (K : Kind -> bool) (w : World) : list Event :=
  List.filter (fun e => K (kind e)) (trace w).

Definition isEnsure (k : Kind) : bool :=
  match k with KEnsure => true | _ => false end.
Definition isTeardown (k : Kind) : bool :=
  match k with KTeardown => true | _ => false end.
Definition isHelmDelete (k : Kind) : bool :=
  match k with KHelmDelete => true | _ => false end.
Definition isNotify (k : Kind) : bool :=
  match k with KNotify => true | _ => false end.
Definition isAllocate (k : Kind) : bool :=
  match k with KAllocate => true | _ => false end.
Definition isSteam (k : Kind) : bool :=
  match k with KSteam => true | _ => false end.
Definition isHelmApply (k : Kind) : bool :=
  match k with KHelmApply => true | _ => false end.

(** A computation leaves an observation of the world as it was. *)
Definition preserves {X A} (f : World -> X) (m : M A) : Prop :=
  forall w, f (snd (m w)) = f w.

End Calls.

Module ReconcilerSpec.
Import controller.

(** The ports of a state are values of type [int]. *)
Definition portsInRange (a : ports.Assignment) : Prop :=
  GoInt.in_range (ports.aGame a) /\ GoInt.in_range (ports.aSourceTV a) /\
  GoInt.in_range (ports.aClient a) /\ GoInt.in_range (ports.aSteam a).

Definition notificationRow (message link : string) (userID : Z)
  : database.NotificationRow :=
  {| database.n_user_id := userID; database.n_read := false;
     database.n_message := message; database.n_link := link |}.

(** The driver fails the insertion of the notification for the user. *)
Definition refused (d : database.DB) (message link : string) (userID : Z) : Prop :=
  database.x_insert_notification d userID message link <> None.

(** The recipients a fan-out reaches: the ones before the first whose
    insertion the driver fails, and all of them when it fails none. *)
Definition reaches (d : database.DB) (message link : string)
    (recipients sent : list Z) : Prop :=
  exists rest : list Z,
    recipients = sent ++ rest /\
    (forall u, u ∈ sent -> ~ refused d message link u) /\
    (forall u, head rest = Some u -> refused d message link u).

(** The users a batch for the two rosters of a match reaches: those of
    the home roster, then those of the away roster, up to the first
    insertion that fails; none when a roster cannot be read. *)
Definition delivered (d : database.DB) (m : database.Match) (message link : string)
    (sent : list Z) : Prop :=
  match database.q_user_ids d (database.RosterHomeID m),
        database.q_user_ids d (database.RosterAwayID m) with
  | Ok homeUsers, Ok awayUsers => reaches d message link (homeUsers ++ awayUsers) sent
  | _, _ => sent = []
  end.

(** The error is the failure of the named step. *)
Definition failedAt (step : string) (e : error) : Prop :=
  exists cause, e = wrapError step cause.

(** The notification rows added between two worlds. *)
Definition enqueued (w w' : World) : list database.NotificationRow :=
  drop (length (database.user_notifications (db w)))
       (database.user_notifications (db w')).

Definition needsServer (m : database.Match) (r : database.MatchRound) : bool :=
  database.ManualNotDone m || negb (database.HasOutcome r).

(** The steps of [teardownRound] whose failure is returned, by the
    prefix put before the cause. *)
Definition teardownSteps : list string :=
  ["load state for teardown"; "delete helm release"; "delete match details";
   "delete secret"].

(** An address that some node of the cluster lists. *)
Definition listedAddress (cl : kube.Cluster) (a : kube.NodeAddress) : Prop :=
  exists node, node ∈ kube.nodes cl /\ a ∈ kube.Addresses node.

Definition blank `{GoRuntime} (candidate : string) : Prop :=
  TrimSpace candidate = EmptyString.

Section WithController.
Context `{GoRuntime}.
Variable c : Controller.

(** The prefer-fallback rule of the secret's map: the state's map, then
    the configured default, trimmed. *)
Definition normalizedMap (s : serverState) : string :=
  preferValue (Map s) [config.DefaultMap (config.Match (cfg c)); EmptyString].

(** External addresses are preferred. *)
Definition externalFirst : bool :=
  String.eqb (config.NodeIPPreference_ (config.Networking (cfg c)))
             config.NodeIPExternalFirst.

(** The map name the loop of [reconcileMatch] resolves for a round. *)
Definition resolvedMap (r : database.MatchRound) (w : World) : string :=
  match database.FetchMapName (db w) (database.MapID r) with
  | Ok name => name
  | Err _ => config.DefaultMap (config.Match (cfg c))
  end.
End WithController.

End ReconcilerSpec.

Module SteamSpec.

(** A response of the 2xx class. *)
Definition success2xx (resp : steam.Response) : Prop :=
  200 <= steam.StatusCode resp < 300.

Section WithJSON.
Context `{steam.JSON}.

(** The transport answers the request with status 200, without the
    error header and with a body that unwraps to [data]. *)
Definition answered {T : Type} (do : steam.Request -> T -> Result steam.Response * T)
    (req : steam.Request) (t : T) (data : string) : Prop :=
  exists resp body,
    fst (do req t) = Ok resp /\
    steam.XErrorMessage resp = EmptyString /\ steam.StatusCode resp = 200 /\
    steam.Body resp = Ok body /\ steam.unwrapResponse body = Ok data.

(** The body of the response cannot be read or unwrapped. *)
Definition bodyFails (resp : steam.Response) : bool :=
  match steam.Body resp with
  | Err _ => true
  | Ok body => is_Err (steam.unwrapResponse body)
  end.
End WithJSON.

End SteamSpec.

(** * Properties *)

(** ** Go's [int] *)

Lemma wrap_in_range z : GoInt.in_range z -> GoInt.wrap z = z.
Proof.
  unfold GoInt.in_range, GoInt.wrap, GoInt.min_int, GoInt.max_int.
  intros Hz. rewrite Z.mod_small; lia.
Qed.

Lemma in_rangeb_spec z : GoInt.in_rangeb z = true <-> GoInt.in_range z.
Proof.
  unfold GoInt.in_rangeb, GoInt.in_range.
  rewrite andb_true_iff, !Z.leb_le. tauto.
Qed.

(** ** The port allocator *)

Section Allocator.
Import config ports AllocatorSpec.

Lemma elem_of_markPorts prts : forall used x,
  x ∈ markPorts used prts <->
  x ∈ used \/ exists prt, prt ∈ prts /\ 0 < NodePort prt /\ x = NodePort prt.
Proof.
  induction prts as [|p prts IH]; intros used x; cbn [markPorts foldl].
  - split; [auto|]. intros [H|(prt & H & _)]; [done|]. by apply elem_of_nil in H.
  - fold (markPorts (if 0 <? NodePort p then {[NodePort p]} ∪ used else used) prts).
    rewrite IH. destruct (Z.ltb_spec 0 (NodePort p)) as [Hp|Hp].
    + rewrite elem_of_union, elem_of_singleton. split.
      * intros [[->|H]|(prt & H1 & H2 & H3)]; eauto.
        -- right. exists p. split; [left|]; auto.
        -- right. exists prt. split; [by right|]; auto.
      * intros [H|(prt & H1 & H2 & H3)]; [auto|].
        apply elem_of_cons in H1 as [->|H1]; [auto|].
        right. eauto.
    + split.
      * intros [H|(prt & H1 & H2 & H3)]; [auto|].
        right. exists prt. split; [by right|]; auto.
      * intros [H|(prt & H1 & H2 & H3)]; [auto|].
        apply elem_of_cons in H1 as [->|H1]; [lia|].
        right. eauto.
Qed.

Lemma elem_of_markServices items : forall used x,
  x ∈ markServices used items <-> x ∈ used \/ observed items x.
Proof.
  induction items as [|svc items IH]; intros used x; cbn [markServices foldl].
  - split; [auto|]. intros [H|(svc & prt & H & _)]; [done|].
    by apply elem_of_nil in H.
  - fold (markServices (markPorts used (svcPorts svc)) items).
    rewrite IH, elem_of_markPorts. unfold observed. split.
    + intros [[H|(prt & H1 & H2 & H3)]|(svc' & prt & H1 & H2)]; [auto| |].
      * right. exists svc, prt. split; [left|]; auto.
      * right. exists svc', prt. split; [by right|]; auto.
    + intros [H|(svc' & prt & H1 & H2 & H3)]; [auto|].
      apply elem_of_cons in H1 as [->|H1]; [eauto 6|].
      right. exists svc', prt. auto.
Qed.

Lemma observed_markServices items x :
  x ∈ markServices ∅ items <-> observed items x.
Proof.
  rewrite elem_of_markServices. split; [|auto].
  intros [H|H]; [|done]. by apply not_elem_of_empty in H.
Qed.

End Allocator.

Section AllocatorScan.
Import config ports AllocatorSpec.

Lemma scan_spec stop used : forall fuel port,
  GoInt.min_int <= port -> stop < GoInt.max_int ->
  (Z.to_nat (stop - port + 1) < fuel)%nat ->
  match scan fuel port stop used with
  | Found p =>
      port <= p <= stop /\ (p ∉ used) /\ (forall q, port <= q < p -> q ∈ used)
  | Exhausted => forall q, port <= q <= stop -> q ∈ used
  | Spinning => False
  end.
Proof.
  induction fuel as [|fuel IH]; intros port Hlo Hhi Hfuel; [lia|].
  cbn [scan]. destruct (decide (port <= stop)) as [Hle|Hgt].
  - destruct (decide (port ∈ used)) as [Hin|Hout].
    + assert (Hstep : GoInt.add port 1 = port + 1).
      { apply wrap_in_range. unfold GoInt.in_range. lia. }
      rewrite Hstep. specialize (IH (port + 1)).
      destruct (scan fuel (port + 1) stop used) as [p| |].
      * destruct IH as (Hp & Hfree & Hmin); [lia..|].
        split; [lia|]. split; [done|]. intros q Hq.
        destruct (decide (q = port)) as [->|Hne]; [done|]. apply Hmin. lia.
      * intros q Hq. destruct (decide (q = port)) as [->|Hne]; [done|].
        apply IH; lia.
      * apply IH; lia.
    + split; [lia|]. split; [done|]. intros q Hq. lia.
  - intros q Hq. lia.
Qed.

End AllocatorScan.

Section AllocatorProofs.
Import config ports AllocatorSpec.

Lemma nextFree_spec pr (used : gset Z) (U : Z -> Prop) :
  boundedRange pr -> (forall x, x ∈ used <-> U x) ->
  match nextFree pr used with
  | Ok (p, used') => leastFree U pr p /\ (forall x, x ∈ used' <-> reserve U p x)
  | Err _ => exhausted U pr
  end.
Proof.
  intros [Hlo Hhi] HU. unfold nextFree.
  pose proof (scan_spec (End_ pr) used (scanFuel pr used) (Start pr) Hlo Hhi) as H.
  assert (Hfuel : (Z.to_nat (End_ pr - Start pr + 1) < scanFuel pr used)%nat)
    by (unfold scanFuel; lia).
  specialize (H Hfuel).
  destruct (scan (scanFuel pr used) (Start pr) (End_ pr) used) as [p| |].
  - destruct H as (Hp & Hfree & Hmin). split.
    + split.
      * split; [exact Hp|]. by rewrite <- HU.
      * intros q [[Hq1 Hq2] Hq3].
        destruct (Z.le_gt_cases p q) as [|Hlt]; [done|].
        exfalso. apply Hq3, HU, Hmin. lia.
    + intros x. rewrite elem_of_union, elem_of_singleton, HU.
      unfold reserve. tauto.
  - intros q [Hq1 Hq2]. apply Hq2, HU, H. exact Hq1.
  - destruct H.
Qed.

Lemma leastFree_unique U pr p q : leastFree U pr p -> leastFree U pr q -> p = q.
Proof.
  intros [Hp Hpm] [Hq Hqm]. specialize (Hpm q Hq). specialize (Hqm p Hp). lia.
Qed.

Lemma leastFree_not_exhausted U pr p : leastFree U pr p -> ~ exhausted U pr.
Proof. intros [Hp _] Hex. exact (Hex p Hp). Qed.

(** [Allocate] either returns the four least free ports or fails on an
    exhausted range. *)
Lemma Allocate_cases ranges items :
  boundedRanges ranges ->
  (exists a, Allocate ranges items = Ok a /\ allocationOf ranges items a) \/
  (exists e, Allocate ranges items = Err e /\ someRangeExhausted ranges items).
Proof.
  intros (Hg & Hs & Hc & Ht). unfold Allocate, allocationOf, someRangeExhausted.
  pose proof (nextFree_spec (GameRange ranges) (markServices ∅ items)
                (observed items) Hg (observed_markServices items)) as H0.
  destruct (nextFree (GameRange ranges) (markServices ∅ items))
    as [[g u1]|e]; [|right; eauto].
  destruct H0 as [Hgl Hu1].
  pose proof (nextFree_spec (SourceTVRange ranges) u1 _ Hs Hu1) as H1.
  destruct (nextFree (SourceTVRange ranges) u1) as [[s u2]|e]; [|right; eauto 8].
  destruct H1 as [Hsl Hu2].
  pose proof (nextFree_spec (ClientRange ranges) u2 _ Hc Hu2) as H2.
  destruct (nextFree (ClientRange ranges) u2) as [[c u3]|e]; [|right; eauto 12].
  destruct H2 as [Hcl Hu3].
  pose proof (nextFree_spec (SteamRange ranges) u3 _ Ht Hu3) as H3.
  destruct (nextFree (SteamRange ranges) u3) as [[t u4]|e].
  - left. eexists. split; [reflexivity|]. cbn. destruct H3 as [Htl _]. auto.
  - right. exists e. split; [reflexivity|]. right. exists g. split; [done|].
    right. exists s. split; [done|]. right. exists c. split; done.
Qed.

Lemma allocationOf_not_exhausted ranges items a :
  allocationOf ranges items a -> ~ someRangeExhausted ranges items.
Proof.
  intros (Hg & Hs & Hc & Ht) [Hex|(g & Hg' & Hrest)].
  - exact (leastFree_not_exhausted _ _ _ Hg Hex).
  - rewrite <- (leastFree_unique _ _ _ _ Hg Hg') in Hrest. cbn in Hrest.
    destruct Hrest as [Hex|(s & Hs' & Hrest)].
    + exact (leastFree_not_exhausted _ _ _ Hs Hex).
    + rewrite <- (leastFree_unique _ _ _ _ Hs Hs') in Hrest. cbn in Hrest.
      destruct Hrest as [Hex|(c & Hc' & Hex)].
      * exact (leastFree_not_exhausted _ _ _ Hc Hex).
      * rewrite <- (leastFree_unique _ _ _ _ Hc Hc') in Hex.
        exact (leastFree_not_exhausted _ _ _ Ht Hex).
Qed.

Lemma allocationOf_distinct ranges items a :
  allocationOf ranges items a ->
  pairwiseDistinct a /\ insideRanges ranges a /\ noneObserved items a.
Proof.
  unfold allocationOf, pairwiseDistinct, insideRanges, noneObserved, leastFree,
    free, reserve.
  intros ([[Hg1 Hg2] _] & [[Hs1 Hs2] _] & [[Hc1 Hc2] _] & [[Ht1 Ht2] _]).
  unfold inRange in *.
  repeat split; try tauto; try lia; intros Heq; intuition congruence.
Qed.

End AllocatorProofs.

(** ** strconv *)

Section Strconv.
Import strconv.

Lemma string_of_uint_digits d :
  d <> Nil ->
  exists ch rest,
    NilEmpty.string_of_uint d = String ch rest /\
    Ascii.eqb ch "-" = false /\ Ascii.eqb ch "+" = false.
Proof.
  intros Hd. destruct d; [done|..]; cbn [NilEmpty.string_of_uint]; eauto.
Qed.

Lemma Atoi_digits_pos d :
  d <> Nil -> GoInt.in_range (Z.of_uint d) ->
  Atoi (NilEmpty.string_of_uint d) = Ok (Z.of_uint d).
Proof.
  intros Hd Hr. destruct (string_of_uint_digits d Hd) as (ch & rest & Hs & Hm & Hp).
  unfold Atoi. rewrite Hs, Hm, Hp. cbn [orb]. rewrite <- Hs, NilEmpty.usu.
  apply in_rangeb_spec in Hr. by rewrite Hr.
Qed.

Lemma Atoi_digits_neg d :
  d <> Nil -> GoInt.in_range (- Z.of_uint d) ->
  Atoi (String "-" (NilEmpty.string_of_uint d)) = Ok (- Z.of_uint d).
Proof.
  intros Hd Hr. destruct (string_of_uint_digits d Hd) as (ch & rest & Hs & _).
  unfold Atoi. cbn [Ascii.eqb Bool.eqb orb]. rewrite Hs, <- Hs, NilEmpty.usu.
  apply in_rangeb_spec in Hr. by rewrite Hr.
Qed.

(** Every [int] is read back from its decimal text. *)
Lemma Atoi_Itoa z : GoInt.in_range z -> Atoi (Itoa z) = Ok z.
Proof.
  intros Hz. unfold Itoa. destruct z as [|p|p].
  - reflexivity.
  - pose proof (DecimalZ.of_to (Z.pos p)) as Hof. cbn in Hof.
    cbn [Z.to_int NilZero.string_of_int NilZero.string_of_uint].
    pose proof (Unsigned.to_uint_nonnil p) as Hn.
    replace (NilZero.string_of_uint (Pos.to_uint p))
      with (NilEmpty.string_of_uint (Pos.to_uint p))
      by (unfold NilZero.string_of_uint; by destruct (Pos.to_uint p)).
    rewrite Atoi_digits_pos; [by rewrite Hof|done|by rewrite Hof].
  - pose proof (DecimalZ.of_to (Z.neg p)) as Hof. cbn in Hof.
    cbn [Z.to_int NilZero.string_of_int].
    pose proof (Unsigned.to_uint_nonnil p) as Hn.
    replace (NilZero.string_of_uint (Pos.to_uint p))
      with (NilEmpty.string_of_uint (Pos.to_uint p))
      by (unfold NilZero.string_of_uint; by destruct (Pos.to_uint p)).
    rewrite Atoi_digits_neg; [by rewrite Hof|done|by rewrite Hof].
Qed.

Lemma Itoa_nonempty z : Itoa z <> EmptyString.
Proof.
  unfold Itoa. destruct z as [|p|p]; [done| |done].
  cbn [Z.to_int NilZero.string_of_int].
  pose proof (Unsigned.to_uint_nonnil p) as Hn.
  unfold NilZero.string_of_uint. by destruct (Pos.to_uint p).
Qed.

End Strconv.

Section AllocatorClaims.
Import config ports AllocatorSpec.

(** For ranges that end below the largest [int], [Allocate] returns
    four pairwise distinct ports, each inside its configured range and
    none among the positive node-ports of the observed services; each is
    the smallest free port of its range, chosen in the order game,
    SourceTV, client, steam with every pick reserved before the next;
    and it returns an error exactly when, after reserving the earlier
    picks, some category's range has no free port. *)
Theorem Allocate_least_free_ports ranges items :
  boundedRanges ranges ->
  (forall a, Allocate ranges items = Ok a ->
     pairwiseDistinct a /\ insideRanges ranges a /\ noneObserved items a /\
     allocationOf ranges items a) /\
  (is_Err (Allocate ranges items) = true <-> someRangeExhausted ranges items).
Proof.
  intros Hb. destruct (Allocate_cases ranges items Hb)
    as [(a & Ha & Hspec)|(e & He & Hex)].
  - split.
    + intros a' Ha'. rewrite Ha in Ha'. injection Ha' as <-.
      pose proof (allocationOf_distinct _ _ _ Hspec) as (Hd & Hi & Ho). auto.
    + rewrite Ha. cbn. split; [done|].
      intros Hex. by apply (allocationOf_not_exhausted _ _ _ Hspec) in Hex.
  - split.
    + intros a Ha. by rewrite He in Ha.
    + by rewrite He.
Qed.

Lemma Allocate_least_free_ports_witness :
  boundedRanges example.portRanges /\
  pairwiseDistinct
    {| aGame := 30000; aSourceTV := 30300; aClient := 40000; aSteam := 29000 |} /\
  is_Err (Allocate example.portRanges []) = false.
Proof.
  assert (Hb : boundedRanges example.portRanges) by (vm_compute; intuition discriminate).
  split; [exact Hb|].
  destruct (Allocate_least_free_ports example.portRanges [] Hb) as [Hok _].
  split; [|reflexivity].
  apply (Hok {| aGame := 30000; aSourceTV := 30300; aClient := 40000; aSteam := 29000 |}).
  reflexivity.
Defined.

(** C1, at the input where the code departs from it.  The environment
    [topOfInt] sets the game and the SourceTV range both to the single
    port at the largest [int]; [loadPortConfig] accepts it.  Once the
    game port is reserved the SourceTV range has no free port, so an
    error is due; the loop counter of [nextFree] wraps instead, and
    [Allocate] returns without an error, with the smallest [int], a port
    outside the range, as the SourceTV port. *)
Theorem Allocate_wraps_at_max_int :
  let top := example.range GoInt.max_int GoInt.max_int in
  let ranges :=
    {| GameRange := top; SourceTVRange := top;
       ClientRange := example.range 40000 40299;
       SteamRange := example.range 29000 29299 |} in
  @loadPortConfig ascii_runtime.runtime ascii_runtime.quote example.topOfInt =
    Ok ranges /\
  Allocate ranges [] =
    Ok {| aGame := GoInt.max_int; aSourceTV := GoInt.min_int;
          aClient := 40000; aSteam := 29000 |} /\
  ~ inRange (SourceTVRange ranges) GoInt.min_int /\
  someRangeExhausted ranges [].
Proof.
  cbn zeta. split; [by vm_compute|]. split; [by vm_compute|]. split.
  - unfold inRange. cbn. unfold GoInt.min_int, GoInt.max_int. lia.
  - right. exists GoInt.max_int. split.
    + split.
      * split; [unfold inRange; cbn; lia|].
        intros (svc & prt & Hin & _). by apply elem_of_nil in Hin.
      * intros q [[Hq _] _]. cbn in Hq. lia.
    + cbn zeta. left. intros q [[Hlo Hhi] Hfree]. cbn in Hlo, Hhi.
      apply Hfree. right. lia.
Qed.

End AllocatorClaims.

(** ** The state secret *)

Section SecretStore.
Import controller ReconcilerSpec.
Context `{GoRuntime}.
Variable c : Controller.

Lemma parseKey_desired m r s v :
  let secret := kube.withVersion v (desiredSecret c m r s) in
  parseKey secret secretKeyPassword = Password s /\
  parseKey secret secretKeyRCON = RCON s /\
  parseKey secret secretKeyMap = normalizedMap c s /\
  parseKey secret secretKeyToken = Token s /\
  parseKey secret secretKeyGamePort = strconv.Itoa (ports.aGame (Ports s)) /\
  parseKey secret secretKeySourcePort = strconv.Itoa (ports.aSourceTV (Ports s)) /\
  parseKey secret secretKeyClientPort = strconv.Itoa (ports.aClient (Ports s)) /\
  parseKey secret secretKeySteamPort = strconv.Itoa (ports.aSteam (Ports s)).
Proof.
  unfold parseKey, desiredSecret, kube.withVersion, normalizedMap. cbn [kube.Data].
  repeat split; by simplify_map_eq.
Qed.

Lemma toInt_desired m r s v key z :
  parseKey (kube.withVersion v (desiredSecret c m r s)) key = strconv.Itoa z ->
  GoInt.in_range z ->
  toInt (kube.withVersion v (desiredSecret c m r s)) key = Ok z.
Proof.
  intros Hk Hz. unfold toInt. rewrite Hk.
  destruct (String.eqb_spec (strconv.Itoa z) EmptyString) as [He|_].
  - by apply Itoa_nonempty in He.
  - by apply Atoi_Itoa.
Qed.

Lemma decodeState_desired m r s v :
  portsInRange (Ports s) ->
  decodeState (ReleaseName s) (kube.withVersion v (desiredSecret c m r s))
  = Ok (withMap (normalizedMap c s) s).
Proof.
  intros (Hg & Hs & Hc & Ht).
  destruct (parseKey_desired m r s v) as (Kp & Kr & Km & Kt & Kg & Ks & Kc & Kst).
  unfold decodeState.
  rewrite (toInt_desired _ _ _ _ _ _ Kg Hg), (toInt_desired _ _ _ _ _ _ Ks Hs),
    (toInt_desired _ _ _ _ _ _ Kc Hc), (toInt_desired _ _ _ _ _ _ Kst Ht).
  rewrite Kp, Kr, Km, Kt. unfold withMap. by destruct s as [? [] ? ? ? ?].
Qed.

(** [persistStateSecret] succeeds and leaves the desired secret, with
    some resource version, under the secret's name. *)
Lemma persistStateSecret_stores m r s w :
  exists v,
    persistStateSecret c m r s w =
    (Ok tt,
     set_cluster
       (kube.set_secrets
          (<[secretName (ReleaseName s) := kube.withVersion v (desiredSecret c m r s)]>
             (kube.secrets (cluster w))) (cluster w)) w).
Proof.
  unfold persistStateSecret, onCluster, kube.Get.
  change (kube.Name (desiredSecret c m r s)) with (secretName (ReleaseName s)).
  destruct (kube.secrets (cluster w) !! secretName (ReleaseName s))
    as [existing|] eqn:Hl.
  - unfold kube.Update.
    change (kube.Name (kube.withVersion _ (desiredSecret c m r s)))
      with (secretName (ReleaseName s)).
    rewrite Hl. cbn [kube.ResourceVersion kube.withVersion]. rewrite Nat.eqb_refl.
    exists (S (kube.ResourceVersion existing)). reflexivity.
  - cbn [kube.IsNotFound]. unfold kube.Create.
    change (kube.Name (desiredSecret c m r s)) with (secretName (ReleaseName s)).
    rewrite Hl. exists 1%nat. reflexivity.
Qed.

(** C3: persisting a state and loading it back by its release name
    succeeds and returns the release name, the four ports, the password,
    the RCON key and the token unchanged, and the map normalized by the
    prefer-fallback rule. *)
Theorem persist_then_load m r s w :
  portsInRange (Ports s) ->
  exists w' loaded,
    persistStateSecret c m r s w = (Ok tt, w') /\
    loadServerState (ReleaseName s) w' = (Ok (Some loaded), w') /\
    ReleaseName loaded = ReleaseName s /\
    Ports loaded = Ports s /\
    Password loaded = Password s /\
    RCON loaded = RCON s /\
    Token loaded = Token s /\
    Map loaded =
      preferValue (Map s) [config.DefaultMap (config.Match (cfg c)); EmptyString].
Proof.
  intros Hp. destruct (persistStateSecret_stores m r s w) as [v Hv].
  eexists _, (withMap (normalizedMap c s) s). split; [exact Hv|].
  split; [|done].
  unfold loadServerState, readCluster, kube.Get.
  cbn [cluster set_cluster kube.secrets kube.set_secrets].
  rewrite lookup_insert_eq. by rewrite decodeState_desired.
Qed.

(** [getEnv] with a fallback that is not blank gives a value that is
    not blank, [strings.TrimSpace] being idempotent; [config.Load] sets
    the default map to such a value. *)
Lemma getEnv_not_blank env key fallback :
  (forall s, TrimSpace (TrimSpace s) = TrimSpace s) ->
  ~ blank fallback ->
  ~ blank (config.getEnv env key fallback).
Proof.
  intros Hidem Hfallback. unfold config.getEnv, blank.
  destruct (String.eqb_spec (TrimSpace (config.Getenv env key)) EmptyString)
    as [|Hvalue]; [done|].
  by rewrite Hidem.
Qed.


End SecretStore.

Section SecretStoreExamples.
Import controller ReconcilerSpec example ascii_runtime.

Lemma persist_then_load_witness :
  portsInRange (Ports stored) /\
  exists w' loaded,
    persistStateSecret ctl match42 round7 stored (world [node] []) = (Ok tt, w') /\
    loadServerState (ReleaseName stored) w' = (Ok (Some loaded), w') /\
    ReleaseName loaded = ReleaseName stored /\
    Ports loaded = Ports stored /\
    Password loaded = Password stored /\
    RCON loaded = RCON stored /\
    Token loaded = Token stored /\
    Map loaded =
      preferValue (Map stored)
        [config.DefaultMap (config.Match (cfg ctl)); EmptyString].
Proof.
  assert (Hp : portsInRange (Ports stored)) by (vm_compute; intuition discriminate).
  split; [exact Hp|].
  exact (persist_then_load ctl match42 round7 stored (world [node] []) Hp).
Defined.


End SecretStoreExamples.

(** ** The identity-registry client *)

Section SteamClient.
Import steam SteamSpec.
Context `{JSON} {T : Type}.
Variable do : Request -> T -> Result Response * T.

Lemma checkResponse_cases resp :
  checkResponse resp =
  if negb (String.eqb (XErrorMessage resp) EmptyString)
  then Err (errorString (XErrorMessage resp))
  else if negb (StatusCode resp =? 200)
  then Err (errorString ("steam API request failed with status " +:+
                          strconv.Itoa (StatusCode resp)))
  else match Body resp with
       | Err e => Err e
       | Ok body => unwrapResponse body
       end.
Proof. reflexivity. Qed.

(** C4, as the code has it: for a response received by [querySteam]
    (under [CreateAccount], [GetAccountList] and [DeleteAccount] alike)
    the call returns an error if and only if the response carries a
    non-empty X-error_message header, or a status other than 200, or a
    body that cannot be read or unwrapped; the error is the header text
    when the header is present, otherwise the status-code message when
    the status is not 200. *)
Theorem querySteam_error_conditions client command method params t resp t' :
  do (newRequest client command method params) t = (Ok resp, t') ->
  let result := fst (querySteam do client command method params t) in
  (is_Err result = true <->
     XErrorMessage resp <> EmptyString \/ StatusCode resp <> 200 \/
     bodyFails resp = true) /\
  (XErrorMessage resp <> EmptyString ->
     result = Err (errorString (XErrorMessage resp))) /\
  (XErrorMessage resp = EmptyString -> StatusCode resp <> 200 ->
     result = Err (errorString ("steam API request failed with status " +:+
                                strconv.Itoa (StatusCode resp)))).
Proof.
  intros Hdo. cbn zeta. unfold querySteam. rewrite Hdo. cbn [fst].
  rewrite checkResponse_cases. unfold bodyFails.
  destruct (String.eqb_spec (XErrorMessage resp) EmptyString) as [Hh|Hh];
    cbn [negb].
  - destruct (Z.eqb_spec (StatusCode resp) 200) as [Hs|Hs]; cbn [negb].
    + repeat split; try done.
      * intros Hb. right. right. by destruct (Body resp).
      * intros [?|[?|Hb]]; [done..|]. by destruct (Body resp).
    + repeat split; try done. intros _. by right; left.
  - repeat split; try done. intros _. by left.
Qed.

(** The three operations return the error of [querySteam]. *)
Lemma operations_return_query_error client t e :
  (forall appID memo,
     fst (querySteam do client "CreateAccount" "POST"
            [("appid", strconv.Itoa appID); ("memo", memo)] t) = Err e ->
     fst (CreateAccount do client appID memo t) = Err e) /\
  (fst (querySteam do client "GetAccountList" "GET" [] t) = Err e ->
   fst (GetAccountList do client t) = Err e) /\
  (forall steamID,
     fst (querySteam do client "DeleteAccount" "POST" [("steamid", steamID)] t) = Err e ->
     fst (DeleteAccount do client steamID t) = Err e).
Proof.
  unfold CreateAccount, GetAccountList, DeleteAccount. repeat split.
  - intros appID memo. by destruct (querySteam _ _ _ _ _ _) as [[?|?] ?]; intros [= ->].
  - by destruct (querySteam _ _ _ _ _ _) as [[?|?] ?]; intros [= ->].
  - intros steamID. by destruct (querySteam _ _ _ _ _ _) as [[?|?] ?]; intros [= ->].
Qed.

End SteamClient.

Section SteamClientExamples.
Import steam SteamSpec ascii_runtime example.

Lemma querySteam_error_conditions_witness :
  fst (querySteam refusing (NewSteamClient "key") "DeleteAccount" "POST"
         [("steamid", "1")] tt) = Err (errorString "Access is denied").
Proof.
  refine (proj1 (proj2 (querySteam_error_conditions refusing (NewSteamClient "key")
                          "DeleteAccount" "POST" [("steamid", "1")] tt _ tt eq_refl)) _).
  discriminate.
Defined.

(** A response of the 2xx class without the header is an error of the
    call when its status is not 200. *)
Lemma status_204_is_rejected :
  let resp := {| StatusCode := 204; XErrorMessage := EmptyString;
                 Body := Ok EmptyString |} in
  XErrorMessage resp = EmptyString /\ success2xx resp /\
  fst (querySteam noContent (NewSteamClient "key") "DeleteAccount" "POST"
         [("steamid", "1")] tt) =
    Err (errorString "steam API request failed with status 204") /\
  fst (DeleteAccount noContent (NewSteamClient "key") "1" tt) =
    Err (errorString "steam API request failed with status 204").
Proof.
  cbn zeta. split; [reflexivity|]. split; [unfold success2xx; cbn; lia|].
  split; reflexivity.
Qed.

End SteamClientExamples.

(** ** The connection details *)

Section Details.
Context `{GoRuntime}.

(** C9: [FetchMatchDetails] returns absence without an error when the
    table has no row for the pair, and an error when the row found has
    a port or sourcetvport text that [Atoi] rejects after trimming. *)
Theorem FetchMatchDetails_absent_or_malformed d matchID roundID :
  ((forall row, row ∈ database.matches_server_details d ->
      ~ (database.row_match_id row = matchID /\ database.row_round_id row = roundID)) ->
   database.FetchMatchDetails d matchID roundID = Ok None) /\
  (forall row,
     List.find (database.rowFor matchID roundID) (database.matches_server_details d)
       = Some row ->
     is_Err (strconv.Atoi (TrimSpace (database.row_port row))) = true \/
     is_Err (strconv.Atoi (TrimSpace (database.row_sourcetvport row))) = true ->
     is_Err (database.FetchMatchDetails d matchID roundID) = true).
Proof.
  split.
  - intros Hnone. unfold database.FetchMatchDetails.
    destruct (List.find _ _) as [row|] eqn:Hfind; [|done].
    apply List.find_some in Hfind as [Hin Hrow]. exfalso.
    apply (Hnone row); [by apply list_elem_of_In|].
    unfold database.rowFor in Hrow. apply andb_true_iff in Hrow as [H1 H2].
    by apply Z.eqb_eq in H1, H2.
  - intros row Hfind Hbad. unfold database.FetchMatchDetails. rewrite Hfind.
    destruct (strconv.Atoi (TrimSpace (database.row_port row))); [|done].
    destruct (strconv.Atoi (TrimSpace (database.row_sourcetvport row))); [|done].
    by destruct Hbad.
Qed.

End Details.

Section DetailsExamples.
Import example ascii_runtime.

Lemma FetchMatchDetails_absent_or_malformed_witness :
  database.FetchMatchDetails (rows []) 42 7 = Ok None /\
  is_Err (database.FetchMatchDetails (rows [malformed]) 42 7) = true.
Proof.
  split.
  - apply (proj1 (FetchMatchDetails_absent_or_malformed (rows []) 42 7)).
    intros row Hrow. by apply elem_of_nil in Hrow.
  - apply (proj2 (FetchMatchDetails_absent_or_malformed (rows [malformed]) 42 7)
             malformed eq_refl).
    left. reflexivity.
Defined.

End DetailsExamples.

(** ** Computations on the world *)

Section Monad.
Import controller Calls.
Context {X : Type} (f : World -> X).

Lemma bind_inv {A B} (m : M A) (k : A -> M B) w r w' :
  bind m k w = (r, w') ->
  (exists a w1, m w = (Ok a, w1) /\ k a w1 = (r, w')) \/
  (exists e, m w = (Err e, w') /\ r = Err e).
Proof.
  unfold bind. destruct (m w) as [[a|e] w1]; intros Hk.
  - left. eauto.
  - right. exists e. by inversion Hk.
Qed.

Lemma wrap_inv {A} prefix (m : M A) w r w' :
  wrap prefix m w = (r, w') ->
  match r with
  | Ok a => m w = (Ok a, w')
  | Err e => exists cause, m w = (Err cause, w') /\ e = wrapError prefix cause
  end.
Proof.
  unfold wrap. destruct (m w) as [[a|cause] w1]; cbn; intros [= <- <-]; eauto.
Qed.

Lemma bind_emit {B} e (k : unit -> M B) w :
  bind (emit e) k w = k tt (set_trace (trace w ++ [e]) w).
Proof. reflexivity. Qed.

Lemma preserves_ret {A} (a : A) : preserves f (ret a).
Proof. by intros w. Qed.

Lemma preserves_lift {A} (r : Result A) : preserves f (lift r).
Proof. by intros w. Qed.

Lemma preserves_bind {A B} (m : M A) (k : A -> M B) :
  preserves f m -> (forall a, preserves f (k a)) -> preserves f (bind m k).
Proof.
  intros Hm Hk w. unfold bind. specialize (Hm w).
  destruct (m w) as [[a|e] w1]; cbn in *; [|done].
  by rewrite Hk.
Qed.

Lemma preserves_wrap {A} prefix (m : M A) :
  preserves f m -> preserves f (wrap prefix m).
Proof. intros Hm w. unfold wrap. specialize (Hm w). by destruct (m w). Qed.

Lemma preserves_try {A} (m : M A) : preserves f m -> preserves f (try m).
Proof. intros Hm w. unfold try. specialize (Hm w). by destruct (m w). Qed.

Lemma preserves_readCluster {A} (g : kube.Cluster -> Result A) :
  preserves f (readCluster g).
Proof. by intros w. Qed.

Lemma preserves_readDB {A} (g : database.DB -> Result A) : preserves f (readDB g).
Proof. by intros w. Qed.

Lemma preserves_emit e :
  (forall w, f (set_trace (trace w ++ [e]) w) = f w) -> preserves f (emit e).
Proof. intros Hf w. apply Hf. Qed.

Lemma preserves_onCluster {A} (g : kube.Cluster -> Result A * kube.Cluster) :
  (forall cl w, f (set_cluster cl w) = f w) -> preserves f (onCluster g).
Proof. intros Hf w. unfold onCluster. destruct (g (cluster w)). apply Hf. Qed.

Lemma preserves_onDB {A} (g : database.DB -> Result A * database.DB) :
  (forall d w, f (set_db d w) = f w) -> preserves f (onDB g).
Proof. intros Hf w. unfold onDB. destruct (g (db w)). apply Hf. Qed.

End Monad.

Section CallsOf.
Import controller Calls.

Lemma callsOf_event K e w :
  K (kind e) = false -> callsOf K (set_trace (trace w ++ [e]) w) = callsOf K w.
Proof.
  intros HK. unfold callsOf. cbn. rewrite List.filter_app. cbn. rewrite HK.
  apply app_nil_r.
Qed.

Lemma callsOf_frame K e w :
  negb (K (kind e)) = true ->
  callsOf K (set_trace (trace w ++ [e]) w) = callsOf K w.
Proof. intros He. apply callsOf_event. by destruct (K (kind e)). Qed.

End CallsOf.

(** An observation [f] of the world that no step changes but the ones
    named in the hypotheses is kept by every procedure built from them. *)
Section Frame.
Import controller Calls.
Context `{GoRuntime} `{steam.JSON}.
Context {X : Type} (f : World -> X) (ignored : Kind -> bool).
Hypothesis Hcluster : forall cl w, f (set_cluster cl w) = f w.
Hypothesis Hdraws : forall n w, f (set_draws n w) = f w.
Hypothesis Hevent :
  forall e w, ignored (kind e) = true -> f (set_trace (trace w ++ [e]) w) = f w.
Variable c : Controller.

Lemma frame_emit e : ignored (kind e) = true -> preserves f (emit e).
Proof. intros He. apply preserves_emit. intros w. by apply Hevent. Qed.

Lemma frame_randInt n : preserves f (randInt n).
Proof. intros w. unfold randInt. cbn. apply Hdraws. Qed.

Lemma frame_generateSecret n : preserves f (generateSecret n).
Proof.
  unfold generateSecret. induction (Z.to_nat n) as [|k IH]; cbn [drawBytes].
  - apply preserves_ret.
  - apply preserves_bind; [apply frame_randInt|intros idx].
    apply preserves_bind; [exact IH|intros rest]. apply preserves_ret.
Qed.

Lemma frame_querySteam client command method params :
  ignored KSteam = true ->
  preserves f (steam.querySteam steamDo client command method params).
Proof.
  intros Hs w. unfold steam.querySteam, steamDo. cbn.
  destruct (steamAPI w _); by apply Hevent.
Qed.

Lemma frame_CreateAccount client appID memo :
  ignored KSteam = true ->
  preserves f (steam.CreateAccount steamDo client appID memo).
Proof.
  intros Hs w. unfold steam.CreateAccount.
  pose proof (frame_querySteam client "CreateAccount" "POST"
                [("appid", strconv.Itoa appID); ("memo", memo)] Hs w) as Hq.
  by destruct (steam.querySteam _ _ _ _ _ w) as [[?|?] ?].
Qed.

Lemma frame_GetAccountList client :
  ignored KSteam = true -> preserves f (steam.GetAccountList steamDo client).
Proof.
  intros Hs w. unfold steam.GetAccountList.
  pose proof (frame_querySteam client "GetAccountList" "GET" [] Hs w) as Hq.
  by destruct (steam.querySteam _ _ _ _ _ w) as [[?|?] ?].
Qed.

Lemma frame_DeleteAccount client steamID :
  ignored KSteam = true -> preserves f (steam.DeleteAccount steamDo client steamID).
Proof.
  intros Hs w. unfold steam.DeleteAccount.
  pose proof (frame_querySteam client "DeleteAccount" "POST"
                [("steamid", steamID)] Hs w) as Hq.
  by destruct (steam.querySteam _ _ _ _ _ w) as [[?|?] ?].
Qed.

Lemma frame_generateSRCDSToken m r :
  ignored KSteam = true -> preserves f (generateSRCDSToken c m r).
Proof.
  intros Hs. unfold generateSRCDSToken.
  destruct (steamClient c); [|apply preserves_ret].
  destruct (negb _); [apply preserves_ret|].
  apply preserves_bind; [|intros; apply preserves_ret].
  by apply preserves_wrap, frame_CreateAccount.
Qed.

Lemma frame_cleanupSRCDSToken m r :
  ignored KSteam = true -> preserves f (cleanupSRCDSToken c m r).
Proof.
  intros Hs. unfold cleanupSRCDSToken.
  destruct (steamClient c) as [client|]; [|apply preserves_ret].
  destruct (negb _); [apply preserves_ret|].
  apply preserves_bind; [by apply preserves_wrap, frame_GetAccountList|].
  intros accounts. induction accounts as [|a accounts IH]; cbn [deleteMatching].
  - apply preserves_ret.
  - apply preserves_bind; [|intros; exact IH].
    destruct (_ && _); [|apply preserves_ret].
    apply preserves_bind; [|intros; apply preserves_ret].
    by apply preserves_try, frame_DeleteAccount.
Qed.

Lemma frame_allocate : ignored KAllocate = true -> preserves f (allocate c).
Proof. intros Ha w. unfold allocate. cbn. by apply Hevent. Qed.

Lemma frame_loadServerState rel : preserves f (loadServerState rel).
Proof. apply preserves_readCluster. Qed.

Lemma frame_persistStateSecret m r state :
  preserves f (persistStateSecret c m r state).
Proof. by apply preserves_onCluster. Qed.

Lemma frame_deleteStateSecret rel : preserves f (deleteStateSecret rel).
Proof. by apply preserves_onCluster. Qed.

Lemma frame_pickNodeIP : preserves f (pickNodeIP c).
Proof. apply preserves_readCluster. Qed.

Lemma frame_applyHelmRelease rel values :
  ignored KHelmApply = true -> preserves f (applyHelmRelease c rel values).
Proof.
  intros Ha. unfold applyHelmRelease. destruct (renderer c); [|apply preserves_lift].
  apply preserves_bind; [by apply frame_emit|intros _]. by apply preserves_onCluster.
Qed.

Lemma frame_deleteHelmRelease rel values :
  ignored KHelmDelete = true -> preserves f (deleteHelmRelease c rel values).
Proof.
  intros Ha. unfold deleteHelmRelease. destruct (renderer c); [|apply preserves_lift].
  apply preserves_bind; [by apply frame_emit|intros _]. by apply preserves_onCluster.
Qed.

Lemma frame_ensureState m r mapName rel :
  ignored KAllocate = true -> ignored KSteam = true ->
  preserves f (ensureState c m r mapName rel).
Proof.
  intros Ha Hs. unfold ensureState.
  apply preserves_bind; [apply preserves_wrap, frame_loadServerState|].
  intros [state|].
  - apply preserves_bind; [|intros; apply preserves_ret].
    unfold refreshState. destruct (String.eqb _ _); [|apply preserves_ret].
    apply preserves_bind; [|intros; apply preserves_ret].
    by apply preserves_try, frame_generateSRCDSToken.
  - apply preserves_bind; [|intros; apply preserves_ret].
    unfold createState.
    apply preserves_bind; [by apply preserves_wrap, frame_allocate|intros assign].
    apply preserves_bind; [apply preserves_wrap, frame_generateSecret|intros pw].
    apply preserves_bind; [apply preserves_wrap, frame_generateSecret|intros rcon].
    apply preserves_bind; [|intros; apply preserves_ret].
    by apply preserves_try, frame_generateSRCDSToken.
Qed.

Hypothesis Hupsert :
  forall d, preserves f (onDB (database.UpsertMatchDetails d)).

Lemma frame_publishServer m r div league home away mapName rel state :
  ignored KHelmApply = true ->
  preserves f (publishServer c m r div league home away mapName rel state).
Proof.
  intros Ha. unfold publishServer.
  apply preserves_bind; [apply preserves_wrap, frame_persistStateSecret|intros _].
  apply preserves_bind; [by apply preserves_wrap, frame_applyHelmRelease|intros _].
  apply preserves_bind; [apply preserves_wrap, frame_pickNodeIP|intros nodeIP].
  apply preserves_bind; [apply preserves_wrap, Hupsert|intros _].
  apply preserves_ret.
Qed.

Hypothesis Hdelete :
  forall m r, preserves f (onDB (database.DeleteMatchDetails m r)).

Lemma frame_teardownRound m r div league home away mapName rel details w :
  ignored KHelmDelete = true -> ignored KSteam = true ->
  f (snd (teardownRound c m r div league home away mapName rel details w)) =
  f (set_trace (trace w ++ [EvTeardownRound (database.mID m) (database.rID r)]) w).
Proof.
  intros Hh Hs. unfold teardownRound. rewrite bind_emit.
  set (w0 := set_trace _ w).
  refine (preserves_bind f _ _ _ _ w0);
    [apply preserves_wrap, frame_loadServerState|intros loaded].
  apply preserves_bind; [by apply preserves_wrap, frame_deleteHelmRelease|intros _].
  apply preserves_bind; [apply preserves_wrap, Hdelete|intros _].
  apply preserves_bind; [apply preserves_wrap, frame_deleteStateSecret|intros _].
  apply preserves_bind; [|intros; apply preserves_ret].
  by apply preserves_try, frame_cleanupSRCDSToken.
Qed.

Hypothesis Hsend :
  forall home away message link,
    preserves f (onDB (database.SendNotificationsToTeams home away message link)).

Lemma frame_notifyTeams m r nodeIP state isNew :
  ignored KNotify = true -> preserves f (notifyTeams c m r nodeIP state isNew).
Proof.
  intros Hn. unfold notifyTeams. destruct (_ && _); [|apply preserves_ret].
  apply preserves_bind; [by apply frame_emit|intros _].
  apply preserves_bind; [|intros; apply preserves_ret].
  apply preserves_try, Hsend.
Qed.

Lemma frame_ensureRound m r div league home away mapName details rel w :
  ignored KAllocate = true -> ignored KSteam = true ->
  ignored KHelmApply = true -> ignored KNotify = true ->
  f (snd (ensureRound c m r div league home away mapName details rel w)) =
  f (set_trace (trace w ++ [EvEnsureRound (database.mID m) (database.rID r)]) w).
Proof.
  intros Ha Hs Hh Hn. unfold ensureRound. rewrite bind_emit.
  set (w0 := set_trace _ w).
  refine (preserves_bind f _ _ _ _ w0); [by apply frame_ensureState|intros fresh].
  apply preserves_bind; [by apply frame_publishServer|intros nodeIP].
  by apply frame_notifyTeams.
Qed.

End Frame.

(** ** Ensure *)

Section Ensure.
Import controller Calls ReconcilerSpec.
Context `{GoRuntime} `{steam.JSON}.
Variable c : Controller.

Lemma set_notifications_same d :
  database.set_notifications (database.user_notifications d ++ []) d = d.
Proof. rewrite app_nil_r. by destruct d. Qed.

Lemma reaches_none d message link recipients :
  (forall u, head recipients = Some u -> refused d message link u) ->
  reaches d message link recipients [].
Proof.
  intros Hfail. exists recipients. split; [done|].
  split; [by intros ? ?%elem_of_nil|exact Hfail].
Qed.

(** The insertion loop adds the rows of the recipients it reaches. *)
Lemma notifyEach_reaches users message link : forall d,
  exists sent,
    reaches d message link users sent /\
    snd (database.notifyEach users message link d) =
      database.set_notifications
        (database.user_notifications d ++ map (notificationRow message link) sent) d.
Proof.
  induction users as [|u users IH]; intros d; cbn [database.notifyEach].
  - exists []. split; [by apply reaches_none|]. cbn [snd map].
    by rewrite set_notifications_same.
  - unfold database.createUserNotification.
    destruct (database.x_insert_notification d u message link) as [e|] eqn:Hx.
    + exists []. split.
      * apply reaches_none. intros ? [= <-]. unfold refused. by rewrite Hx.
      * cbn [snd map]. by rewrite set_notifications_same.
    + match goal with |- context [database.notifyEach users message link ?d'] =>
        destruct (IH d') as (sent & (rest & -> & Hsent & Hrest) & Hrun)
      end.
      exists (u :: sent). split.
      * exists rest. split; [done|]. split; [|exact Hrest].
        intros v [-> | Hv]%elem_of_cons; [|by apply Hsent].
        unfold refused. rewrite Hx. by intros Hne.
      * destruct (database.notifyEach (sent ++ rest) message link _) as [[[]|e] d'];
          cbn [snd] in Hrun |- *; subst d'; cbn; by rewrite <- app_assoc.
Qed.

Lemma SendNotificationsToTeams_delivered m message link d :
  exists sent,
    delivered d m message link sent /\
    snd (database.SendNotificationsToTeams (database.RosterHomeID m)
           (database.RosterAwayID m) message link d) =
      database.set_notifications
        (database.user_notifications d ++ map (notificationRow message link) sent) d.
Proof.
  unfold database.SendNotificationsToTeams, database.fetchTeamUserIDs, delivered.
  destruct (database.q_user_ids d (database.RosterHomeID m)) as [homeUsers|e].
  2:{ exists []. split; [done|]. cbn [snd map]. by rewrite set_notifications_same. }
  destruct (database.q_user_ids d (database.RosterAwayID m)) as [awayUsers|e].
  2:{ exists []. split; [done|]. cbn [snd map]. by rewrite set_notifications_same. }
  apply notifyEach_reaches.
Qed.

Lemma delivered_ext d d' m message link sent :
  database.q_user_ids d' = database.q_user_ids d ->
  database.x_insert_notification d' = database.x_insert_notification d ->
  delivered d' m message link sent -> delivered d m message link sent.
Proof. unfold delivered, reaches, refused. by intros -> ->. Qed.

(** The state is new exactly when no secret existed. *)
Lemma ensureState_isNew m r mapName rel w st isNew w1 :
  ensureState c m r mapName rel w = (Ok (st, isNew), w1) ->
  isNew = bool_decide (kube.secrets (cluster w) !! secretName rel = None).
Proof.
  unfold ensureState. intros Hrun.
  apply bind_inv in Hrun as [(loaded & w0 & Hload & Hrun)|(e & _ & [=])].
  unfold wrap, loadServerState, readCluster, kube.Get in Hload.
  destruct (kube.secrets (cluster w) !! secretName rel) as [secret|] eqn:Hs.
  - rewrite bool_decide_eq_false_2 by done.
    destruct (decodeState rel secret); cbn in Hload; [|done].
    injection Hload as <- <-.
    apply bind_inv in Hrun as [(st' & w2 & _ & Hret)|(e & _ & [=])].
    by injection Hret as _ <- _.
  - rewrite bool_decide_eq_true_2 by done. cbn in Hload.
    injection Hload as <- <-.
    apply bind_inv in Hrun as [(st' & w2 & _ & Hret)|(e & _ & [=])].
    by injection Hret as _ <- _.
Qed.

Lemma ensureRound_run m r div league home away mapName details rel w :
  ensureRound c m r div league home away mapName details rel w =
  let w0 :=
    set_trace (trace w ++ [EvEnsureRound (database.mID m) (database.rID r)]) w in
  match ensureState c m r mapName rel w0 with
  | (Err e, w1) => (Err e, w1)
  | (Ok fresh, w1) =>
      match publishServer c m r div league home away mapName rel (fst fresh) w1 with
      | (Err e, w2) => (Err e, w2)
      | (Ok nodeIP, w2) => notifyTeams c m r nodeIP (fst fresh) (snd fresh) w2
      end
  end.
Proof. reflexivity. Qed.

(** [notifyTeams] returns no error; when the state is new and
    notifications are enabled it records the call and adds the rows of
    the users the batch reaches. *)
Lemma notifyTeams_run m r nodeIP state isNew w :
  let message := notificationMessage m r nodeIP state in
  let link := notificationLink c m in
  exists sent,
    (isNew && config.Enabled (config.Notifications (cfg c)) = true ->
     delivered (db w) m message link sent) /\
    notifyTeams c m r nodeIP state isNew w =
    if isNew && config.Enabled (config.Notifications (cfg c))
    then
      (Ok tt,
       set_db (database.set_notifications
                 (database.user_notifications (db w) ++
                  map (notificationRow message link) sent) (db w))
              (set_trace (trace w ++ [EvNotifyTeams (database.RosterHomeID m)
                                        (database.RosterAwayID m) message link]) w))
    else (Ok tt, w).
Proof.
  intros message link. unfold notifyTeams. fold message link.
  destruct (_ && _); [|by exists []].
  destruct (SendNotificationsToTeams_delivered m message link (db w))
    as (sent & Hsent & Hrun).
  exists sent. split; [done|].
  unfold bind, emit, try, onDB, ret. cbn [db set_trace].
  destruct (database.SendNotificationsToTeams _ _ _ _ _) as [res d'].
  cbn [snd] in Hrun. by subst d'.
Qed.

Lemma ensureState_keeps K m r mapName rel :
  K KAllocate = false -> K KSteam = false ->
  preserves (callsOf K) (ensureState c m r mapName rel).
Proof.
  intros Ha Hs. apply frame_ensureState with (ignored := fun k => negb (K k));
    try done; [|by rewrite Ha|by rewrite Hs].
  apply callsOf_frame.
Qed.

Lemma ensureState_keeps_db {X} (g : database.DB -> X) m r mapName rel :
  preserves (fun w => g (db w)) (ensureState c m r mapName rel).
Proof. by apply frame_ensureState with (ignored := fun _ => true). Qed.

Lemma publishServer_keeps K m r div league home away mapName rel state :
  K KHelmApply = false ->
  preserves (callsOf K) (publishServer c m r div league home away mapName rel state).
Proof.
  intros Ha. apply frame_publishServer with (ignored := fun k => negb (K k));
    first [done | by rewrite Ha | apply callsOf_frame
          | intros; by apply preserves_onDB].
Qed.

Lemma publishServer_keeps_db {X} (g : database.DB -> X) m r div league home away
    mapName rel state :
  (forall rows d, g (database.set_details rows d) = g d) ->
  preserves (fun w => g (db w))
            (publishServer c m r div league home away mapName rel state).
Proof.
  intros Hg. apply frame_publishServer with (ignored := fun _ => true); try done.
  intros d w. unfold onDB, database.UpsertMatchDetails.
  destruct (database.x_upsert_details (db w) d); cbn; [done|apply Hg].
Qed.

(** C8, as the code has it: in [ensureRound] the teams are notified
    exactly when no secret existed at the start of the call,
    notifications are enabled, and the call returns without an error,
    that is when persisting the state, applying the manifest, finding a
    node address and publishing the details have all succeeded.  The
    batch is one row per user of the home roster, then one per user of
    the away roster, up to the first user whose row the database fails
    to insert, and it is empty when a roster cannot be read; such a
    failure is not returned.  Otherwise, and so whenever a secret
    existed, the teams are not notified and nothing is enqueued. *)
Theorem ensureRound_notifications m r div league home away mapName details rel w :
  let out := ensureRound c m r div league home away mapName details rel w in
  let fresh := bool_decide (kube.secrets (cluster w) !! secretName rel = None) in
  if fresh && config.Enabled (config.Notifications (cfg c)) && is_Ok (fst out)
  then
    exists message link sent,
      callsOf isNotify (snd out) =
        callsOf isNotify w ++
        [EvNotifyTeams (database.RosterHomeID m) (database.RosterAwayID m)
                       message link] /\
      database.user_notifications (db (snd out)) =
        database.user_notifications (db w) ++
        map (notificationRow message link) sent /\
      delivered (db w) m message link sent
  else
    callsOf isNotify (snd out) = callsOf isNotify w /\
    database.user_notifications (db (snd out)) = database.user_notifications (db w).
Proof.
  cbn zeta. rewrite ensureRound_run. cbn zeta.
  set (w0 := set_trace _ w).
  assert (Hc0 : callsOf isNotify w0 = callsOf isNotify w) by by apply callsOf_event.
  pose proof (ensureState_keeps isNotify m r mapName rel eq_refl eq_refl w0) as Hc1.
  pose proof (ensureState_keeps_db id m r mapName rel w0) as Hd1.
  destruct (ensureState c m r mapName rel w0) as [[[state isNew]|e] w1] eqn:Hstate;
    cbn [fst snd id] in *.
  2:{ rewrite andb_false_r. by rewrite Hc1, Hc0, Hd1. }
  apply ensureState_isNew in Hstate. change (cluster w0) with (cluster w) in Hstate.
  pose proof (publishServer_keeps isNotify m r div league home away mapName rel state
                eq_refl w1) as Hc2.
  pose proof (publishServer_keeps_db database.user_notifications m r div league home
                away mapName rel state ltac:(done) w1) as Hn2.
  pose proof (publishServer_keeps_db database.q_user_ids m r div league home
                away mapName rel state ltac:(done) w1) as Hq2.
  pose proof (publishServer_keeps_db database.x_insert_notification m r div league
                home away mapName rel state ltac:(done) w1) as Hx2.
  destruct (publishServer c m r div league home away mapName rel state w1)
    as [[nodeIP|e] w2]; cbn [fst snd] in *.
  2:{ rewrite andb_false_r. by rewrite Hc2, Hc1, Hc0, Hn2, Hd1. }
  destruct (notifyTeams_run m r nodeIP state isNew w2) as (sent & Hsent & ->).
  rewrite <- Hstate.
  destruct (isNew && config.Enabled (config.Notifications (cfg c))) eqn:Hgate;
    cbn [fst snd is_Ok andb].
  - eexists _, _, sent. split; [|split].
    + rewrite <- Hc0, <- Hc1, <- Hc2. unfold callsOf. cbn [trace set_db set_trace].
      by rewrite List.filter_app.
    + cbn. by rewrite Hn2, Hd1.
    + apply (delivered_ext _ (db w2)); [by rewrite Hq2, Hd1|by rewrite Hx2, Hd1|].
      by apply Hsent.
  - by rewrite Hc2, Hc1, Hc0, Hn2, Hd1.
Qed.

Lemma upsert_contains details d d' :
  database.UpsertMatchDetails details d = (Ok tt, d') ->
  database.rowOf details ∈ database.matches_server_details d'.
Proof.
  unfold database.UpsertMatchDetails.
  destruct (database.x_upsert_details d details); [done|]. intros [= <-].
  cbn [database.set_details database.matches_server_details].
  set (hit := database.rowFor _ _).
  destruct (existsb hit (database.matches_server_details d)) eqn:Hex.
  - apply existsb_exists in Hex as (row & Hin & Hrow).
    apply list_elem_of_In, in_map_iff. exists row. by rewrite Hrow.
  - apply elem_of_app. right. by left.
Qed.

Lemma publishServer_publishes m r div league home away mapName rel state w nodeIP w' :
  publishServer c m r div league home away mapName rel state w = (Ok nodeIP, w') ->
  database.rowOf (detailsPayload c m r mapName nodeIP state) ∈
    database.matches_server_details (db w').
Proof.
  unfold publishServer. intros Hrun.
  apply bind_inv in Hrun as [(? & w1 & _ & Hrun)|(e & _ & [=])].
  apply bind_inv in Hrun as [(? & w2 & _ & Hrun)|(e & _ & [=])].
  apply bind_inv in Hrun as [(ip & w3 & _ & Hrun)|(e & _ & [=])].
  apply bind_inv in Hrun as [(? & w4 & Hup & Hret)|(e & _ & [=])].
  injection Hret as <- <-.
  unfold wrap, onDB in Hup.
  pose proof (upsert_contains (detailsPayload c m r mapName ip state) (db w3)) as Hin.
  destruct (database.UpsertMatchDetails _ (db w3)) as [[[]|e] d']; [|done].
  injection Hup as _ <-. by apply Hin.
Qed.

Lemma HasPrefix_app x t : strings.HasPrefix (x +:+ t) x = true.
Proof.
  induction x as [|ch x IH]; simpl; [by destruct t|].
  by rewrite Ascii.eqb_refl.
Qed.

Lemma Contains_here x t : strings.Contains (x +:+ t) x = true.
Proof.
  pose proof (HasPrefix_app x t) as Hp.
  destruct (x +:+ t); cbn [strings.Contains]; by rewrite Hp.
Qed.

Lemma Contains_self x : strings.Contains x x = true.
Proof.
  assert (Hp : strings.HasPrefix x x = true).
  { induction x as [|ch x IH]; simpl; [done|]. by rewrite Ascii.eqb_refl. }
  destruct x; cbn [strings.Contains]; by rewrite Hp.
Qed.

Lemma Contains_app_r p s x :
  strings.Contains s x = true -> strings.Contains (p +:+ s) x = true.
Proof.
  intros Hs. induction p as [|ch p IH]; simpl; [done|].
  rewrite IH. apply orb_true_r.
Qed.

Lemma message_embeds m r nodeIP state :
  let message := notificationMessage m r nodeIP state in
  strings.Contains message nodeIP = true /\
  strings.Contains message (strconv.Itoa (ports.aGame (Ports state))) = true /\
  strings.Contains message (Password state) = true.
Proof.
  cbn zeta. unfold notificationMessage. repeat split.
  - do 5 apply Contains_app_r. apply Contains_here.
  - do 7 apply Contains_app_r. apply Contains_here.
  - do 9 apply Contains_app_r. apply Contains_self.
Qed.

(** C10: every notification row that [ensureRound] enqueues has a
    message that contains, as plain text, the node address, the game
    port and the password of the details row published for the round,
    and a link that is the configured link format applied to the match
    id alone. *)
Theorem notification_content m r div league home away mapName details rel w n :
  let out := ensureRound c m r div league home away mapName details rel w in
  n ∈ enqueued w (snd out) ->
  exists row,
    row ∈ database.matches_server_details (db (snd out)) /\
    database.row_match_id row = database.mID m /\
    database.row_round_id row = database.rID r /\
    strings.Contains (database.n_message n) (database.row_server_ip row) = true /\
    strings.Contains (database.n_message n) (database.row_port row) = true /\
    strings.Contains (database.n_message n) (database.row_password row) = true /\
    database.n_link n =
      Sprintf (config.LinkFormat (config.Notifications (cfg c))) [database.mID m].
Proof.
  cbn zeta. unfold enqueued. rewrite ensureRound_run. cbn zeta.
  set (w0 := set_trace _ w).
  pose proof (ensureState_keeps_db database.user_notifications m r mapName rel w0)
    as Hn1.
  destruct (ensureState c m r mapName rel w0) as [[[state isNew]|e] w1];
    cbn [fst snd] in *.
  2:{ rewrite Hn1. change (db w0) with (db w). rewrite drop_all.
      by intros ?%elem_of_nil. }
  pose proof (publishServer_keeps_db database.user_notifications m r div league home
                away mapName rel state ltac:(done) w1) as Hn2.
  destruct (publishServer c m r div league home away mapName rel state w1)
    as [[nodeIP|e] w2] eqn:Hpub; cbn [fst snd] in *.
  2:{ rewrite Hn2, Hn1. change (db w0) with (db w). rewrite drop_all.
      by intros ?%elem_of_nil. }
  apply publishServer_publishes in Hpub.
  destruct (notifyTeams_run m r nodeIP state isNew w2) as (sent & _ & ->).
  destruct (isNew && config.Enabled (config.Notifications (cfg c))); cbn [snd].
  2:{ rewrite Hn2, Hn1. change (db w0) with (db w). rewrite drop_all.
      by intros ?%elem_of_nil. }
  cbn [db set_db set_trace database.user_notifications database.set_notifications
       database.matches_server_details].
  rewrite Hn2, Hn1. change (db w0) with (db w). rewrite drop_app_length.
  intros (u & -> & _)%list_elem_of_fmap.
  exists (database.rowOf (detailsPayload c m r mapName nodeIP state)).
  split; [exact Hpub|]. cbn.
  pose proof (message_embeds m r nodeIP state) as (H1 & H2 & H3). by repeat split.
Qed.

End Ensure.

(** ** The per-round decision *)

Section Decision.
Import controller Calls ReconcilerSpec.
Context `{GoRuntime} `{steam.JSON}.
Variable c : Controller.

Lemma reconcileRound_run m div league home away r w d :
  database.FetchMatchDetails (db w) (database.mID m) (database.rID r) = Ok d ->
  reconcileRound c m div league home away r w =
  if needsServer m r
  then (Ok tt, snd (ensureRound c m r div league home away (resolvedMap c r w) d
                                (releaseName (database.mID m) (database.rID r)) w))
  else match d with
       | Some details =>
           (Ok tt, snd (teardownRound c m r div league home away (resolvedMap c r w)
                          (releaseName (database.mID m) (database.rID r)) details w))
       | None => (Ok tt, w)
       end.
Proof.
  intros Hd.
  unfold reconcileRound, bind, try, wrap, readDB, ret, needsServer, resolvedMap.
  rewrite Hd. cbn [wrapResult].
  destruct (database.ManualNotDone m || negb (database.HasOutcome r)).
  - by destruct (ensureRound _ _ _ _ _ _ _ _ _ _ _).
  - destruct d as [details|]; [|done].
    by destruct (teardownRound _ _ _ _ _ _ _ _ _ _ _).
Qed.

Lemma ensureRound_calls K m r div league home away mapName details rel w :
  K KAllocate = false -> K KSteam = false ->
  K KHelmApply = false -> K KNotify = false ->
  callsOf K (snd (ensureRound c m r div league home away mapName details rel w)) =
  callsOf K w ++
  (if K KEnsure then [EvEnsureRound (database.mID m) (database.rID r)] else []).
Proof.
  intros Ha Hs Hh Hn.
  rewrite (frame_ensureRound (callsOf K) (fun k => negb (K k)));
    [|first [ done | by rewrite ?Ha, ?Hs, ?Hh, ?Hn | apply callsOf_frame
            | intros; by apply preserves_onDB ]..].
  unfold callsOf. cbn. rewrite List.filter_app. cbn. by destruct (K KEnsure).
Qed.

Lemma teardownRound_calls K m r div league home away mapName rel details w :
  K KHelmDelete = false -> K KSteam = false ->
  callsOf K (snd (teardownRound c m r div league home away mapName rel details w)) =
  callsOf K w ++
  (if K KTeardown then [EvTeardownRound (database.mID m) (database.rID r)] else []).
Proof.
  intros Hh Hs.
  rewrite (frame_teardownRound (callsOf K) (fun k => negb (K k)));
    [|first [ done | by rewrite ?Hh, ?Hs | apply callsOf_frame
            | intros; by apply preserves_onDB ]..].
  unfold callsOf. cbn. rewrite List.filter_app. cbn. by destruct (K KTeardown).
Qed.

(** The rounds of a match are processed in order, until the details of
    one cannot be fetched. *)
Lemma forEach_cons {A} (body : A -> M unit) item rest w :
  forEach body (item :: rest) w =
  match body item w with
  | (Ok _, w') => forEach body rest w'
  | (Err e, w') => (Err e, w')
  end.
Proof. reflexivity. Qed.

(** A match whose division passes the filter and whose reads succeed is
    reconciled by running the loop body on each of its rounds. *)
Lemma reconcileMatch_rounds m w division league home away rounds :
  database.FetchDivision (db w) (database.RosterHomeID m) = Ok division ->
  divisionMatchesFilter c (database.divName division) = true ->
  database.FetchLeague (db w) (database.divID division) = Ok league ->
  database.FetchTeamSteamIDs (db w) (database.RosterHomeID m) = Ok home ->
  database.FetchTeamSteamIDs (db w) (database.RosterAwayID m) = Ok away ->
  database.FetchMatchRounds (db w) (database.mID m) = Ok rounds ->
  reconcileMatch c m w =
  forEach (reconcileRound c m (database.divID division) league home away) rounds w.
Proof.
  intros Hd Hf Hl Hh Ha Hr. unfold reconcileMatch, bind, wrap, readDB.
  rewrite Hd. cbn [wrapResult]. rewrite Hf. cbn [negb].
  rewrite Hl. cbn [wrapResult]. rewrite Hh. cbn [wrapResult].
  rewrite Ha. cbn [wrapResult]. by rewrite Hr.
Qed.

(** C2: for a round the loop of [reconcileMatch] processes (its details
    were fetched), the body runs [ensureRound], and not [teardownRound],
    when the match is manual-not-done or the round has no outcome;
    otherwise it runs [teardownRound], and not [ensureRound], when a
    details row exists; otherwise it leaves the world as it is. *)
Theorem reconcileRound_decision m div league home away r w d :
  database.FetchMatchDetails (db w) (database.mID m) (database.rID r) = Ok d ->
  let out := reconcileRound c m div league home away r w in
  let rel := releaseName (database.mID m) (database.rID r) in
  let ensure := EvEnsureRound (database.mID m) (database.rID r) in
  let teardown := EvTeardownRound (database.mID m) (database.rID r) in
  fst out = Ok tt /\
  match database.ManualNotDone m || negb (database.HasOutcome r), d with
  | true, _ =>
      snd out = snd (ensureRound c m r div league home away (resolvedMap c r w) d
                                 rel w) /\
      callsOf isEnsure (snd out) = callsOf isEnsure w ++ [ensure] /\
      callsOf isTeardown (snd out) = callsOf isTeardown w
  | false, Some details =>
      snd out = snd (teardownRound c m r div league home away (resolvedMap c r w)
                                   rel details w) /\
      callsOf isTeardown (snd out) = callsOf isTeardown w ++ [teardown] /\
      callsOf isEnsure (snd out) = callsOf isEnsure w
  | false, None => snd out = w
  end.
Proof.
  intros Hd. cbn zeta. rewrite (reconcileRound_run _ _ _ _ _ _ _ _ Hd).
  unfold needsServer.
  destruct (database.ManualNotDone m || negb (database.HasOutcome r)).
  - cbn [fst snd]. repeat split.
    + by rewrite ensureRound_calls.
    + rewrite ensureRound_calls by done. apply app_nil_r.
  - destruct d as [details|]; cbn [fst snd]; [|done]. repeat split.
    + by rewrite teardownRound_calls.
    + rewrite teardownRound_calls by done. apply app_nil_r.
Qed.

End Decision.

(** ** Teardown *)

Section Teardown.
Import controller Calls ReconcilerSpec.
Context `{GoRuntime} `{steam.JSON}.
Variable c : Controller.

Lemma loadServerState_absent rel w :
  kube.secrets (cluster w) !! secretName rel = None ->
  loadServerState rel w = (Ok None, w).
Proof.
  intros Hs. unfold loadServerState, readCluster, kube.Get. by rewrite Hs.
Qed.

(** C6: when the state secret is absent, [teardownRound] renders the
    delete with a state whose game and SourceTV ports are those of the
    details row, whose client and steam ports are the game port plus one
    and plus two (the [+] of [int]), whose RCON key is empty and whose
    token is the configured static token. *)
Theorem teardown_synthesizes_state m r div league home away mapName rel details w helm :
  kube.secrets (cluster w) !! secretName rel = None ->
  renderer c = Some helm ->
  let out := teardownRound c m r div league home away mapName rel details w in
  exists state,
    ports.aGame (Ports state) = database.Port details /\
    ports.aSourceTV (Ports state) = database.SourceTVPort details /\
    ports.aClient (Ports state) = GoInt.add (database.Port details) 1 /\
    ports.aSteam (Ports state) = GoInt.add (database.Port details) 2 /\
    RCON state = EmptyString /\
    Token state = config.StaticToken (config.SRCDS (cfg c)) /\
    callsOf isHelmDelete (snd out) =
      callsOf isHelmDelete w ++
      [EvHelmDelete rel (buildValues c m r div league home away state)].
Proof.
  intros Habsent Hhelm. cbn zeta.
  exists (teardownState c mapName rel details None).
  repeat split.
  unfold teardownRound. rewrite bind_emit.
  set (w0 := set_trace _ w).
  unfold bind at 1. unfold wrap at 1.
  rewrite (loadServerState_absent rel w0) by done. cbn [wrapResult].
  unfold bind at 1. unfold wrap at 1. unfold deleteHelmRelease. rewrite Hhelm.
  set (values := buildValues _ _ _ _ _ _ _ _).
  rewrite bind_emit.
  set (w1 := set_trace (trace w0 ++ [EvHelmDelete rel values]) w0).
  assert (Hw1 : callsOf isHelmDelete w1 =
                callsOf isHelmDelete w ++ [EvHelmDelete rel values]).
  { unfold callsOf, w1, w0. cbn. rewrite !List.filter_app. cbn.
    by rewrite app_nil_r. }
  pose proof (preserves_onCluster (callsOf isHelmDelete)
                (chart.Delete helm rel values) (fun _ _ => eq_refl) w1) as Hdel.
  destruct (onCluster (chart.Delete helm rel values) w1) as [[[]|e] w2];
    cbn [wrapResult snd] in *; [|by rewrite Hdel].
  rewrite <- Hw1, <- Hdel.
  refine (preserves_bind (callsOf isHelmDelete) _ _ _ _ w2).
  { apply preserves_wrap. by apply preserves_onDB. }
  intros _. apply preserves_bind.
  { apply preserves_wrap. by apply preserves_onCluster. }
  intros _. apply preserves_bind; [|intros; apply preserves_ret].
  apply preserves_try.
  apply frame_cleanupSRCDSToken with (ignored := fun k => negb (isHelmDelete k));
    first [done|apply callsOf_frame].
Qed.

(** Below the largest [int] the two derived ports are the sums. *)
Lemma derived_ports_in_range port :
  GoInt.min_int <= port -> port + 2 <= GoInt.max_int ->
  GoInt.add port 1 = port + 1 /\ GoInt.add port 2 = port + 2.
Proof.
  intros Hlo Hhi. split; apply wrap_in_range; unfold GoInt.in_range; lia.
Qed.

End Teardown.

(** ** The division filter *)

Section Filter.
Import controller.
Context `{GoRuntime} `{steam.JSON}.
Variable c : Controller.

Lemma anyFilterIn_none normalized filters :
  (forall f, f ∈ filters -> f <> EmptyString ->
     strings.Contains normalized f = false) ->
  anyFilterIn normalized filters = false.
Proof.
  induction filters as [|f filters IH]; intros Hnone; cbn [anyFilterIn]; [done|].
  destruct (String.eqb_spec f EmptyString) as [->|Hf].
  - apply IH. intros g Hg. apply Hnone. by right.
  - rewrite (Hnone f) by (done || by left).
    apply IH. intros g Hg. apply Hnone. by right.
Qed.

(** C7: with an empty filter list the division passes the filter; with
    a non-empty list, when the division name of the home roster,
    trimmed and lowercased, contains none of the non-empty filters, the
    division does not pass and [reconcileMatch] returns without an
    error and leaves the world (cluster, database, random source and
    recorded calls) as it was. *)
Theorem division_filter m w division :
  database.FetchDivision (db w) (database.RosterHomeID m) = Ok division ->
  let filters := config.DivisionFilters (config.Match (cfg c)) in
  let normalized := ToLower (TrimSpace (database.divName division)) in
  (filters = [] -> divisionMatchesFilter c (database.divName division) = true) /\
  (filters <> [] ->
   (forall f, f ∈ filters -> f <> EmptyString ->
      strings.Contains normalized f = false) ->
   divisionMatchesFilter c (database.divName division) = false /\
   reconcileMatch c m w = (Ok tt, w)).
Proof.
  intros Hdiv. cbn zeta. split.
  - intros Hnil. unfold divisionMatchesFilter. by rewrite Hnil.
  - intros Hne Hnone.
    assert (Hskip : divisionMatchesFilter c (database.divName division) = false).
    { unfold divisionMatchesFilter.
      destruct (config.DivisionFilters (config.Match (cfg c))) as [|f filters] eqn:Hf;
        [done|]. cbn [length Nat.eqb].
      destruct (String.eqb _ EmptyString); [done|]. by apply anyFilterIn_none. }
    split; [done|].
    unfold reconcileMatch, bind, wrap, readDB. rewrite Hdiv. cbn [wrapResult].
    by rewrite Hskip.
Qed.

End Filter.

(** ** The scenarios of the specification, run on the model *)

Section Scenarios.
Import controller Calls ReconcilerSpec example ascii_runtime.

Lemma reconcileRound_decision_witness :
  let w := world [node] [] in
  let out := reconcileRound ctl match42 "3" league homeIDs awayIDs round7 w in
  database.FetchMatchDetails (db w) 42 7 = Ok None /\
  fst out = Ok tt /\
  callsOf isEnsure (snd out) = callsOf isEnsure w ++ [EvEnsureRound 42 7] /\
  callsOf isTeardown (snd out) = callsOf isTeardown w.
Proof.
  cbn zeta.
  pose proof (reconcileRound_decision ctl match42 "3" league homeIDs awayIDs round7
                (world [node] []) None eq_refl) as [Hok (_ & Hensure & Hteardown)].
  repeat split; assumption.
Defined.

Lemma teardown_synthesizes_state_witness :
  let w := world [node] [published] in
  kube.secrets (cluster w) !! secretName "udl-42-r7" = None /\
  renderer ctl = Some helm /\
  exists state,
    ports.aGame (Ports state) = 30000 /\
    ports.aSourceTV (Ports state) = 30300 /\
    ports.aClient (Ports state) = GoInt.add 30000 1 /\
    ports.aSteam (Ports state) = GoInt.add 30000 2 /\
    RCON state = EmptyString /\
    Token state = "static-token" /\
    callsOf isHelmDelete
      (snd (teardownRound ctl match42 round7 "3" league homeIDs awayIDs
              "tfdb_box_a2" "udl-42-r7" publishedDetails w)) =
      callsOf isHelmDelete w ++
      [EvHelmDelete "udl-42-r7"
         (buildValues ctl match42 round7 "3" league homeIDs awayIDs state)].
Proof.
  cbn zeta.
  assert (Habsent : kube.secrets (cluster (world [node] [published]))
                      !! secretName "udl-42-r7" = None) by reflexivity.
  split; [exact Habsent|]. split; [reflexivity|].
  exact (teardown_synthesizes_state ctl match42 round7 "3" league homeIDs awayIDs
           "tfdb_box_a2" "udl-42-r7" publishedDetails (world [node] [published])
           helm Habsent eq_refl).
Defined.

Lemma division_filter_witness :
  let w := world [node] [] in
  let division :=
    {| database.divID := "3"; database.divName := "Intermediate North" |} in
  database.FetchDivision (db w) 1 = Ok division /\
  divisionMatchesFilter filtering "Intermediate North" = false /\
  reconcileMatch filtering match42 w = (Ok tt, w).
Proof.
  cbn zeta. split; [reflexivity|].
  refine (proj2 (division_filter filtering match42 (world [node] []) _ eq_refl) _ _).
  - discriminate.
  - intros f Hf _.
    apply elem_of_cons in Hf as [->|Hf]; [by vm_compute|].
    apply elem_of_cons in Hf as [->|Hf]; [by vm_compute|].
    by apply elem_of_nil in Hf.
Defined.

(** The first scenario, twice.  With no node address to publish: no
    secret exists and notifications are enabled; the state is created
    and its secret written, the call fails at the node address, and the
    teams are not notified.  With a node address and a driver that fails
    the insertion for user 102, the second of the three users: the call
    returns without an error, and the one row enqueued is that of user
    101. *)
Lemma fresh_state_without_notification :
  let run w :=
    ensureRound ctl match42 round7 "3" league homeIDs awayIDs "tfdb_box_a2" None
                "udl-42-r7" w in
  let w := world [] [] in
  let out := run w in
  let w' := withTables (tables false [102] []) (world [node] []) in
  let out' := run w' in
  kube.secrets (cluster w) !! secretName "udl-42-r7" = None /\
  config.Enabled (config.Notifications (cfg ctl)) = true /\
  kube.secrets (cluster (snd out)) !! secretName "udl-42-r7" <> None /\
  fst out = Err (wrapError "discover node ip"
                   (errorString "no suitable node IP found")) /\
  callsOf isNotify (snd out) = [] /\
  database.user_notifications (db (snd out)) = [] /\
  kube.secrets (cluster w') !! secretName "udl-42-r7" = None /\
  database.q_user_ids (db w') 1 = Ok [101; 102] /\
  database.q_user_ids (db w') 2 = Ok [201] /\
  fst out' = Ok tt /\
  length (callsOf isNotify (snd out')) = 1%nat /\
  map database.n_user_id (database.user_notifications (db (snd out'))) = [101].
Proof.
  cbn zeta. split; [reflexivity|]. split; [reflexivity|].
  split; [by vm_compute|]. repeat split; by vm_compute.
Qed.

Lemma notification_content_witness :
  let w := world [node] [] in
  let out := ensureRound ctl match42 round7 "3" league homeIDs awayIDs
               "tfdb_box_a2" None "udl-42-r7" w in
  let n :=
    notificationRow
      "Match 42 Round 7 is running on 203.0.113.7:30000 with password abcdefghij"
      "/matches/42" 101 in
  n ∈ enqueued w (snd out) /\
  exists row,
    row ∈ database.matches_server_details (db (snd out)) /\
    database.row_match_id row = 42 /\
    database.row_round_id row = 7 /\
    strings.Contains (database.n_message n) (database.row_server_ip row) = true /\
    strings.Contains (database.n_message n) (database.row_port row) = true /\
    strings.Contains (database.n_message n) (database.row_password row) = true /\
    database.n_link n = "/matches/42".
Proof.
  cbn zeta.
  assert (Hin :
    notificationRow
      "Match 42 Round 7 is running on 203.0.113.7:30000 with password abcdefghij"
      "/matches/42" 101
    ∈ enqueued (world [node] [])
        (snd (ensureRound ctl match42 round7 "3" league homeIDs awayIDs
                "tfdb_box_a2" None "udl-42-r7" (world [node] []))))
    by (vm_compute; left).
  split; [exact Hin|].
  exact (notification_content ctl match42 round7 "3" league homeIDs awayIDs
           "tfdb_box_a2" None "udl-42-r7" (world [node] []) _ Hin).
Defined.

End Scenarios.

(** * Further properties of the code *)

(** ** The allocation that also reads the state secrets *)

Section AllocatorSecrets.
Import config ports ports_secrets AllocatorSpec AllocatorSecretsSpec.

Lemma elem_of_parsePortsFromSecret data used x :
  x ∈ parsePortsFromSecret data used <->
  x ∈ used \/
  exists key raw,
    key ∈ portKeys /\ data !! key = Some raw /\ strconv.Atoi raw = Ok x /\ 0 < x.
Proof.
  unfold parsePortsFromSecret. generalize portKeys. intros keys. revert used.
  induction keys as [|key keys IH]; intros used; cbn [foldl].
  - split; [auto|]. intros [H|(key & raw & H & _)]; [done|].
    by apply elem_of_nil in H.
  - rewrite IH. clear IH. split.
    + intros [H|(key' & raw & Hk & Hrest)].
      * destruct (data !! key) as [raw|] eqn:Hd; [|auto].
        destruct (strconv.Atoi raw) as [port|e] eqn:Hp; [|auto].
        destruct (Z.ltb_spec 0 port) as [Hpos|Hpos]; [|auto].
        apply elem_of_union in H as [H|H]; [|auto].
        apply elem_of_singleton in H as ->.
        right. exists key, raw. split; [left|]; auto.
      * right. exists key', raw. split; [by right|]. exact Hrest.
    + intros [H|(key' & raw & Hk & Hd & Hp & Hpos)].
      * left. destruct (data !! key) as [raw|]; [|done].
        destruct (strconv.Atoi raw) as [port|e]; [|done].
        destruct (0 <? port); [|done]. apply elem_of_union. by right.
      * apply elem_of_cons in Hk as [->|Hk]; [|right; eauto 8].
        left. rewrite Hd, Hp. apply Z.ltb_lt in Hpos. rewrite Hpos.
        apply elem_of_union. left. by apply elem_of_singleton.
Qed.

Lemma elem_of_markSecrets secrets : forall used x,
  x ∈ markSecrets used secrets <-> x ∈ used \/ recorded secrets x.
Proof.
  induction secrets as [|secret secrets IH]; intros used x; cbn [markSecrets foldl].
  - split; [auto|]. intros [H|(secret & key & raw & H & _)]; [done|].
    by apply elem_of_nil in H.
  - fold (markSecrets (parsePortsFromSecret (kube.Data secret) used) secrets).
    rewrite IH, elem_of_parsePortsFromSecret. unfold recorded. split.
    + intros [[H|(key & raw & H)]|(secret' & key & raw & H1 & H2)]; [auto| |].
      * right. exists secret, key, raw. split; [left|]; auto.
      * right. exists secret', key, raw. split; [by right|]; auto.
    + intros [H|(secret' & key & raw & H1 & H2)]; [auto|].
      apply elem_of_cons in H1 as [->|H1]; [eauto 8|].
      right. exists secret', key, raw. auto.
Qed.

(** The used-set [AllocateWithSecrets] starts from. *)
Lemma taken_marked items secretList x :
  x ∈ match secretList with
      | Ok secrets => markSecrets (markServices ∅ items) secrets
      | Err _ => markServices ∅ items
      end <-> taken items secretList x.
Proof.
  unfold taken, listed. destruct secretList as [secrets|e].
  - by rewrite elem_of_markSecrets, observed_markServices.
  - rewrite observed_markServices. tauto.
Qed.

Lemma AllocateWithSecrets_cases ranges items secretList :
  boundedRanges ranges ->
  (exists a, AllocateWithSecrets ranges items secretList = Ok a /\
             picksFrom (taken items secretList) ranges a) \/
  (exists e, AllocateWithSecrets ranges items secretList = Err e /\
             exhaustedFrom (taken items secretList) ranges).
Proof.
  intros (Hg & Hs & Hc & Ht). unfold AllocateWithSecrets, picksFrom, exhaustedFrom.
  pose proof (taken_marked items secretList) as Hu0.
  set (u0 := match secretList with
             | Ok secrets => markSecrets (markServices ∅ items) secrets
             | Err _ => markServices ∅ items
             end) in *.
  pose proof (nextFree_spec (GameRange ranges) u0 _ Hg Hu0) as H0.
  destruct (nextFree (GameRange ranges) u0) as [[g u1]|e]; [|right; eauto].
  destruct H0 as [Hgl Hu1].
  pose proof (nextFree_spec (SourceTVRange ranges) u1 _ Hs Hu1) as H1.
  destruct (nextFree (SourceTVRange ranges) u1) as [[s u2]|e]; [|right; eauto 8].
  destruct H1 as [Hsl Hu2].
  pose proof (nextFree_spec (ClientRange ranges) u2 _ Hc Hu2) as H2.
  destruct (nextFree (ClientRange ranges) u2) as [[c u3]|e]; [|right; eauto 12].
  destruct H2 as [Hcl Hu3].
  pose proof (nextFree_spec (SteamRange ranges) u3 _ Ht Hu3) as H3.
  destruct (nextFree (SteamRange ranges) u3) as [[t u4]|e].
  - left. eexists. split; [reflexivity|]. cbn. destruct H3 as [Htl _]. auto.
  - right. exists e. split; [reflexivity|]. right. exists g. split; [done|].
    right. exists s. split; [done|]. right. exists c. split; done.
Qed.

Lemma picksFrom_not_exhausted U ranges a :
  picksFrom U ranges a -> ~ exhaustedFrom U ranges.
Proof.
  intros (Hg & Hs & Hc & Ht) [Hex|(g & Hg' & Hrest)].
  - exact (leastFree_not_exhausted _ _ _ Hg Hex).
  - rewrite <- (leastFree_unique _ _ _ _ Hg Hg') in Hrest. cbn in Hrest.
    destruct Hrest as [Hex|(s & Hs' & Hrest)].
    + exact (leastFree_not_exhausted _ _ _ Hs Hex).
    + rewrite <- (leastFree_unique _ _ _ _ Hs Hs') in Hrest. cbn in Hrest.
      destruct Hrest as [Hex|(c & Hc' & Hex)].
      * exact (leastFree_not_exhausted _ _ _ Hc Hex).
      * rewrite <- (leastFree_unique _ _ _ _ Hc Hc') in Hex.
        exact (leastFree_not_exhausted _ _ _ Ht Hex).
Qed.

Lemma elem_of_portsOf a p :
  p ∈ portsOf a <-> p = aGame a \/ p = aSourceTV a \/ p = aClient a \/ p = aSteam a.
Proof.
  unfold portsOf. rewrite !elem_of_cons, elem_of_nil. tauto.
Qed.

Lemma picksFrom_distinct U ranges a :
  picksFrom U ranges a ->
  pairwiseDistinct a /\ insideRanges ranges a /\ (forall p, p ∈ portsOf a -> ~ U p).
Proof.
  unfold picksFrom, pairwiseDistinct, insideRanges, leastFree, free, reserve.
  intros ([[Hg1 Hg2] _] & [[Hs1 Hs2] _] & [[Hc1 Hc2] _] & [[Ht1 Ht2] _]).
  unfold inRange in *.
  repeat split; try tauto; try lia;
    try (intros Heq; intuition congruence).
  intros p Hp. apply elem_of_portsOf in Hp.
  destruct Hp as [-> | [-> | [-> | ->]]]; tauto.
Qed.

(** [Allocate] picks from the observed node-ports. *)
Lemma allocationOf_picksFrom ranges items a :
  allocationOf ranges items a <-> picksFrom (observed items) ranges a.
Proof. reflexivity. Qed.

End AllocatorSecrets.

Section AllocatorSecretsExtras.
Import config ports ports_secrets AllocatorSpec AllocatorSecretsSpec.
Import controller ReconcilerSpec.

(** X1: for ranges that end below the largest [int],
    [AllocateWithSecrets] returns four pairwise distinct ports, each
    inside its range and each the smallest port of its range that is
    neither a positive node-port of an observed service, nor a positive
    number stored under one of the four port keys of a listed secret,
    nor an earlier pick; it returns an error exactly when some range
    has no such port left. *)
Theorem AllocateWithSecrets_least_free ranges items secretList :
  boundedRanges ranges ->
  (forall a, AllocateWithSecrets ranges items secretList = Ok a ->
     picksFrom (taken items secretList) ranges a /\
     pairwiseDistinct a /\ insideRanges ranges a /\
     (forall p, p ∈ portsOf a -> ~ taken items secretList p)) /\
  (is_Err (AllocateWithSecrets ranges items secretList) = true <->
   exhaustedFrom (taken items secretList) ranges).
Proof.
  intros Hb. destruct (AllocateWithSecrets_cases ranges items secretList Hb)
    as [(a & Ha & Hspec)|(e & He & Hex)].
  - split.
    + intros a' Ha'. rewrite Ha in Ha'. injection Ha' as <-.
      pose proof (picksFrom_distinct _ _ _ Hspec) as (Hd & Hi & Ho). auto.
    + rewrite Ha. cbn. split; [done|].
      intros Hex. by apply (picksFrom_not_exhausted _ _ _ Hspec) in Hex.
  - split.
    + intros a Ha. by rewrite He in Ha.
    + by rewrite He.
Qed.

Lemma AllocateWithSecrets_least_free_witness :
  boundedRanges example.portRanges /\
  AllocateWithSecrets example.portRanges [] (Ok [example.held]) =
    Ok {| aGame := 30001; aSourceTV := 30301; aClient := 40001; aSteam := 29001 |} /\
  forall p,
    p ∈ [30001; 30301; 40001; 29001] -> ~ taken [] (Ok [example.held]) p.
Proof.
  assert (Hb : boundedRanges example.portRanges) by (vm_compute; intuition discriminate).
  split; [exact Hb|].
  assert (Hrun : AllocateWithSecrets example.portRanges [] (Ok [example.held]) =
    Ok {| aGame := 30001; aSourceTV := 30301; aClient := 40001; aSteam := 29001 |})
    by (vm_compute; reflexivity).
  split; [exact Hrun|].
  destruct (AllocateWithSecrets_least_free example.portRanges []
              (Ok [example.held]) Hb) as [Hok _].
  exact (proj2 (proj2 (proj2 (Hok _ Hrun)))).
Defined.

(** X2: when the secrets cannot be listed, or no listed secret stores a
    positive number under a port key, [AllocateWithSecrets] returns
    what [Allocate] returns. *)
Theorem AllocateWithSecrets_without_records ranges items secretList :
  (forall p, ~ listed secretList p) ->
  AllocateWithSecrets ranges items secretList = Allocate ranges items.
Proof.
  intros Hnone. destruct secretList as [secrets|e]; [|reflexivity].
  unfold AllocateWithSecrets, Allocate.
  replace (markSecrets (markServices ∅ items) secrets) with (markServices ∅ items);
    [reflexivity|].
  apply set_eq. intros x. rewrite elem_of_markSecrets. split; [auto|].
  intros [H|H]; [done|]. destruct (Hnone x H).
Qed.

Lemma AllocateWithSecrets_without_records_witness :
  AllocateWithSecrets example.portRanges [] (Ok []) =
  Allocate example.portRanges [].
Proof.
  apply AllocateWithSecrets_without_records.
  intros p (secret & key & raw & Hin & _). by apply elem_of_nil in Hin.
Defined.

End AllocatorSecretsExtras.

Section AllocatorCompose.
Import config ports ports_secrets AllocatorSpec AllocatorSecretsSpec.
Import controller ReconcilerSpec.
Context `{GoRuntime}.

Lemma elem_of_ListSecrets labelKey cl secret :
  (exists name, kube.secrets cl !! name = Some secret) ->
  is_Some (kube.Labels secret !! labelKey) ->
  exists l, kube.ListSecrets labelKey cl = Ok l /\ secret ∈ l.
Proof.
  intros [name Hname] Hlabel. eexists. split; [reflexivity|].
  apply list_elem_of_In, filter_In. split.
  - apply list_elem_of_In, list_elem_of_fmap. exists (name, secret).
    split; [done|]. by apply elem_of_map_to_list.
  - by apply bool_decide_eq_true_2.
Qed.

(** The ports of a persisted state are recorded in its secret. *)
Lemma persisted_recorded (c : Controller) m r s v p :
  portsInRange (Ports s) -> p ∈ portsOf (Ports s) -> 0 < p ->
  recorded [kube.withVersion v (desiredSecret c m r s)] p.
Proof.
  intros (Hg & Hs & Hc & Ht) Hp Hpos. apply elem_of_portsOf in Hp.
  assert (Hkey : exists key,
            key ∈ portKeys /\
            kube.Data (kube.withVersion v (desiredSecret c m r s)) !! key =
              Some (strconv.Itoa p) /\ GoInt.in_range p).
  { destruct Hp as [-> | [-> | [-> | ->]]].
    - exists "game_port"%string. split; [set_solver|]. split; [|done].
      cbn. unfold secretKeyPassword, secretKeyRCON, secretKeyGamePort.
      by simplify_map_eq.
    - exists "sourcetv_port"%string. split; [set_solver|]. split; [|done].
      cbn. unfold secretKeyPassword, secretKeyRCON, secretKeyGamePort,
        secretKeySourcePort. by simplify_map_eq.
    - exists "client_port"%string. split; [set_solver|]. split; [|done].
      cbn. unfold secretKeyPassword, secretKeyRCON, secretKeyGamePort,
        secretKeySourcePort, secretKeyClientPort. by simplify_map_eq.
    - exists "steam_port"%string. split; [set_solver|]. split; [|done].
      cbn. unfold secretKeyPassword, secretKeyRCON, secretKeyGamePort,
        secretKeySourcePort, secretKeyClientPort, secretKeySteamPort.
      by simplify_map_eq. }
  destruct Hkey as (key & Hin & Hdata & Hr).
  exists (kube.withVersion v (desiredSecret c m r s)), key, (strconv.Itoa p).
  split; [by apply list_elem_of_singleton|]. split; [done|]. split; [done|].
  split; [by apply Atoi_Itoa|done].
Qed.

(** X3: once [persistStateSecret] has written a state whose ports are
    values of [int], [AllocateWithSecrets], run on the services of the
    cluster and on its secrets selected by the match-id label, returns
    none of the positive ports of that state, whether or not a service
    holds them yet. *)
Theorem persisted_ports_are_held (c : Controller) m r s w ranges a :
  boundedRanges ranges -> portsInRange (Ports s) ->
  let cl := cluster (snd (persistStateSecret c m r s w)) in
  AllocateWithSecrets ranges (kube.services cl)
    (kube.ListSecrets tournamentSelector cl) = Ok a ->
  forall p, p ∈ portsOf (Ports s) -> 0 < p -> p ∉ portsOf a.
Proof.
  intros Hb Hr cl Ha p Hp Hpos Hin.
  destruct (persistStateSecret_stores c m r s w) as [v Hrun].
  assert (Hcl : kube.secrets cl !! secretName (ReleaseName s) =
                Some (kube.withVersion v (desiredSecret c m r s))).
  { subst cl. rewrite Hrun. cbn. by rewrite lookup_insert_eq. }
  destruct (elem_of_ListSecrets tournamentSelector cl
              (kube.withVersion v (desiredSecret c m r s))) as (l & Hl & Hsec).
  { eauto. }
  { cbn. unfold tournamentSelector. by simplify_map_eq. }
  rewrite Hl in Ha.
  destruct (AllocateWithSecrets_cases ranges (kube.services cl) (Ok l) Hb)
    as [(a' & Ha' & Hspec)|(e & He & _)]; [|by rewrite He in Ha].
  rewrite Ha in Ha'. injection Ha' as <-.
  destruct (picksFrom_distinct _ _ _ Hspec) as (_ & _ & Hfree).
  apply (Hfree p Hin). right. cbn.
  destruct (persisted_recorded c m r s v p Hr Hp Hpos)
    as (secret & key & raw & Hs1 & Hrest).
  apply list_elem_of_singleton in Hs1 as ->.
  exists (kube.withVersion v (desiredSecret c m r s)), key, raw. auto.
Qed.

End AllocatorCompose.

Section AllocatorComposeExamples.
Import config ports ports_secrets AllocatorSpec AllocatorSecretsSpec.
Import controller ReconcilerSpec example ascii_runtime.

Lemma persisted_ports_are_held_witness :
  let cl := cluster (snd (persistStateSecret ctl match42 round7 stored (world [node] []))) in
  boundedRanges portRanges /\ portsInRange (Ports stored) /\
  AllocateWithSecrets portRanges (kube.services cl)
    (kube.ListSecrets tournamentSelector cl) =
    Ok {| aGame := 30001; aSourceTV := 30301; aClient := 40001; aSteam := 29001 |} /\
  (30000 : Z) ∉ [30001; 30301; 40001; 29001].
Proof.
  cbn zeta.
  assert (Hb : boundedRanges portRanges) by (vm_compute; intuition discriminate).
  assert (Hr : portsInRange (Ports stored)) by (vm_compute; intuition discriminate).
  split; [exact Hb|]. split; [exact Hr|].
  assert (Hrun :
    let cl := cluster (snd (persistStateSecret ctl match42 round7 stored (world [node] []))) in
    AllocateWithSecrets portRanges (kube.services cl)
      (kube.ListSecrets tournamentSelector cl) =
    Ok {| aGame := 30001; aSourceTV := 30301; aClient := 40001; aSteam := 29001 |})
    by (vm_compute; reflexivity).
  split; [exact Hrun|].
  apply (persisted_ports_are_held ctl match42 round7 stored (world [node] [])
           portRanges _ Hb Hr Hrun 30000).
  - apply list_elem_of_In. left. reflexivity.
  - lia.
Defined.

End AllocatorComposeExamples.

Section AllocatorCollide.
Import config ports AllocatorSpec AllocatorSecretsSpec.

(** X4: for ranges that [Validate] accepts and that end below the
    largest [int]: once a service of the namespace lists the four ports
    of an assignment returned by [Allocate] among its node-ports, a
    later [Allocate] returns none of them. *)
Theorem allocations_do_not_collide ranges items items' a b :
  boundedRanges ranges -> validRanges ranges ->
  Allocate ranges items = Ok a ->
  (exists svc, svc ∈ items' /\
               forall p, p ∈ portsOf a -> {| NodePort := p |} ∈ svcPorts svc) ->
  Allocate ranges items' = Ok b ->
  forall p, p ∈ portsOf a -> p ∉ portsOf b.
Proof.
  intros Hb (Vg & Vs & Vc & Vt) Ha (svc & Hsvc & Hports) Hb' p Hp Hin.
  destruct (Allocate_cases ranges items Hb) as [(a' & Ha' & Hspec)|(e & He & _)];
    [|by rewrite He in Ha].
  rewrite Ha in Ha'. injection Ha' as <-.
  destruct (Allocate_cases ranges items' Hb) as [(b' & Hb'' & Hspec')|(e & He & _)];
    [|by rewrite He in Hb'].
  rewrite Hb' in Hb''. injection Hb'' as <-.
  apply allocationOf_picksFrom in Hspec, Hspec'.
  destruct (picksFrom_distinct _ _ _ Hspec) as (_ & (Ig & Is & Ic & It) & _).
  destruct (picksFrom_distinct _ _ _ Hspec') as (_ & _ & Hfree).
  apply (Hfree p Hin). exists svc, {| NodePort := p |}.
  split; [done|]. split; [by apply Hports|]. split; [|done]. cbn.
  unfold validRange, inRange in *. apply elem_of_portsOf in Hp.
  destruct Hp as [-> | [-> | [-> | ->]]]; lia.
Qed.

Lemma allocations_do_not_collide_witness :
  let a := {| aGame := 30000; aSourceTV := 30300; aClient := 40000; aSteam := 29000 |} in
  let b := {| aGame := 30001; aSourceTV := 30301; aClient := 40001; aSteam := 29001 |} in
  let svc :=
    {| svcName := "udl-42-r7";
       svcPorts := [ {| NodePort := 30000 |}; {| NodePort := 30000 |};
                     {| NodePort := 30300 |}; {| NodePort := 40000 |};
                     {| NodePort := 29000 |} ] |} in
  Allocate example.portRanges [] = Ok a /\
  Allocate example.portRanges [svc] = Ok b /\
  forall p, p ∈ portsOf a -> p ∉ portsOf b.
Proof.
  intros a b svc.
  assert (Hb : boundedRanges example.portRanges) by (vm_compute; intuition discriminate).
  assert (Hv : validRanges example.portRanges) by (vm_compute; intuition discriminate).
  assert (H1 : Allocate example.portRanges [] = Ok a) by (by vm_compute).
  assert (H2 : Allocate example.portRanges [svc] = Ok b) by (by vm_compute).
  split; [exact H1|]. split; [exact H2|].
  apply (allocations_do_not_collide example.portRanges [] [svc] a b Hb Hv H1); [|exact H2].
  exists svc. split; [apply list_elem_of_In; left; reflexivity|].
  intros p Hp. apply elem_of_portsOf in Hp. cbn in Hp. cbn [svcPorts svc].
  destruct Hp as [-> | [-> | [-> | ->]]]; set_solver.
Defined.

End AllocatorCollide.

(** ** Loading the configuration *)

Section Text.
Import strconv TextSpec.

Lemma Atoi_in_range s z : Atoi s = Ok z -> GoInt.in_range z.
Proof.
  unfold Atoi. destruct s as [|ch rest]; [done|].
  destruct (if Ascii.eqb ch "-" || Ascii.eqb ch "+" then rest else String ch rest);
    [done|].
  destruct (NilEmpty.uint_of_string _) as [d|]; [|done].
  destruct (GoInt.in_rangeb _) eqn:Hr; [|done].
  intros [= <-]. by apply in_rangeb_spec.
Qed.

Lemma allOf_app P a b : allOf P (a +:+ b) = allOf P a && allOf P b.
Proof.
  induction a as [|ch a IH]; [done|]. simpl. by rewrite IH, andb_assoc.
Qed.

Lemma allOf_weaken (P Q : ascii -> bool) s :
  (forall ch, P ch = true -> Q ch = true) -> allOf P s = true -> allOf Q s = true.
Proof.
  intros HPQ. induction s as [|ch s IH]; [done|]. cbn.
  intros [Hch Hs]%andb_true_iff. by rewrite (HPQ _ Hch), IH.
Qed.

Lemma string_of_uint_allDigits d : allOf isDigit (NilEmpty.string_of_uint d) = true.
Proof. induction d; cbn; auto. Qed.

Lemma Itoa_allDecimal z : allOf isDecimal (Itoa z) = true.
Proof.
  assert (Hu : forall d, allOf isDecimal (NilZero.string_of_uint d) = true).
  { intros d. apply allOf_weaken with (P := isDigit).
    - intros ch Hch. unfold isDecimal. by rewrite Hch.
    - unfold NilZero.string_of_uint. destruct d; try apply string_of_uint_allDigits.
      reflexivity. }
  unfold Itoa. destruct (Z.to_int z) as [d|d]; cbn [NilZero.string_of_int].
  - apply Hu.
  - cbn. apply Hu.
Qed.

Lemma Itoa_pos_allDigits z : 0 < z -> allOf isDigit (Itoa z) = true.
Proof.
  intros Hz. unfold Itoa. destruct z as [|p|p]; [lia| |lia].
  cbn [Z.to_int NilZero.string_of_int]. unfold NilZero.string_of_uint.
  destruct (Pos.to_uint p); try apply string_of_uint_allDigits. reflexivity.
Qed.

Lemma Split_none P s sep :
  P sep = false -> allOf P s = true -> strings.Split s sep = [s].
Proof.
  intros Hsep. induction s as [|ch s IH]; [done|]. cbn.
  intros [Hch Hs]%andb_true_iff.
  destruct (Ascii.eqb_spec ch sep) as [->|_]; [congruence|].
  by rewrite (IH Hs).
Qed.

Lemma Split_app P a b sep :
  P sep = false -> allOf P a = true ->
  strings.Split (a +:+ String sep b) sep = a :: strings.Split b sep.
Proof.
  intros Hsep. induction a as [|ch a IH].
  - intros _. simpl. by rewrite Ascii.eqb_refl.
  - simpl. intros [Hch Ha]%andb_true_iff.
    destruct (Ascii.eqb_spec ch sep) as [->|_]; [congruence|].
    by rewrite (IH Ha).
Qed.

End Text.

Section Config.
Import config strconv TextSpec AllocatorSpec AllocatorSecretsSpec.
Context `{GoRuntime}.
Variable Quote : string -> string.

Lemma Validate_valid r : Validate r = Ok tt <-> validRange r.
Proof.
  unfold Validate, validRange.
  destruct (Z.leb_spec (Start r) 0), (Z.leb_spec (End_ r) 0); cbn;
    try (split; [done|lia]).
  destruct (Z.ltb_spec (End_ r) (Start r)); split; try done; lia.
Qed.

Lemma parsePortRange_inv raw r :
  parsePortRange Quote raw = Ok r ->
  exists first second,
    strings.Split (TrimSpace raw) "-" = [first; second] /\
    Atoi (TrimSpace first) = Ok (Start r) /\
    Atoi (TrimSpace second) = Ok (End_ r) /\
    validRange r.
Proof.
  unfold parsePortRange.
  destruct (strings.Split (TrimSpace raw) "-") as [|first [|second [|]]]; try done.
  destruct (Atoi (TrimSpace first)) as [start|] eqn:Hs; [|done].
  destruct (Atoi (TrimSpace second)) as [end_|] eqn:He; [|done].
  destruct (Validate _) as [[]|] eqn:Hv; [|done].
  intros [= <-]. exists first, second. cbn [Start End_].
  split; [done|]. split; [done|]. split; [done|]. by apply Validate_valid in Hv.
Qed.

(** X5: a range returned by [parsePortRange] has
    0 < Start <= End <= 2^63-1, and the trimmed text consists of exactly
    two fields around one minus sign, whose trimmed contents
    [strconv.Atoi] reads as Start and End. *)
Theorem parsePortRange_accepts_valid_ranges raw r :
  parsePortRange Quote raw = Ok r ->
  0 < Start r <= End_ r /\ End_ r <= GoInt.max_int /\
  exists first second,
    strings.Split (TrimSpace raw) "-" = [first; second] /\
    Atoi (TrimSpace first) = Ok (Start r) /\
    Atoi (TrimSpace second) = Ok (End_ r).
Proof.
  intros (first & second & Hsplit & Hs & He & Hv)%parsePortRange_inv.
  split; [exact Hv|]. split; [by apply Atoi_in_range in He as [_ ?]|]. eauto.
Qed.

(** X6: [parsePortRange] reads back the decimal text start-end of every
    range with 0 < Start <= End <= 2^63-1, provided trimming leaves the
    text and its two numbers unchanged. *)
Theorem parsePortRange_reads_printed_range r :
  0 < Start r <= End_ r -> End_ r <= GoInt.max_int ->
  let text := Itoa (Start r) +:+ "-" +:+ Itoa (End_ r) in
  TrimSpace text = text ->
  TrimSpace (Itoa (Start r)) = Itoa (Start r) ->
  TrimSpace (Itoa (End_ r)) = Itoa (End_ r) ->
  parsePortRange Quote text = Ok r.
Proof.
  intros Hv Hmax text Ht Hs He. unfold parsePortRange. rewrite Ht. subst text.
  assert (Hsplit : strings.Split (Itoa (Start r) +:+ "-" +:+ Itoa (End_ r)) "-" =
                   [Itoa (Start r); Itoa (End_ r)]).
  { change ("-" +:+ Itoa (End_ r)) with (String "-" (Itoa (End_ r))).
    rewrite (Split_app isDigit); [|done|apply Itoa_pos_allDigits; lia].
    rewrite (Split_none isDigit); [done|done|apply Itoa_pos_allDigits; lia]. }
  rewrite Hsplit, Hs, He.
  rewrite !Atoi_Itoa by (unfold GoInt.in_range, GoInt.min_int, GoInt.max_int in *; lia).
  assert (Hok : Validate {| Start := Start r; End_ := End_ r |} = Ok tt)
    by (by apply Validate_valid).
  rewrite Hok. by destruct r.
Qed.

Lemma loadPortConfig_valid env ranges :
  loadPortConfig Quote env = Ok ranges -> validRanges ranges.
Proof.
  unfold loadPortConfig.
  destruct (parsePortRange _ (getEnv env "PORT_RANGE_GAME" _)) as [g|] eqn:Hg; [|done].
  destruct (parsePortRange _ (getEnv env "PORT_RANGE_SOURCETV" _)) as [s|] eqn:Hs; [|done].
  destruct (parsePortRange _ (getEnv env "PORT_RANGE_CLIENT" _)) as [c|] eqn:Hc; [|done].
  destruct (parsePortRange _ (getEnv env "PORT_RANGE_STEAM" _)) as [t|] eqn:Ht; [|done].
  intros [= <-]. unfold validRanges. cbn.
  apply parsePortRange_inv in Hg as (? & ? & _ & _ & _ & ?).
  apply parsePortRange_inv in Hs as (? & ? & _ & _ & _ & ?).
  apply parsePortRange_inv in Hc as (? & ? & _ & _ & _ & ?).
  apply parsePortRange_inv in Ht as (? & ? & _ & _ & _ & ?).
  auto.
Qed.

(** X7: with the port ranges that [loadPortConfig] returned from the
    environment, when they end below the largest [int], every port
    that [Allocate] hands out is positive. *)
Theorem loaded_ranges_give_positive_ports env ranges items a :
  loadPortConfig Quote env = Ok ranges ->
  boundedRanges ranges ->
  ports.Allocate ranges items = Ok a ->
  forall p, p ∈ portsOf a -> 0 < p.
Proof.
  intros Hload Hb Ha p Hp.
  destruct (loadPortConfig_valid _ _ Hload) as (Vg & Vs & Vc & Vt).
  destruct (Allocate_cases ranges items Hb) as [(a' & Ha' & Hspec)|(e & He & _)];
    [|by rewrite He in Ha].
  rewrite Ha in Ha'. injection Ha' as <-.
  apply allocationOf_picksFrom in Hspec.
  destruct (picksFrom_distinct _ _ _ Hspec) as (_ & (Ig & Is & Ic & It) & _).
  unfold validRange, inRange in *. apply elem_of_portsOf in Hp.
  destruct Hp as [-> | [-> | [-> | ->]]]; lia.
Qed.

End Config.

Section ConfigSlices.
Import config strconv TextSpec.
Context `{GoRuntime}.

Lemma Split_Join_decimal xs :
  xs <> [] ->
  strings.Split (strings.Join (map Itoa xs) ",") "," = map Itoa xs.
Proof.
  induction xs as [|x xs IH]; [done|]. intros _.
  destruct xs as [|y xs].
  - cbn [map strings.Join]. apply (Split_none isDecimal); [done|apply Itoa_allDecimal].
  - change (strings.Join (map Itoa (x :: y :: xs)) ",")
      with (Itoa x +:+ String "," (strings.Join (map Itoa (y :: xs)) ",")).
    rewrite (Split_app isDecimal); [|done|apply Itoa_allDecimal].
    by rewrite IH.
Qed.

Lemma parseParts_Itoa xs :
  Forall (fun x => GoInt.in_range x /\ TrimSpace (Itoa x) = Itoa x) xs ->
  parseParts (map Itoa xs) = Ok xs.
Proof.
  induction 1 as [|x xs [Hr Ht] _ IH]; [done|].
  cbn [map parseParts]. by rewrite Ht, (Atoi_Itoa x Hr), IH.
Qed.

(** X8: [parseIntSlice] reads the decimal texts of a list of [int]s
    joined by commas back as that list (the empty list from the empty
    text), provided trimming leaves the joined text and every number
    unchanged. *)
Theorem parseIntSlice_reads_joined_numbers xs :
  let text := strings.Join (map Itoa xs) "," in
  Forall (fun x => GoInt.in_range x /\ TrimSpace (Itoa x) = Itoa x) xs ->
  TrimSpace text = text ->
  parseIntSlice text = Ok xs.
Proof.
  intros text Hxs Ht. unfold parseIntSlice. rewrite Ht.
  destruct xs as [|x xs]; [done|].
  destruct (String.eqb_spec text EmptyString) as [He|_].
  - exfalso. subst text. destruct xs as [|y xs].
    + cbn in He. by apply Itoa_nonempty in He.
    + change (strings.Join (map Itoa (x :: y :: xs)) ",")
        with (Itoa x +:+ String "," (strings.Join (map Itoa (y :: xs)) ",")) in He.
      destruct (Itoa x); discriminate.
  - subst text. rewrite Split_Join_decimal by done. by apply parseParts_Itoa.
Qed.

(** X9: no entry of the list that [parseStringSlice] returns is empty;
    each one is the trimmed text of a field between commas of the
    trimmed input, and that input is not blank. *)
Theorem parseStringSlice_has_no_blank_entry raw value :
  value ∈ parseStringSlice raw ->
  value <> EmptyString /\
  TrimSpace raw <> EmptyString /\
  exists part, part ∈ strings.Split (TrimSpace raw) "," /\ value = TrimSpace part.
Proof.
  unfold parseStringSlice.
  destruct (String.eqb_spec (TrimSpace raw) EmptyString) as [He|Hne].
  - intros Hin. by apply elem_of_nil in Hin.
  - intros (part & Hpart & Hv)%list_elem_of_omap.
    destruct (String.eqb_spec (TrimSpace part) EmptyString) as [Hb|Hb]; [done|].
    cbn in Hv. injection Hv as <-. eauto.
Qed.

End ConfigSlices.

Section ConfigExamples.
Import config strconv TextSpec AllocatorSpec AllocatorSecretsSpec ascii_runtime.

Lemma parsePortRange_accepts_valid_ranges_witness :
  parsePortRange quote " 30000 - 30299 " = Ok (example.range 30000 30299) /\
  0 < 30000 <= 30299.
Proof.
  assert (Hrun : parsePortRange quote " 30000 - 30299 " = Ok (example.range 30000 30299))
    by (by vm_compute).
  split; [exact Hrun|].
  exact (proj1 (parsePortRange_accepts_valid_ranges quote _ _ Hrun)).
Defined.

Lemma parsePortRange_reads_printed_range_witness :
  parsePortRange quote "30000-30299" = Ok (example.range 30000 30299).
Proof.
  apply (parsePortRange_reads_printed_range quote (example.range 30000 30299)).
  - cbn. lia.
  - by vm_compute.
  - by vm_compute.
  - by vm_compute.
  - by vm_compute.
Defined.

Lemma loaded_ranges_give_positive_ports_witness :
  loadPortConfig quote ∅ = Ok example.portRanges /\
  forall p, p ∈ [30000; 30300; 40000; 29000] -> 0 < p.
Proof.
  assert (Hload : loadPortConfig quote ∅ = Ok example.portRanges) by (by vm_compute).
  assert (Hb : AllocatorSpec.boundedRanges example.portRanges)
    by (vm_compute; intuition discriminate).
  split; [exact Hload|].
  apply (loaded_ranges_give_positive_ports quote ∅ example.portRanges []
           {| ports.aGame := 30000; ports.aSourceTV := 30300;
              ports.aClient := 40000; ports.aSteam := 29000 |} Hload Hb).
  by vm_compute.
Defined.

Lemma parseIntSlice_reads_joined_numbers_witness :
  parseIntSlice "0,3,-1" = Ok [0; 3; -1].
Proof.
  apply (parseIntSlice_reads_joined_numbers [0; 3; -1]).
  - repeat constructor; by vm_compute.
  - by vm_compute.
Defined.

Lemma parseStringSlice_has_no_blank_entry_witness :
  parseStringSlice " invite, ,premier ," = ["invite"; "premier"] /\
  ("premier" : string) <> EmptyString.
Proof.
  assert (Hrun : parseStringSlice " invite, ,premier ," = ["invite"; "premier"])
    by (by vm_compute).
  split; [exact Hrun|].
  refine (proj1 (parseStringSlice_has_no_blank_entry " invite, ,premier ," "premier" _)).
  rewrite Hrun. apply list_elem_of_In. right. left. reflexivity.
Defined.

End ConfigExamples.

(** ** Fallbacks, filters and node addresses *)

Section PureController.
Import controller ReconcilerSpec TextSpec.
Context `{GoRuntime}.

(** X10: [preferValue] returns the trimmed text of the first candidate
    (the primary value, then the fallbacks in order) that is not blank
    after trimming, and the empty string when every candidate is
    blank. *)
Theorem preferValue_first_non_blank primary fallbacks :
  (Forall blank (primary :: fallbacks) /\
   preferValue primary fallbacks = EmptyString) \/
  (exists before c after,
     primary :: fallbacks = before ++ c :: after /\ Forall blank before /\
     ~ blank c /\ preferValue primary fallbacks = TrimSpace c).
Proof.
  unfold preferValue. generalize (primary :: fallbacks). intros candidates.
  induction candidates as [|c rest IH]; [by left|].
  cbn [firstNonBlank].
  destruct (String.eqb_spec (TrimSpace c) EmptyString) as [Hb|Hb]; cbn [negb].
  - destruct IH as [[Hall Hres]|(before & c' & after & -> & Hbefore & Hc & Hres)].
    + left. split; [by constructor|done].
    + right. exists (c :: before), c', after. split; [done|].
      split; [by constructor|done].
  - right. exists [], c, rest. split; [done|]. split; [constructor|done].
Qed.

Lemma Contains_empty f : f <> EmptyString -> strings.Contains EmptyString f = false.
Proof. by destruct f. Qed.

Lemma anyFilterIn_iff normalized filters :
  anyFilterIn normalized filters = true <->
  exists f, f ∈ filters /\ f <> EmptyString /\ strings.Contains normalized f = true.
Proof.
  induction filters as [|f filters IH]; cbn [anyFilterIn].
  - split; [done|]. intros (f & Hin & _). by apply elem_of_nil in Hin.
  - destruct (String.eqb_spec f EmptyString) as [->|Hne].
    + rewrite IH. split.
      * intros (g & Hin & Hg). exists g. split; [by right|done].
      * intros (g & Hin & Hg & Hc). apply elem_of_cons in Hin as [->|Hin]; [done|].
        eauto.
    + destruct (strings.Contains normalized f) eqn:Hc.
      * split; [|done]. intros _. exists f. split; [left|]; done.
      * rewrite IH. split.
        -- intros (g & Hin & Hg). exists g. split; [by right|done].
        -- intros (g & Hin & Hg & Hc'). apply elem_of_cons in Hin as [->|Hin];
             [congruence|eauto].
Qed.

(** X11: [divisionMatchesFilter] admits a division exactly when the
    filter list is empty or the trimmed, lowercased name contains one
    of the non-empty filters. *)
Theorem divisionMatchesFilter_iff (c : Controller) name :
  let filters := config.DivisionFilters (config.Match (cfg c)) in
  divisionMatchesFilter c name = true <->
  filters = [] \/
  exists f, f ∈ filters /\ f <> EmptyString /\
            strings.Contains (ToLower (TrimSpace name)) f = true.
Proof.
  intros filters. unfold divisionMatchesFilter. subst filters.
  destruct (config.DivisionFilters (config.Match (cfg c))) as [|f0 rest];
    [cbn; split; auto|].
  cbn [length Nat.eqb].
  destruct (String.eqb_spec (ToLower (TrimSpace name)) EmptyString) as [He|Hne].
  - rewrite He. split; [done|]. intros [|(f & _ & Hne & Hc)]; [done|].
    by rewrite Contains_empty in Hc.
  - rewrite anyFilterIn_iff. split; [auto|]. by intros [|].
Qed.

End PureController.

Section NodeAddress.
Import controller ReconcilerSpec.
Context `{GoRuntime}.
Variable c : Controller.

(** What one pass over a list of addresses establishes. *)
Lemma scanAddresses_spec addrs : forall candidate,
  match scanAddresses c addrs candidate with
  | Return ip =>
      exists a, a ∈ addrs /\ kube.Address a = ip /\ isExternalIP a = true /\
                isIPv4 ip = true /\ externalFirst c = true
  | Candidate candidate' =>
      (forall a, a ∈ addrs -> isExternalIP a = true ->
                 isIPv4 (kube.Address a) = true -> externalFirst c = false) /\
      (candidate' = candidate \/
       candidate = EmptyString /\
       exists a, a ∈ addrs /\ kube.Address a = candidate' /\
                 isInternalIP a = true /\ isIPv4 candidate' = true) /\
      (candidate' = EmptyString ->
       candidate = EmptyString /\
       forall a, a ∈ addrs -> isInternalIP a = true ->
                 isIPv4 (kube.Address a) = true -> kube.Address a = EmptyString)
  end.
Proof.
  induction addrs as [|addr rest IH]; intros candidate; cbn [scanAddresses].
  - split; [|split; [by left|]].
    + intros a Ha. by apply elem_of_nil in Ha.
    + intros ->. split; [done|]. intros a Ha. by apply elem_of_nil in Ha.
  - change (String.eqb (config.NodeIPPreference_ (config.Networking (cfg c)))
              config.NodeIPExternalFirst) with (externalFirst c).
    destruct (isExternalIP addr && isIPv4 (kube.Address addr) && externalFirst c)
      eqn:Hext.
    { apply andb_true_iff in Hext as [[He Hv]%andb_true_iff Hf].
      exists addr. split; [left|]. done. }
    assert (Hno : isExternalIP addr = true -> isIPv4 (kube.Address addr) = true ->
                  externalFirst c = false).
    { intros He Hv. rewrite He, Hv in Hext. exact Hext. }
    destruct (isInternalIP addr && isIPv4 (kube.Address addr) &&
              String.eqb candidate EmptyString) eqn:Hint.
    + apply andb_true_iff in Hint as [[Hi Hv]%andb_true_iff Hc].
      apply String.eqb_eq in Hc as ->.
      specialize (IH (kube.Address addr)).
      destruct (scanAddresses c rest (kube.Address addr)) as [ip|candidate'].
      * destruct IH as (a & Ha & Hrest). exists a. split; [by right|done].
      * destruct IH as (Hext' & Hcand & Hempty). split; [|split].
        -- intros a Ha. apply elem_of_cons in Ha as [->|Ha]; [done|by apply Hext'].
        -- right. split; [done|].
           destruct Hcand as [->|[_ (a & Ha & Hrest)]].
           ++ exists addr. split; [left|]. done.
           ++ exists a. split; [by right|done].
        -- intros ->. split; [done|]. destruct (Hempty eq_refl) as [Haddr Hall].
           intros a Ha. apply elem_of_cons in Ha as [->|Ha]; [done|by apply Hall].
    + specialize (IH candidate).
      destruct (scanAddresses c rest candidate) as [ip|candidate'].
      * destruct IH as (a & Ha & Hrest). exists a. split; [by right|done].
      * destruct IH as (Hext' & Hcand & Hempty). split; [|split].
        -- intros a Ha. apply elem_of_cons in Ha as [->|Ha]; [done|by apply Hext'].
        -- destruct Hcand as [->|[-> (a & Ha & Hrest)]]; [by left|].
           right. split; [done|]. exists a. split; [by right|done].
        -- intros ->. destruct (Hempty eq_refl) as [-> Hall]. split; [done|].
           intros a Ha Hi Hv. apply elem_of_cons in Ha as [->|Ha]; [|by apply Hall].
           rewrite Hi, Hv in Hint. cbn in Hint. discriminate.
Qed.

Lemma scanNodes_spec items : forall candidate,
  let listed a := exists node, node ∈ items /\ a ∈ kube.Addresses node in
  match scanNodes c items candidate with
  | Return ip =>
      exists a, listed a /\ kube.Address a = ip /\ isExternalIP a = true /\
                isIPv4 ip = true /\ externalFirst c = true
  | Candidate candidate' =>
      (forall a, listed a -> isExternalIP a = true ->
                 isIPv4 (kube.Address a) = true -> externalFirst c = false) /\
      (candidate' = candidate \/
       candidate = EmptyString /\
       exists a, listed a /\ kube.Address a = candidate' /\
                 isInternalIP a = true /\ isIPv4 candidate' = true) /\
      (candidate' = EmptyString ->
       candidate = EmptyString /\
       forall a, listed a -> isInternalIP a = true ->
                 isIPv4 (kube.Address a) = true -> kube.Address a = EmptyString)
  end.
Proof.
  induction items as [|node rest IH]; intros candidate listed; cbn [scanNodes].
  - split; [|split; [by left|]].
    + intros a (node & Hn & _). by apply elem_of_nil in Hn.
    + intros ->. split; [done|]. intros a (node & Hn & _). by apply elem_of_nil in Hn.
  - pose proof (scanAddresses_spec (kube.Addresses node) candidate) as Hnode.
    destruct (scanAddresses c (kube.Addresses node) candidate) as [ip|candidate1].
    { destruct Hnode as (a & Ha & Hrest). exists a. split; [|done].
      exists node. split; [left|done]. }
    destruct Hnode as (Hext1 & Hcand1 & Hempty1).
    specialize (IH candidate1). cbn zeta in IH.
    destruct (scanNodes c rest candidate1) as [ip|candidate'].
    + destruct IH as (a & (n & Hn & Ha) & Hrest). exists a. split; [|done].
      exists n. split; [by right|done].
    + destruct IH as (Hext' & Hcand & Hempty). split; [|split].
      * intros a (n & Hn & Ha). apply elem_of_cons in Hn as [->|Hn].
        -- by apply Hext1.
        -- apply Hext'. by exists n.
      * destruct Hcand as [->|[-> (a & (n & Hn & Ha) & Hrest)]].
        -- destruct Hcand1 as [->|[-> (a & Ha & Hrest)]]; [by left|].
           right. split; [done|]. exists a. split; [|done].
           exists node. split; [left|done].
        -- destruct Hcand1 as [<-|[-> (a1 & Ha1 & Hrest1 & _)]].
           ++ right. split; [done|]. exists a. split; [|done].
              exists n. split; [by right|done].
           ++ right. split; [done|]. exists a. split; [|done].
              exists n. split; [by right|done].
      * intros ->. destruct (Hempty eq_refl) as [-> Hall].
        destruct (Hempty1 eq_refl) as [-> Hall1]. split; [done|].
        intros a (n & Hn & Ha). apply elem_of_cons in Hn as [->|Hn].
        -- by apply Hall1.
        -- apply Hall. by exists n.
Qed.

(** X12: [pickNodeIP] leaves the world as it is.  An address it returns
    is listed by a node, passes [isIPv4], and is either of type
    ExternalIP, which happens only under the external-first preference,
    or a non-empty address of type InternalIP.  It fails, with the
    message that no suitable node IP was found, only when no listed
    IPv4 address is external under the external-first preference and
    every listed internal IPv4 address is the empty string. *)
Theorem pickNodeIP_result w :
  snd (pickNodeIP c w) = w /\
  match fst (pickNodeIP c w) with
  | Ok ip =>
      exists a,
        listedAddress (cluster w) a /\ kube.Address a = ip /\ isIPv4 ip = true /\
        (isExternalIP a = true /\ externalFirst c = true \/
         isInternalIP a = true /\ ip <> EmptyString)
  | Err e =>
      e = errorString "no suitable node IP found" /\
      forall a, listedAddress (cluster w) a -> isIPv4 (kube.Address a) = true ->
        (isExternalIP a = true -> externalFirst c = false) /\
        (isInternalIP a = true -> kube.Address a = EmptyString)
  end.
Proof.
  split; [reflexivity|]. unfold pickNodeIP, readCluster. cbn [fst].
  pose proof (scanNodes_spec (kube.nodes (cluster w)) EmptyString) as Hscan.
  cbn zeta in Hscan.
  destruct (scanNodes c (kube.nodes (cluster w)) EmptyString) as [ip|candidate].
  - destruct Hscan as (a & Hl & Ha & He & Hv & Hf). exists a.
    split; [exact Hl|]. split; [done|]. split; [done|]. by left.
  - destruct Hscan as (Hext & Hcand & Hempty).
    destruct (String.eqb_spec candidate EmptyString) as [->|Hne]; cbn [negb].
    + split; [done|]. intros a Hl Hv. destruct (Hempty eq_refl) as [_ Hall]. split.
      * intros He. by apply (Hext a).
      * intros Hi. by apply Hall.
    + destruct Hcand as [->|[_ (a & Hl & Ha & Hi & Hv)]]; [done|].
      exists a. split; [exact Hl|]. split; [done|]. split; [done|]. by right.
Qed.

(** X13: under the external-first preference, when some node lists an
    external IPv4 address, [pickNodeIP] returns an external IPv4
    address, whatever internal addresses come before it. *)
Theorem pickNodeIP_prefers_external w a :
  externalFirst c = true ->
  listedAddress (cluster w) a -> isExternalIP a = true ->
  isIPv4 (kube.Address a) = true ->
  exists a', listedAddress (cluster w) a' /\ isExternalIP a' = true /\
             isIPv4 (kube.Address a') = true /\
             pickNodeIP c w = (Ok (kube.Address a'), w).
Proof.
  intros Hf Hl He Hv. unfold pickNodeIP, readCluster.
  pose proof (scanNodes_spec (kube.nodes (cluster w)) EmptyString) as Hscan.
  cbn zeta in Hscan.
  destruct (scanNodes c (kube.nodes (cluster w)) EmptyString) as [ip|candidate].
  - destruct Hscan as (a' & Hl' & <- & He' & Hv' & _). by exists a'.
  - destruct Hscan as (Hext & _). specialize (Hext a Hl He Hv). congruence.
Qed.

End NodeAddress.

(** ** Generated secrets and names *)

Section Secrets.
Import controller ReconcilerSpec TextSpec.

Lemma alphabetAt_alphanumeric idx :
  isAlphanumeric (alphabetAt (idx mod String.length alphabet)) = true.
Proof.
  assert (Hall : forallb (fun i => isAlphanumeric (alphabetAt i))
                         (List.seq 0 (String.length alphabet)) = true)
    by (by vm_compute).
  rewrite forallb_forall in Hall. apply Hall, in_seq.
  pose proof (Nat.mod_upper_bound idx (String.length alphabet)) as Hlt.
  assert (String.length alphabet <> 0%nat) by (by vm_compute). lia.
Qed.

(** The loop of [generateSecret]: either every draw succeeds, or the
    first failing draw ends it. *)
Lemma drawBytes_spec n : forall w,
  match drawBytes n w with
  | (Ok s, w') =>
      String.length s = n /\ allOf isAlphanumeric s = true /\
      w' = set_draws (draws w + n) w /\
      forall i, (i < n)%nat -> is_Ok (entropy w (draws w + i)) = true
  | (Err e, w') =>
      exists i, (i < n)%nat /\ entropy w (draws w + i) = Err e /\
                w' = set_draws (draws w + S i) w /\
                forall j, (j < i)%nat -> is_Ok (entropy w (draws w + j)) = true
  end.
Proof.
  induction n as [|n IH]; intros w.
  - cbn. replace (draws w + 0)%nat with (draws w) by lia.
    split; [done|]. split; [done|]. split; [by destruct w|]. lia.
  - cbn [drawBytes]. unfold bind at 1. unfold randInt at 1.
    destruct (entropy w (draws w)) as [v|e] eqn:Hdraw.
    + specialize (IH (set_draws (S (draws w)) w)). unfold bind at 1.
      destruct (drawBytes n (set_draws (S (draws w)) w)) as [[s|e] w'].
      * destruct IH as (Hlen & Hall & -> & Hok). cbn [ret].
        split; [cbn; by rewrite Hlen|]. split.
        { cbn [allOf]. by rewrite alphabetAt_alphanumeric, Hall. }
        split.
        { unfold set_draws. cbn. f_equal. lia. }
        intros i Hi. destruct i as [|i].
        -- replace (draws w + 0)%nat with (draws w) by lia. by rewrite Hdraw.
        -- specialize (Hok i ltac:(lia)). cbn in Hok.
           by replace (draws w + S i)%nat with (S (draws w) + i)%nat by lia.
      * destruct IH as (i & Hi & Herr & -> & Hok). exists (S i).
        split; [lia|]. split.
        { cbn in Herr. by replace (draws w + S i)%nat with (S (draws w) + i)%nat by lia. }
        split.
        { unfold set_draws. cbn. f_equal. lia. }
        intros j Hj. destruct j as [|j].
        -- replace (draws w + 0)%nat with (draws w) by lia. by rewrite Hdraw.
        -- specialize (Hok j ltac:(lia)). cbn in Hok.
           by replace (draws w + S j)%nat with (S (draws w) + j)%nat by lia.
    + exists 0%nat. split; [lia|].
      replace (draws w + 0)%nat with (draws w) by lia. split; [done|].
      split; [unfold set_draws; cbn; f_equal; lia|]. lia.
Qed.

(** X14: for a length that is not negative, [generateSecret] either
    returns a text of exactly that length made of letters and digits,
    having drawn one value per character from the random source, all of
    them successfully; or it returns the error of the first draw that
    failed, and nothing is drawn after it. *)
Theorem generateSecret_result length w :
  0 <= length ->
  let n := Z.to_nat length in
  match generateSecret length w with
  | (Ok s, w') =>
      Z.of_nat (String.length s) = length /\ allOf isAlphanumeric s = true /\
      w' = set_draws (draws w + n) w /\
      forall i, (i < n)%nat -> is_Ok (entropy w (draws w + i)) = true
  | (Err e, w') =>
      exists i, (i < n)%nat /\ entropy w (draws w + i) = Err e /\
                w' = set_draws (draws w + S i) w /\
                forall j, (j < i)%nat -> is_Ok (entropy w (draws w + j)) = true
  end.
Proof.
  intros Hlen n. unfold generateSecret. fold n.
  pose proof (drawBytes_spec n w) as Hspec.
  destruct (drawBytes n w) as [[s|e] w']; [|exact Hspec].
  destruct Hspec as (Hs & Hrest). split; [|exact Hrest]. subst n. lia.
Qed.

End Secrets.

Section SecretsExamples.
Import controller ReconcilerSpec TextSpec example ascii_runtime.

Lemma generateSecret_result_witness :
  let w := world [node] [] in
  generateSecret 10 w = (Ok "abcdefghij", set_draws 10 w) /\
  allOf isAlphanumeric "abcdefghij" = true.
Proof.
  intros w.
  assert (Hrun : generateSecret 10 w = (Ok "abcdefghij", set_draws 10 w))
    by (by vm_compute).
  split; [exact Hrun|].
  pose proof (generateSecret_result 10 w ltac:(lia)) as Hspec.
  cbn zeta in Hspec. rewrite Hrun in Hspec. exact (proj1 (proj2 Hspec)).
Defined.

Lemma pickNodeIP_prefers_external_witness :
  let w := world [node] [] in
  exists a', listedAddress (cluster w) a' /\ isExternalIP a' = true /\
             isIPv4 (kube.Address a') = true /\
             pickNodeIP ctl w = (Ok (kube.Address a'), w).
Proof.
  intros w.
  apply (pickNodeIP_prefers_external ctl w
           {| kube.Type_ := kube.NodeExternalIP; kube.Address := "203.0.113.7" |}).
  - by vm_compute.
  - exists node. split; apply list_elem_of_In; [left|right; left]; reflexivity.
  - reflexivity.
  - by vm_compute.
Defined.

End SecretsExamples.

Section Names.
Import controller ReconcilerSpec TextSpec strconv.

Lemma append_cons ch (a b : string) : String ch a +:+ b = String ch (a +:+ b).
Proof. reflexivity. Qed.

Lemma append_assoc (a b d : string) : (a +:+ b) +:+ d = a +:+ (b +:+ d).
Proof. induction a as [|ch a IH]; [done|]. by rewrite !append_cons, IH. Qed.

Lemma append_length (a b : string) :
  String.length (a +:+ b) = (String.length a + String.length b)%nat.
Proof. induction a as [|ch a IH]; [done|]. rewrite append_cons. cbn. by rewrite IH. Qed.

Lemma append_cancel_r (a b t : string) : a +:+ t = b +:+ t -> a = b.
Proof.
  revert b. induction a as [|ch a IH]; intros [|ch' b];
    rewrite ?append_cons; intros Heq.
  - done.
  - apply (f_equal String.length) in Heq.
    rewrite ?append_length in Heq. cbn in Heq. rewrite ?append_length in Heq. lia.
  - apply (f_equal String.length) in Heq.
    rewrite ?append_length in Heq. cbn in Heq. rewrite ?append_length in Heq. lia.
  - injection Heq as -> Heq. by rewrite (IH b Heq).
Qed.

Lemma Itoa_inj a b :
  GoInt.in_range a -> GoInt.in_range b -> Itoa a = Itoa b -> a = b.
Proof.
  intros Ha Hb Heq. pose proof (Atoi_Itoa a Ha) as H1.
  rewrite Heq, (Atoi_Itoa b Hb) in H1. by injection H1.
Qed.

Lemma releaseName_inj m r m' r' :
  GoInt.in_range m -> GoInt.in_range r -> GoInt.in_range m' -> GoInt.in_range r' ->
  releaseName m r = releaseName m' r' -> m = m' /\ r = r'.
Proof.
  intros Hm Hr Hm' Hr'. unfold releaseName. intros Heq.
  apply (String.app_inj "udl-") in Heq.
  change ("-r" +:+ Itoa r) with ("-" +:+ String "r" (Itoa r)) in Heq.
  change ("-r" +:+ Itoa r') with ("-" +:+ String "r" (Itoa r')) in Heq.
  rewrite <- !append_assoc in Heq.
  apply (f_equal (fun s => strings.Split s "r")) in Heq.
  assert (Hd : forall z, allOf isDecimal (Itoa z +:+ "-") = true).
  { intros z. by rewrite allOf_app, Itoa_allDecimal. }
  rewrite !(Split_app isDecimal), !(Split_none isDecimal) in Heq
    by (done || apply Hd || apply Itoa_allDecimal).
  injection Heq as Hmm Hrr. apply append_cancel_r in Hmm.
  split; by apply Itoa_inj.
Qed.

(** X15: for match and round ids that are values of [int], the release
    name and the secret name determine the pair: two rounds with the
    same release name, or with the same secret name, have the same
    match id and the same round id. *)
Theorem names_identify_the_round m r m' r' :
  GoInt.in_range m -> GoInt.in_range r -> GoInt.in_range m' -> GoInt.in_range r' ->
  (releaseName m r = releaseName m' r' -> m = m' /\ r = r') /\
  (secretName (releaseName m r) = secretName (releaseName m' r') ->
   m = m' /\ r = r').
Proof.
  intros Hm Hr Hm' Hr'. split.
  - by apply releaseName_inj.
  - unfold secretName. intros Heq%append_cancel_r. by apply releaseName_inj.
Qed.

End Names.

(** ** The tick *)

Section NoClient.
Import controller Calls.
Context `{GoRuntime} `{steam.JSON}.
Context {X : Type} (f : World -> X).
Hypothesis Hcluster : forall cl w, f (set_cluster cl w) = f w.
Hypothesis Hdraws : forall n w, f (set_draws n w) = f w.
Hypothesis Hdb : forall d w, f (set_db d w) = f w.
Hypothesis Hevent :
  forall e w, kind e <> KSteam -> f (set_trace (trace w ++ [e]) w) = f w.
Variable c : Controller.
Hypothesis Hnone : steamClient c = None.

Lemma ignored_event e w :
  negb (isSteam (kind e)) = true -> f (set_trace (trace w ++ [e]) w) = f w.
Proof. intros He. apply Hevent. intros Hk. by rewrite Hk in He. Qed.

Lemma idle_generateSRCDSToken m r : preserves f (generateSRCDSToken c m r).
Proof. unfold generateSRCDSToken. rewrite Hnone. apply preserves_ret. Qed.

Lemma idle_cleanupSRCDSToken m r : preserves f (cleanupSRCDSToken c m r).
Proof. unfold cleanupSRCDSToken. rewrite Hnone. apply preserves_ret. Qed.

Lemma idle_ensureRound m r div league home away mapName details rel :
  preserves f (ensureRound c m r div league home away mapName details rel).
Proof.
  unfold ensureRound.
  apply preserves_bind; [apply frame_emit with (ignored := fun k => negb (isSteam k));
      first [done | apply ignored_event]|].
  intros _. apply preserves_bind.
  { unfold ensureState.
    apply preserves_bind; [apply preserves_wrap, preserves_readCluster|].
    intros [state|].
    - apply preserves_bind; [|intros; apply preserves_ret].
      unfold refreshState. destruct (String.eqb _ _); [|apply preserves_ret].
      apply preserves_bind; [|intros; apply preserves_ret].
      apply preserves_try, idle_generateSRCDSToken.
    - apply preserves_bind; [|intros; apply preserves_ret].
      unfold createState.
      apply preserves_bind.
      { apply preserves_wrap, frame_allocate with (ignored := fun k => negb (isSteam k));
        first [done | apply ignored_event]. }
      intros assign.
      apply preserves_bind; [by apply preserves_wrap, frame_generateSecret|intros pw].
      apply preserves_bind; [by apply preserves_wrap, frame_generateSecret|intros rcon].
      apply preserves_bind; [|intros; apply preserves_ret].
      apply preserves_try, idle_generateSRCDSToken. }
  intros fresh. apply preserves_bind.
  { apply frame_publishServer with (ignored := fun k => negb (isSteam k));
      first [done | apply ignored_event | intros; by apply preserves_onDB]. }
  intros nodeIP.
  apply frame_notifyTeams with (ignored := fun k => negb (isSteam k));
    first [done | apply ignored_event | intros; by apply preserves_onDB].
Qed.

Lemma idle_teardownRound m r div league home away mapName rel details :
  preserves f (teardownRound c m r div league home away mapName rel details).
Proof.
  unfold teardownRound.
  apply preserves_bind; [apply frame_emit with (ignored := fun k => negb (isSteam k));
      first [done | apply ignored_event]|].
  intros _.
  apply preserves_bind; [apply preserves_wrap, preserves_readCluster|intros loaded].
  apply preserves_bind.
  { apply preserves_wrap, frame_deleteHelmRelease with (ignored := fun k => negb (isSteam k));
      first [done | apply ignored_event]. }
  intros _.
  apply preserves_bind; [by apply preserves_wrap, preserves_onDB|intros _].
  apply preserves_bind; [by apply preserves_wrap, preserves_onCluster|intros _].
  apply preserves_bind; [|intros; apply preserves_ret].
  apply preserves_try, idle_cleanupSRCDSToken.
Qed.

Lemma preserves_forEach {A} (body : A -> M unit) items :
  (forall item, preserves f (body item)) -> preserves f (forEach body items).
Proof.
  intros Hbody. induction items as [|item items IH]; cbn [forEach].
  - apply preserves_ret.
  - apply preserves_bind; [apply Hbody|intros _; exact IH].
Qed.

Lemma idle_reconcileRound m div league home away r :
  preserves f (reconcileRound c m div league home away r).
Proof.
  unfold reconcileRound.
  apply preserves_bind; [apply preserves_try, preserves_readDB|intros looked].
  apply preserves_bind; [apply preserves_wrap, preserves_readDB|intros details].
  destruct (_ || _).
  - apply preserves_bind; [|intros; apply preserves_ret].
    apply preserves_try, idle_ensureRound.
  - destruct details as [d|]; [|apply preserves_ret].
    apply preserves_bind; [|intros; apply preserves_ret].
    apply preserves_try, idle_teardownRound.
Qed.

Lemma idle_reconcileMatch m : preserves f (reconcileMatch c m).
Proof.
  unfold reconcileMatch.
  apply preserves_bind; [apply preserves_wrap, preserves_readDB|intros division].
  destruct (negb _); [apply preserves_ret|].
  apply preserves_bind; [apply preserves_wrap, preserves_readDB|intros league].
  apply preserves_bind; [apply preserves_wrap, preserves_readDB|intros home].
  apply preserves_bind; [apply preserves_wrap, preserves_readDB|intros away].
  apply preserves_bind; [apply preserves_wrap, preserves_readDB|intros rounds].
  apply preserves_forEach. intros r. apply idle_reconcileRound.
Qed.

Lemma idle_reconcile : preserves f (reconcile c).
Proof.
  unfold reconcile.
  apply preserves_bind; [apply preserves_readDB|intros matches].
  apply preserves_forEach. intros m.
  apply preserves_bind; [|intros; apply preserves_ret].
  apply preserves_try, idle_reconcileMatch.
Qed.

End NoClient.

Section Tick.
Import controller Calls.
Context `{GoRuntime} `{steam.JSON}.

(** X16: a controller built by [New] from a configuration whose auto
    tokens are off, or whose API key is empty, sends no request to the
    identity registry during a tick, whatever the token-cleanup switch
    says. *)
Theorem no_registry_request_without_auto_tokens cfg rend w :
  config.EnableAutoTokens (config.Steam cfg) = false \/
  config.APIKey (config.Steam cfg) = EmptyString ->
  callsOf isSteam (snd (reconcile (New cfg rend) w)) = callsOf isSteam w.
Proof.
  intros Hoff. apply (idle_reconcile (callsOf isSteam)); try done.
  - intros e w0 Hk. apply callsOf_event. by destruct (kind e).
  - cbn. destruct Hoff as [-> | ->]; [done|]. by rewrite andb_false_r.
Qed.

Lemma forEach_try_run {A} (body : A -> M unit) items : forall w,
  forEach (fun item => bind (try (body item)) (fun _ => ret tt)) items w =
  (Ok tt, foldl (fun w item => snd (body item w)) w items).
Proof.
  induction items as [|item items IH]; intros w; [done|].
  rewrite forEach_cons. unfold bind at 1, try at 1.
  destruct (body item w) as [r w1] eqn:Hrun. cbn [ret].
  rewrite IH. cbn [foldl]. by rewrite Hrun.
Qed.

Lemma bind_readDB {A B} (g : database.DB -> Result A) (k : A -> M B) w :
  bind (readDB g) k w =
  match g (db w) with
  | Ok a => k a w
  | Err e => (Err e, w)
  end.
Proof. reflexivity. Qed.

(** X17: when the matches cannot be fetched, [reconcile] returns the
    error of the query and leaves the world as it is; otherwise it
    returns without an error, and the world is the one left by
    [reconcileMatch] run on every fetched match in order, whether or
    not an earlier match failed. *)
Theorem reconcile_visits_every_match (c : Controller) w :
  match database.FetchMatches (db w) (config.TargetStatuses (config.Match (cfg c))) with
  | Ok matches =>
      reconcile c w =
      (Ok tt, foldl (fun w match_ => snd (reconcileMatch c match_ w)) w matches)
  | Err e => reconcile c w = (Err e, w)
  end.
Proof.
  unfold reconcile. rewrite bind_readDB.
  destruct (database.FetchMatches _ _) as [matches|e]; [|reflexivity].
  apply forEach_try_run.
Qed.

End Tick.

(** ** The state secret and the rounds *)

Section StateSecret.
Import controller Calls ReconcilerSpec.
Context `{GoRuntime} `{steam.JSON}.
Variable c : Controller.

Lemma loadServerState_run rel w :
  loadServerState rel w =
  (match kube.secrets (cluster w) !! secretName rel with
   | None => Ok None
   | Some secret =>
       match decodeState rel secret with
       | Err e => Err e
       | Ok state => Ok (Some state)
       end
   end, w).
Proof.
  unfold loadServerState, readCluster, kube.Get.
  by destruct (kube.secrets (cluster w) !! secretName rel).
Qed.

Lemma toInt_malformed secret key :
  match kube.Data secret !! key with
  | Some raw => is_Err (strconv.Atoi raw) = true
  | None => True
  end ->
  is_Err (toInt secret key) = true.
Proof.
  unfold toInt, parseKey. destruct (kube.Data secret !! key) as [raw|]; [|done].
  by destruct (String.eqb raw EmptyString).
Qed.

Lemma decodeState_malformed rel secret key :
  key ∈ [secretKeyGamePort; secretKeySourcePort; secretKeyClientPort;
         secretKeySteamPort] ->
  is_Err (toInt secret key) = true ->
  is_Err (decodeState rel secret) = true.
Proof.
  intros Hkey Herr. unfold decodeState.
  rewrite !elem_of_cons, elem_of_nil in Hkey.
  destruct (toInt secret secretKeyGamePort) eqn:Hg; [|done].
  destruct (toInt secret secretKeySourcePort) eqn:Hs; [|done].
  destruct (toInt secret secretKeyClientPort) eqn:Hc; [|done].
  destruct (toInt secret secretKeySteamPort) eqn:Ht; [|done].
  destruct Hkey as [-> | [-> | [-> | [-> | []]]]];
    rewrite ?Hg, ?Hs, ?Hc, ?Ht in Herr; discriminate.
Qed.

(** X18: when the secret of a round exists and one of its four port
    keys is missing or holds a text that [strconv.Atoi] rejects,
    [ensureRound] and [teardownRound] return the error of
    [loadServerState] wrapped with the name of the step, and nothing
    but the entry of the procedure is recorded: no port is allocated
    and nothing is written, applied or deleted. *)
Theorem malformed_secret_stops_the_round m r div league home away mapName
    details d rel w secret key :
  kube.secrets (cluster w) !! secretName rel = Some secret ->
  key ∈ [secretKeyGamePort; secretKeySourcePort; secretKeyClientPort;
         secretKeySteamPort] ->
  match kube.Data secret !! key with
  | Some raw => is_Err (strconv.Atoi raw) = true
  | None => True
  end ->
  exists e,
    ensureRound c m r div league home away mapName details rel w =
      (Err (wrapError "load server state" e),
       set_trace (trace w ++ [EvEnsureRound (database.mID m) (database.rID r)]) w) /\
    teardownRound c m r div league home away mapName rel d w =
      (Err (wrapError "load state for teardown" e),
       set_trace (trace w ++ [EvTeardownRound (database.mID m) (database.rID r)]) w).
Proof.
  intros Hsecret Hkey Hbad.
  pose proof (decodeState_malformed rel secret key Hkey (toInt_malformed _ _ Hbad))
    as Hdecode.
  destruct (decodeState rel secret) as [st|e] eqn:Hd; [done|]. exists e. split.
  - unfold ensureRound. rewrite bind_emit. unfold bind at 1. unfold ensureState.
    unfold bind at 1. unfold wrap at 1. rewrite loadServerState_run.
    cbn [cluster set_trace]. by rewrite Hsecret, Hd.
  - unfold teardownRound. rewrite bind_emit. unfold bind at 1.
    unfold wrap at 1. rewrite loadServerState_run.
    cbn [cluster set_trace]. by rewrite Hsecret, Hd.
Qed.

(** X19: [persistStateSecret] returns without an error and the world
    differs only in the secret named after the release of the state: it
    is the desired secret, with resource version 1 if none existed and
    with the version after the existing one otherwise; every other
    secret is as it was. *)
Theorem persistStateSecret_writes_one_secret m r s w :
  let name := secretName (ReleaseName s) in
  let version :=
    match kube.secrets (cluster w) !! name with
    | Some existing => S (kube.ResourceVersion existing)
    | None => 1%nat
    end in
  persistStateSecret c m r s w =
  (Ok tt,
   set_cluster
     (kube.set_secrets
        (<[name := kube.withVersion version (desiredSecret c m r s)]>
           (kube.secrets (cluster w))) (cluster w)) w) /\
  forall other, other <> name ->
    kube.secrets (cluster (snd (persistStateSecret c m r s w))) !! other =
    kube.secrets (cluster w) !! other.
Proof.
  intros name version.
  assert (Hrun : persistStateSecret c m r s w =
    (Ok tt,
     set_cluster
       (kube.set_secrets
          (<[name := kube.withVersion version (desiredSecret c m r s)]>
             (kube.secrets (cluster w))) (cluster w)) w)).
  { subst version name. unfold persistStateSecret, onCluster, kube.Get.
    change (kube.Name (desiredSecret c m r s)) with (secretName (ReleaseName s)).
    destruct (kube.secrets (cluster w) !! secretName (ReleaseName s))
      as [existing|] eqn:Hl.
    - unfold kube.Update.
      change (kube.Name (kube.withVersion _ (desiredSecret c m r s)))
        with (secretName (ReleaseName s)).
      rewrite Hl. cbn [kube.ResourceVersion kube.withVersion].
      by rewrite Nat.eqb_refl.
    - cbn [kube.IsNotFound]. unfold kube.Create.
      change (kube.Name (desiredSecret c m r s)) with (secretName (ReleaseName s)).
      by rewrite Hl. }
  split; [exact Hrun|]. intros other Hother. rewrite Hrun. cbn.
  by rewrite lookup_insert_ne.
Qed.

Lemma set_cluster_same w : set_cluster (cluster w) w = w.
Proof. by destruct w. Qed.

Lemma set_db_same w : set_db (db w) w = w.
Proof. by destruct w. Qed.

Lemma deleteStateSecret_run rel w :
  deleteStateSecret rel w =
  if kube.denied (cluster w) (secretName rel)
  then (Err (statusError Forbidden (secretName rel)), w)
  else
    (Ok tt,
     set_cluster
       (kube.set_secrets (delete (secretName rel) (kube.secrets (cluster w)))
                         (cluster w)) w).
Proof.
  unfold deleteStateSecret, onCluster, kube.Delete.
  destruct (kube.denied (cluster w) (secretName rel)).
  { cbn [kube.IsNotFound]. by rewrite set_cluster_same. }
  destruct (kube.secrets (cluster w) !! secretName rel) eqn:Hl; [done|].
  cbn [kube.IsNotFound]. rewrite delete_id by done. by destruct w as [[] ? ? ? ? ?].
Qed.

(** X20: unless the server refuses the deletion, [deleteStateSecret]
    returns without an error whether or not the secret exists;
    afterwards the secret of the release is absent, every other secret
    is as it was, and [loadServerState] returns no state.  When the
    server refuses the deletion, [deleteStateSecret] returns the error
    of the server and leaves the world as it was. *)
Theorem deleteStateSecret_removes_the_secret rel w :
  let out := deleteStateSecret rel w in
  if kube.denied (cluster w) (secretName rel)
  then out = (Err (statusError Forbidden (secretName rel)), w)
  else
    fst out = Ok tt /\
    kube.secrets (cluster (snd out)) !! secretName rel = None /\
    (forall other, other <> secretName rel ->
       kube.secrets (cluster (snd out)) !! other = kube.secrets (cluster w) !! other) /\
    loadServerState rel (snd out) = (Ok None, snd out).
Proof.
  cbn zeta. rewrite deleteStateSecret_run.
  destruct (kube.denied (cluster w) (secretName rel)); [done|]. cbn [fst snd].
  assert (Hgone : kube.secrets (cluster (set_cluster
            (kube.set_secrets (delete (secretName rel) (kube.secrets (cluster w)))
               (cluster w)) w)) !! secretName rel = None)
    by (cbn; apply lookup_delete_eq).
  split; [done|]. split; [exact Hgone|]. split.
  - intros other Hother. cbn. by rewrite lookup_delete_ne.
  - by apply loadServerState_absent.
Qed.

End StateSecret.

Section Rounds.
Import controller Calls ReconcilerSpec.
Context `{GoRuntime} `{steam.JSON}.
Variable c : Controller.

Lemma find_filter_none {A} (p : A -> bool) l :
  List.find p (List.filter (fun x => negb (p x)) l) = None.
Proof.
  induction l as [|x l IH]; [done|]. cbn [List.filter].
  destruct (p x) eqn:Hp; cbn [negb]; [exact IH|]. cbn [List.find]. by rewrite Hp.
Qed.

Lemma wrap_loadServerState_world prefix rel w :
  snd (wrap prefix (loadServerState rel) w) = w.
Proof. apply (preserves_wrap id), preserves_readCluster. Qed.

Lemma deleteDetails_run m r w :
  wrap "delete match details" (onDB (database.DeleteMatchDetails m r)) w =
  match database.x_delete_details (db w) m r with
  | Some e =>
      (Err (wrapError "delete match details"
              (wrapError ("delete match details (" +:+ strconv.Itoa m +:+ "," +:+
                            strconv.Itoa r +:+ ")") e)), w)
  | None =>
      (Ok tt,
       set_db (database.set_details
                 (List.filter (fun row => negb (database.rowFor m r row))
                              (database.matches_server_details (db w))) (db w)) w)
  end.
Proof.
  unfold wrap, onDB, database.DeleteMatchDetails.
  destruct (database.x_delete_details (db w) m r); [|done].
  cbn [wrapResult]. by rewrite set_db_same.
Qed.

Lemma deleteSecret_run rel w :
  wrap "delete secret" (deleteStateSecret rel) w =
  if kube.denied (cluster w) (secretName rel)
  then (Err (wrapError "delete secret" (statusError Forbidden (secretName rel))), w)
  else
    (Ok tt,
     set_cluster
       (kube.set_secrets (delete (secretName rel) (kube.secrets (cluster w)))
                         (cluster w)) w).
Proof.
  unfold wrap. rewrite deleteStateSecret_run. by destruct (kube.denied _ _).
Qed.

(** [teardownRound], step by step. *)
Lemma teardownRound_run m r div league home away mapName rel details w :
  teardownRound c m r div league home away mapName rel details w =
  let w0 :=
    set_trace (trace w ++ [EvTeardownRound (database.mID m) (database.rID r)]) w in
  match wrap "load state for teardown" (loadServerState rel) w0 with
  | (Err e, w1) => (Err e, w1)
  | (Ok loaded, w1) =>
  match wrap "delete helm release"
          (deleteHelmRelease c rel
             (buildValues c m r div league home away
                (teardownState c mapName rel details loaded))) w1 with
  | (Err e, w2) => (Err e, w2)
  | (Ok _, w2) =>
  match wrap "delete match details"
          (onDB (database.DeleteMatchDetails (database.mID m) (database.rID r)))
          w2 with
  | (Err e, w3) => (Err e, w3)
  | (Ok _, w3) =>
  match wrap "delete secret" (deleteStateSecret rel) w3 with
  | (Err e, w4) => (Err e, w4)
  | (Ok _, w4) =>
      (Ok tt, snd (cleanupSRCDSToken c (database.mID m) (database.rID r) w4))
  end end end end.
Proof.
  unfold teardownRound. rewrite bind_emit. cbn zeta.
  unfold bind at 1. destruct (wrap _ (loadServerState rel) _) as [[loaded|e] w1]; [|done].
  unfold bind at 1. destruct (wrap _ (deleteHelmRelease _ _ _) _) as [[?|e] w2]; [|done].
  unfold bind at 1. destruct (wrap _ (onDB _) _) as [[?|e] w3]; [|done].
  unfold bind at 1. destruct (wrap _ (deleteStateSecret rel) _) as [[?|e] w4]; [|done].
  unfold bind, try, ret. by destruct (cleanupSRCDSToken c _ _ w4).
Qed.

Lemma failedAt_step step step' cause :
  failedAt step (wrapError step' cause) -> step = step'.
Proof. by intros (? & [= -> _]). Qed.

(** X21: when [teardownRound] returns without an error, the details
    table is the old one without the rows of the round,
    [FetchMatchDetails] finds no details for the round, and the secret
    of the release is absent.  When it returns an error, the database
    is as it was, unless the error is that of the deletion of the
    secret: then the rows of the round are already deleted, and
    [FetchMatchDetails] finds no details for the round. *)
Theorem teardownRound_outcome m r div league home away mapName rel details w :
  let out := teardownRound c m r div league home away mapName rel details w in
  let remaining :=
    List.filter (fun row => negb (database.rowFor (database.mID m)
                                                  (database.rID r) row))
                (database.matches_server_details (db w)) in
  match fst out with
  | Ok _ =>
      database.matches_server_details (db (snd out)) = remaining /\
      database.FetchMatchDetails (db (snd out)) (database.mID m) (database.rID r)
        = Ok None /\
      kube.secrets (cluster (snd out)) !! secretName rel = None
  | Err e =>
      (failedAt "delete secret" e /\
       database.matches_server_details (db (snd out)) = remaining /\
       database.FetchMatchDetails (db (snd out)) (database.mID m) (database.rID r)
         = Ok None) \/
      (~ failedAt "delete secret" e /\ db (snd out) = db w)
  end.
Proof.
  cbn zeta. rewrite teardownRound_run. cbn zeta.
  set (w0 := set_trace _ w).
  pose proof (wrap_loadServerState_world "load state for teardown" rel w0) as Hw1.
  destruct (wrap _ (loadServerState rel) w0) as [[loaded|e] w1] eqn:Hload;
    cbn [fst snd] in *; subst w1.
  2:{ right. split; [|done]. apply wrap_inv in Hload as (cause & _ & ->).
      by intros ?%failedAt_step. }
  set (values := buildValues _ _ _ _ _ _ _ _).
  assert (Hhelm : preserves db (wrap "delete helm release"
                                  (deleteHelmRelease c rel values))).
  { apply preserves_wrap.
    by apply frame_deleteHelmRelease with (ignored := fun _ => true). }
  specialize (Hhelm w0).
  destruct (wrap _ (deleteHelmRelease c rel values) w0) as [[?|e] w2] eqn:Hdel;
    cbn [fst snd] in *.
  2:{ right. split; [|done]. apply wrap_inv in Hdel as (cause & _ & ->).
      by intros ?%failedAt_step. }
  rewrite deleteDetails_run, Hhelm. change (db w0) with (db w).
  destruct (database.x_delete_details (db w) (database.mID m) (database.rID r))
    as [e|]; cbn [fst snd].
  { right. split; [by intros ?%failedAt_step|done]. }
  set (w3 := set_db _ w2).
  assert (Hrows : database.matches_server_details (db w3) =
                  List.filter (fun row => negb (database.rowFor (database.mID m)
                                                                (database.rID r) row))
                              (database.matches_server_details (db w))) by done.
  assert (Hfetch : database.FetchMatchDetails (db w3) (database.mID m)
                     (database.rID r) = Ok None).
  { unfold database.FetchMatchDetails. rewrite Hrows. by rewrite find_filter_none. }
  rewrite deleteSecret_run.
  destruct (kube.denied (cluster w3) (secretName rel)); cbn [fst snd].
  { left. split; [by eexists|done]. }
  set (w4 := set_cluster _ w3).
  assert (Hkeep : preserves (fun w => (db w, cluster w))
                    (cleanupSRCDSToken c (database.mID m) (database.rID r))).
  { by apply frame_cleanupSRCDSToken with (ignored := fun _ => true). }
  specialize (Hkeep w4). injection Hkeep as Hdb Hcl. rewrite Hdb, Hcl.
  split; [exact Hrows|]. split; [exact Hfetch|]. apply lookup_delete_eq.
Qed.

Lemma ensureState_existing m r mapName rel w secret st :
  kube.secrets (cluster w) !! secretName rel = Some secret ->
  decodeState rel secret = Ok st ->
  exists st' w1,
    ensureState c m r mapName rel w = (Ok (st', false), w1) /\
    Ports st' = Ports st /\ Password st' = Password st /\ RCON st' = RCON st /\
    draws w1 = draws w /\ callsOf isAllocate w1 = callsOf isAllocate w /\
    db w1 = db w /\ cluster w1 = cluster w.
Proof.
  intros Hsecret Hdecode. unfold ensureState.
  unfold bind at 1. unfold wrap at 1. rewrite loadServerState_run, Hsecret, Hdecode.
  cbn [wrapResult]. unfold refreshState.
  destruct (String.eqb _ _).
  - assert (Hkeep : preserves
              (fun w => (draws w, callsOf isAllocate w, db w, cluster w))
              (generateSRCDSToken c (database.mID m) (database.rID r))).
    { apply frame_generateSRCDSToken with (ignored := isSteam); [|done].
      intros e w0 He. cbn. f_equal. f_equal. f_equal.
      apply callsOf_event. by destruct (kind e). }
    specialize (Hkeep w).
    unfold bind, try, ret.
    destruct (generateSRCDSToken c (database.mID m) (database.rID r) w)
      as [minted w1].
    cbn [snd] in Hkeep. injection Hkeep as Hd Ha Hdb Hcl.
    eexists _, w1. split; [reflexivity|]. by cbn.
  - unfold bind, ret. eexists _, w. split; [reflexivity|]. by cbn.
Qed.

(** X22: when the secret of the round exists and decodes to a state,
    [ensureRound] allocates no port and draws nothing from the random
    source; and when it returns without an error, the details table
    holds a row for the round with the game port, the SourceTV port and
    the password of the stored state. *)
Theorem ensureRound_reuses_stored_state m r div league home away mapName details
    rel w secret st :
  kube.secrets (cluster w) !! secretName rel = Some secret ->
  decodeState rel secret = Ok st ->
  let out := ensureRound c m r div league home away mapName details rel w in
  callsOf isAllocate (snd out) = callsOf isAllocate w /\
  draws (snd out) = draws w /\
  (fst out = Ok tt ->
   exists row,
     row ∈ database.matches_server_details (db (snd out)) /\
     database.row_match_id row = database.mID m /\
     database.row_round_id row = database.rID r /\
     database.row_port row = strconv.Itoa (ports.aGame (Ports st)) /\
     database.row_sourcetvport row = strconv.Itoa (ports.aSourceTV (Ports st)) /\
     database.row_password row = Password st).
Proof.
  intros Hsecret Hdecode. cbn zeta. rewrite ensureRound_run. cbn zeta.
  set (w0 := set_trace _ w).
  destruct (ensureState_existing m r mapName rel w0 secret st Hsecret Hdecode)
    as (st' & w1 & Hstate & Hports & Hpw & _ & Hd1 & Ha1 & _ & _).
  rewrite Hstate. cbn [fst snd].
  assert (Ha0 : callsOf isAllocate w0 = callsOf isAllocate w)
    by (by apply callsOf_event).
  assert (Hkeep : preserves (fun w => (draws w, callsOf isAllocate w))
            (publishServer c m r div league home away mapName rel st')).
  { apply frame_publishServer with (ignored := fun k => negb (isAllocate k));
      first [done | intros; by apply preserves_onDB | idtac].
    intros e w2 He. cbn. f_equal. by apply callsOf_frame. }
  specialize (Hkeep w1).
  destruct (publishServer c m r div league home away mapName rel st' w1)
    as [[nodeIP|e] w2] eqn:Hpub; cbn [snd] in Hkeep; injection Hkeep as Hd2 Ha2.
  - destruct (notifyTeams_run c m r nodeIP st' false w2) as (sent & _ & ->).
    cbn [andb fst snd].
    split; [by rewrite Ha2, Ha1, Ha0|]. split; [by rewrite Hd2, Hd1|]. intros _.
    exists (database.rowOf (detailsPayload c m r mapName nodeIP st')).
    split; [by apply (publishServer_publishes c) in Hpub|].
    cbn. by rewrite Hports, Hpw.
  - cbn [fst snd]. split; [by rewrite Ha2, Ha1, Ha0|]. split; [by rewrite Hd2, Hd1|done].
Qed.

(** X23: when no secret of the round exists and [Allocate] fails,
    [ensureRound] returns that error wrapped as a failure to allocate
    ports, and the world differs only in the two recorded calls: the
    entry of [ensureRound] and the failed allocation. *)
Theorem ensureRound_stops_when_ports_run_out m r div league home away mapName
    details rel w e :
  kube.secrets (cluster w) !! secretName rel = None ->
  ports.Allocate (portAllocator c) (kube.services (cluster w)) = Err e ->
  ensureRound c m r div league home away mapName details rel w =
  (Err (wrapError "allocate ports" e),
   set_trace (trace w ++ [EvEnsureRound (database.mID m) (database.rID r);
                          EvAllocate (Err e)]) w).
Proof.
  intros Habsent Hfull. rewrite ensureRound_run. cbn zeta.
  set (w0 := set_trace _ w).
  unfold ensureState. unfold bind at 1. unfold wrap at 1.
  rewrite (loadServerState_absent rel w0) by done. cbn [wrapResult].
  unfold bind at 1. unfold createState. unfold bind at 1. unfold wrap at 1.
  unfold allocate. change (cluster w0) with (cluster w). rewrite Hfull.
  cbn [wrapResult]. subst w0. unfold set_trace. cbn. by rewrite <- app_assoc.
Qed.

End Rounds.

(** ** The details table *)

Section DetailsTable.
Import database.
Context `{GoRuntime}.

Lemma rowFor_rowOf details :
  rowFor (dMatchID details) (dRoundID details) (rowOf details) = true.
Proof. unfold rowFor, rowOf. cbn. by rewrite !Z.eqb_refl. Qed.

Lemma find_upserted details rows :
  let hit := rowFor (dMatchID details) (dRoundID details) in
  List.find hit
    (if existsb hit rows
     then map (fun row => if hit row then rowOf details else row) rows
     else rows ++ [rowOf details]) = Some (rowOf details).
Proof.
  intros hit. induction rows as [|row rows IH]; cbn [existsb].
  - cbn. subst hit. by rewrite rowFor_rowOf.
  - destruct (hit row) eqn:Hrow; cbn [orb map].
    + rewrite Hrow. cbn [List.find]. subst hit. by rewrite rowFor_rowOf.
    + destruct (existsb hit rows) eqn:Hex.
      * rewrite Hrow. cbn [List.find]. by rewrite Hrow.
      * cbn [app List.find]. by rewrite Hrow.
Qed.

(** X24: when the driver does not fail the statement,
    [UpsertMatchDetails] returns without an error and
    [FetchMatchDetails] then returns the details that were written, for
    details whose two ports are values of [int], provided trimming
    leaves their decimal texts unchanged.  When the driver fails the
    statement, [UpsertMatchDetails] returns the error of the driver,
    wrapped, and leaves the database as it was. *)
Theorem upsert_then_fetch details d :
  GoInt.in_range (Port details) -> GoInt.in_range (SourceTVPort details) ->
  TrimSpace (strconv.Itoa (Port details)) = strconv.Itoa (Port details) ->
  TrimSpace (strconv.Itoa (SourceTVPort details)) =
    strconv.Itoa (SourceTVPort details) ->
  let out := UpsertMatchDetails details d in
  match x_upsert_details d details with
  | None =>
      fst out = Ok tt /\
      FetchMatchDetails (snd out) (dMatchID details) (dRoundID details) =
        Ok (Some details)
  | Some e => out = (Err (wrapError "upsert match details" e), d)
  end.
Proof.
  intros Hp Hs Htp Hts. cbn zeta.
  unfold FetchMatchDetails, UpsertMatchDetails.
  destruct (x_upsert_details d details); [done|]. split; [done|].
  cbn [snd matches_server_details set_details].
  rewrite find_upserted. cbn [rowOf row_port row_sourcetvport row_match_id
    row_round_id row_server_ip row_password row_map].
  rewrite Htp, Hts, !Atoi_Itoa by done. by destruct details.
Qed.

Lemma rowFor_other m r m0 r0 row :
  (m, r) <> (m0, r0) -> rowFor m r row = true -> rowFor m0 r0 row = false.
Proof.
  unfold rowFor. intros Hne [Hm Hr]%andb_true_iff.
  apply Z.eqb_eq in Hm, Hr. apply andb_false_iff.
  destruct (Z.eqb_spec (row_match_id row) m0) as [Hm0|]; [|by left].
  destruct (Z.eqb_spec (row_round_id row) r0) as [Hr0|]; [|by right].
  destruct Hne. congruence.
Qed.

Lemma find_other_upsert m r details rows :
  (m, r) <> (dMatchID details, dRoundID details) ->
  let hit := rowFor (dMatchID details) (dRoundID details) in
  List.find (rowFor m r)
    (if existsb hit rows
     then map (fun row => if hit row then rowOf details else row) rows
     else rows ++ [rowOf details]) = List.find (rowFor m r) rows.
Proof.
  intros Hne hit.
  assert (Hnew : rowFor m r (rowOf details) = false).
  { destruct (rowFor m r (rowOf details)) eqn:Hhit; [|done].
    apply (rowFor_other _ _ _ _ _ Hne) in Hhit. by rewrite rowFor_rowOf in Hhit. }
  destruct (existsb hit rows).
  - induction rows as [|row rows IH]; [done|]. cbn [map List.find].
    destruct (hit row) eqn:Hrow.
    + rewrite Hnew. destruct (rowFor m r row) eqn:Hp; [|exact IH].
      apply (rowFor_other _ _ _ _ _ Hne) in Hp. subst hit. congruence.
    + destruct (rowFor m r row); [done|exact IH].
  - induction rows as [|row rows IH]; cbn [app List.find].
    + by rewrite Hnew.
    + destruct (rowFor m r row); [done|exact IH].
Qed.

Lemma find_other_delete m r m0 r0 rows :
  (m, r) <> (m0, r0) ->
  List.find (rowFor m r) (List.filter (fun row => negb (rowFor m0 r0 row)) rows) =
  List.find (rowFor m r) rows.
Proof.
  intros Hne. induction rows as [|row rows IH]; [done|]. cbn [List.filter List.find].
  destruct (rowFor m r row) eqn:Hp.
  - rewrite (rowFor_other _ _ _ _ _ Hne Hp). cbn [negb List.find]. by rewrite Hp.
  - destruct (rowFor m0 r0 row); cbn [negb]; [exact IH|].
    cbn [List.find]. by rewrite Hp.
Qed.

(** X25: [UpsertMatchDetails] and [DeleteMatchDetails] for one round
    leave what [FetchMatchDetails] returns for every other pair of
    match id and round id as it was. *)
Theorem details_of_other_rounds_are_kept details d m r :
  (m, r) <> (dMatchID details, dRoundID details) ->
  FetchMatchDetails (snd (UpsertMatchDetails details d)) m r =
    FetchMatchDetails d m r /\
  FetchMatchDetails
    (snd (DeleteMatchDetails (dMatchID details) (dRoundID details) d)) m r =
    FetchMatchDetails d m r.
Proof.
  intros Hne. unfold FetchMatchDetails, UpsertMatchDetails, DeleteMatchDetails.
  split.
  - destruct (x_upsert_details d details); [done|].
    cbn [snd matches_server_details set_details]. by rewrite find_other_upsert.
  - destruct (x_delete_details d (dMatchID details) (dRoundID details)); [done|].
    cbn [snd matches_server_details set_details]. by rewrite find_other_delete.
Qed.

End DetailsTable.

Section DetailsTableExamples.
Import database example ascii_runtime.

Lemma upsert_then_fetch_witness :
  let out := UpsertMatchDetails publishedDetails (rows [malformed]) in
  fst out = Ok tt /\ FetchMatchDetails (snd out) 42 7 = Ok (Some publishedDetails).
Proof.
  apply (upsert_then_fetch publishedDetails (rows [malformed])); by vm_compute.
Defined.

Lemma details_of_other_rounds_are_kept_witness :
  FetchMatchDetails (snd (UpsertMatchDetails publishedDetails (rows [published])))
    42 8 = FetchMatchDetails (rows [published]) 42 8 /\
  FetchMatchDetails (snd (DeleteMatchDetails 42 7 (rows [published]))) 42 8 =
    FetchMatchDetails (rows [published]) 42 8.
Proof.
  apply (details_of_other_rounds_are_kept publishedDetails (rows [published]) 42 8).
  cbn. intros [=].
Defined.

End DetailsTableExamples.

(** ** The operations of the registry client *)

Section SteamOperations.
Import steam SteamSpec.
Context `{JSON} {T : Type}.
Variable do : Request -> T -> Result Response * T.

(** The data of a response that [querySteam] accepts. *)
Lemma querySteam_ok client command method params t data :
  fst (querySteam do client command method params t) = Ok data <->
  answered do (newRequest client command method params) t data.
Proof.
  unfold querySteam, answered.
  destruct (do (newRequest client command method params) t) as [[resp|e] t'];
    cbn [fst].
  - unfold checkResponse.
    destruct (String.eqb_spec (XErrorMessage resp) EmptyString) as [Hx|Hx];
      cbn [negb].
    + unfold StatusOK. destruct (Z.eqb_spec (StatusCode resp) 200) as [Hc|Hc];
        cbn [negb].
      * destruct (Body resp) as [body|e] eqn:Hb.
        -- split.
           ++ intros Hu. exists resp, body. done.
           ++ intros (resp' & body' & [= <-] & _ & _ & Hb' & Hu). congruence.
        -- split; [done|]. intros (resp' & body' & [= <-] & _ & _ & Hb' & _).
           congruence.
      * split; [done|]. intros (resp' & body' & [= <-] & _ & Hc' & _). done.
    + split; [done|]. intros (resp' & body' & [= <-] & Hx' & _). done.
  - split; [done|]. intros (resp & body & [=] & _).
Qed.

(** X26: [CreateAccount], [GetAccountList] and [ResetLoginToken] succeed
    exactly when the transport answers their request with status 200,
    without the error header and with a body that unwraps to data the
    decoder accepts, and they return what the decoder returns;
    [DeleteAccount] succeeds exactly when the transport answers so,
    whatever the data. *)
Theorem operations_succeed_iff client t :
  (forall appID memo account,
     fst (CreateAccount do client appID memo t) = Ok account <->
     exists data,
       answered do (newRequest client "CreateAccount" "POST"
                      [("appid", strconv.Itoa appID); ("memo", memo)]) t data /\
       unmarshalAccount data = Ok account) /\
  (forall accounts,
     fst (GetAccountList do client t) = Ok accounts <->
     exists data,
       answered do (newRequest client "GetAccountList" "GET" []) t data /\
       unmarshalServers data = Ok accounts) /\
  (forall steamID,
     fst (DeleteAccount do client steamID t) = Ok tt <->
     exists data,
       answered do (newRequest client "DeleteAccount" "POST"
                      [("steamid", steamID)]) t data) /\
  (forall steamID account,
     fst (ResetLoginToken do client steamID t) = Ok account <->
     exists data,
       answered do (newRequest client "ResetLoginToken" "POST"
                      [("steamid", steamID)]) t data /\
       unmarshalAccount data = Ok account).
Proof.
  split; [|split; [|split]].
  - intros appID memo account. setoid_rewrite <- querySteam_ok.
    unfold CreateAccount. destruct (querySteam _ _ _ _ _ _) as [[data|e] t'];
      cbn [fst]; split; [eauto|intros (data' & [= <-] & Hd); done|done|].
    intros (data' & [=] & _).
  - intros accounts. setoid_rewrite <- querySteam_ok.
    unfold GetAccountList. destruct (querySteam _ _ _ _ _ _) as [[data|e] t'];
      cbn [fst]; split; [eauto|intros (data' & [= <-] & Hd); done|done|].
    intros (data' & [=] & _).
  - intros steamID. setoid_rewrite <- querySteam_ok.
    unfold DeleteAccount. destruct (querySteam _ _ _ _ _ _) as [[data|e] t'];
      cbn [fst]; split; [eauto|done|done|].
    intros (data' & [=]).
  - intros steamID account. setoid_rewrite <- querySteam_ok.
    unfold ResetLoginToken. destruct (querySteam _ _ _ _ _ _) as [[data|e] t'];
      cbn [fst]; split; [eauto|intros (data' & [= <-] & Hd); done|done|].
    intros (data' & [=] & _).
Qed.

End SteamOperations.

(** ** Errors and results of the rounds *)

Section RoundErrors.
Import controller Calls ReconcilerSpec TextSpec.
Context `{GoRuntime} `{steam.JSON}.
Variable c : Controller.

(** X27: every error that [teardownRound] returns is the failure of
    one of its four steps (loading the state, deleting the release,
    deleting the match details, deleting the secret), wrapped with the
    name of the step; and it is returned before the identity registry
    is asked, so that a failure of the cleanup of the registry token is
    never returned. *)
Theorem teardown_errors_name_the_failed_step m r div league home away mapName
    rel details w e :
  let out := teardownRound c m r div league home away mapName rel details w in
  fst out = Err e ->
  (exists step, step ∈ teardownSteps /\ failedAt step e) /\
  callsOf isSteam (snd out) = callsOf isSteam w.
Proof.
  cbn zeta. rewrite teardownRound_run. cbn zeta.
  set (w0 := set_trace _ w).
  assert (Hc0 : callsOf isSteam w0 = callsOf isSteam w) by by apply callsOf_event.
  pose proof (wrap_loadServerState_world "load state for teardown" rel w0) as Hw1.
  destruct (wrap _ (loadServerState rel) w0) as [[loaded|e1] w1] eqn:Hload;
    cbn [fst snd] in *; subst w1.
  2:{ intros [= <-]. apply wrap_inv in Hload as (cause & _ & ->).
      split; [|done]. exists "load state for teardown".
      split; [set_solver|by eexists]. }
  set (values := buildValues _ _ _ _ _ _ _ _).
  assert (Hhelm : preserves (callsOf isSteam)
                    (wrap "delete helm release" (deleteHelmRelease c rel values))).
  { apply preserves_wrap.
    apply frame_deleteHelmRelease with (ignored := fun k => negb (isSteam k));
      first [done|apply callsOf_frame]. }
  specialize (Hhelm w0).
  destruct (wrap _ (deleteHelmRelease c rel values) w0) as [[?|e2] w2] eqn:Hdel;
    cbn [fst snd] in *.
  2:{ intros [= <-]. apply wrap_inv in Hdel as (cause & _ & ->).
      split; [|by rewrite Hhelm]. exists "delete helm release".
      split; [set_solver|by eexists]. }
  rewrite deleteDetails_run.
  destruct (database.x_delete_details (db w2) (database.mID m) (database.rID r))
    as [e3|]; cbn [fst snd].
  { intros [= <-]. split; [|by rewrite Hhelm]. exists "delete match details".
    split; [set_solver|by eexists]. }
  rewrite deleteSecret_run.
  destruct (kube.denied _ (secretName rel)); cbn [fst snd]; [|done].
  intros [= <-]. split; [|by rewrite <- Hc0, <- Hhelm].
  exists "delete secret". split; [set_solver|by eexists].
Qed.

Lemma generateSecret_ok length w s w' :
  generateSecret length w = (Ok s, w') ->
  String.length s = Z.to_nat length /\ allOf isAlphanumeric s = true /\
  w' = set_draws (draws w + Z.to_nat length) w.
Proof.
  unfold generateSecret. intros Hrun.
  pose proof (drawBytes_spec (Z.to_nat length) w) as Hspec.
  rewrite Hrun in Hspec. tauto.
Qed.

(** X28: when no secret of the round exists and [ensureRound] returns
    without an error, [Allocate] succeeded on the services of the
    cluster, and the details table holds a row for the round with the
    allocated game and SourceTV ports and a password of the configured
    length made of letters and digits; the random source was drawn from
    once per character of the password and of the RCON password. *)
Theorem ensureRound_publishes_what_it_allocated m r div league home away mapName
    details rel w :
  kube.secrets (cluster w) !! secretName rel = None ->
  let out := ensureRound c m r div league home away mapName details rel w in
  fst out = Ok tt ->
  exists assign password row,
    ports.Allocate (portAllocator c) (kube.services (cluster w)) = Ok assign /\
    String.length password = Z.to_nat (config.PasswordLength (config.SRCDS (cfg c))) /\
    allOf isAlphanumeric password = true /\
    row ∈ database.matches_server_details (db (snd out)) /\
    database.row_match_id row = database.mID m /\
    database.row_round_id row = database.rID r /\
    database.row_port row = strconv.Itoa (ports.aGame assign) /\
    database.row_sourcetvport row = strconv.Itoa (ports.aSourceTV assign) /\
    database.row_password row = password /\
    draws (snd out) =
      (draws w + Z.to_nat (config.PasswordLength (config.SRCDS (cfg c))) +
       Z.to_nat (config.RCONLength (config.SRCDS (cfg c))))%nat.
Proof.
  intros Habsent. cbn zeta. rewrite ensureRound_run. cbn zeta.
  set (w0 := set_trace _ w).
  destruct (ensureState c m r mapName rel w0) as [[fresh|e1] w1] eqn:Hstate; [|done].
  destruct (publishServer _ _ _ _ _ _ _ _ _ _ w1) as [[ip|e2] w2] eqn:Hpub; [|done].
  intros _.
  assert (Hd2 : draws w2 = draws w1).
  { pose proof (frame_publishServer draws (fun _ => true)
                  (fun _ _ => eq_refl) (fun _ _ _ => eq_refl) c
                  (fun _ => preserves_onDB draws _ (fun _ _ => eq_refl))
                  m r div league home away mapName rel (fst fresh) eq_refl w1) as Hk.
    by rewrite Hpub in Hk. }
  assert (Hd3 : forall isNew,
            draws (snd (notifyTeams c m r ip (fst fresh) isNew w2)) = draws w2 /\
            database.matches_server_details
              (db (snd (notifyTeams c m r ip (fst fresh) isNew w2))) =
            database.matches_server_details (db w2)).
  { intros isNew.
    destruct (notifyTeams_run c m r ip (fst fresh) isNew w2) as (sent & _ & ->).
    by destruct (_ && _). }
  destruct (Hd3 (snd fresh)) as [Hdraws Hrows]. rewrite Hdraws, Hrows, Hd2.
  apply (publishServer_publishes c) in Hpub.
  unfold ensureState in Hstate.
  apply bind_inv in Hstate as [(loaded & w' & Hload & Hstate)|(? & _ & [=])].
  unfold wrap in Hload. rewrite (loadServerState_absent rel w0) in Hload by done.
  injection Hload as <- <-.
  apply bind_inv in Hstate as [(state & w' & Hcreate & [= <- <-])|(? & _ & [=])].
  unfold createState in Hcreate.
  apply bind_inv in Hcreate as [(assign & wa & Halloc & Hcreate)|(? & _ & [=])].
  apply wrap_inv in Halloc. unfold allocate in Halloc.
  injection Halloc as Halloc <-.
  apply bind_inv in Hcreate as [(pw & wb & Hpw & Hcreate)|(? & _ & [=])].
  apply wrap_inv, generateSecret_ok in Hpw as (Hlen & Halnum & ->).
  apply bind_inv in Hcreate as [(rcon & wc & Hrcon & Hcreate)|(? & _ & [=])].
  apply wrap_inv, generateSecret_ok in Hrcon as (_ & _ & ->).
  apply bind_inv in Hcreate as [(minted & wd & Hmint & [= <- <-])|(? & _ & [=])].
  pose proof (preserves_try draws _
                (frame_generateSRCDSToken draws (fun _ => true)
                   (fun _ _ _ => eq_refl) c (database.mID m) (database.rID r)
                   eq_refl)) as Hmd.
  match type of Hmint with try _ ?w = _ => specialize (Hmd w) end.
  rewrite Hmint in Hmd. cbn [snd] in Hmd.
  exists assign, pw, (database.rowOf (detailsPayload c m r mapName ip
    {| ReleaseName := rel; Ports := assign; Password := pw; RCON := rcon;
       Map := mapName; Token := orStatic c minted |})).
  split; [exact Halloc|]. split; [exact Hlen|]. split; [exact Halnum|].
  split; [exact Hpub|]. cbn [database.rowOf detailsPayload database.row_match_id
    database.row_round_id database.row_port database.row_sourcetvport
    database.row_password database.dMatchID database.dRoundID database.Port
    database.SourceTVPort database.Password Ports Password].
  repeat (split; [reflexivity|]). rewrite Hmd. reflexivity.
Qed.

End RoundErrors.

(** ** More scenarios, run on the model *)

Section MoreScenarios.
Import controller Calls ReconcilerSpec TextSpec example ascii_runtime.

Lemma names_identify_the_round_witness :
  releaseName 42 7 = "udl-42-r7" /\ releaseName 4 27 = "udl-4-r27" /\
  releaseName 42 7 <> releaseName 4 27.
Proof.
  split; [reflexivity|]. split; [reflexivity|]. intros Heq.
  assert (Hsame : 42 = 4 /\ 7 = 27).
  { apply (names_identify_the_round 42 7 4 27); first [exact Heq | by vm_compute]. }
  destruct Hsame as [Hm _]. discriminate Hm.
Defined.

Lemma no_registry_request_without_auto_tokens_witness :
  let w := world [node] [] in
  callsOf isSteam (snd (reconcile ctl w)) = callsOf isSteam w.
Proof.
  intros w.
  apply (no_registry_request_without_auto_tokens
           (settings [] "tfdb_octagon_odb_a1") (Some helm) w).
  by left.
Defined.

Lemma malformed_secret_stops_the_round_witness :
  let w := withSecret broken (world [node] [published]) in
  exists e,
    ensureRound ctl match42 round7 "3" league homeIDs awayIDs "tfdb_box_a2"
      (Some publishedDetails) "udl-42-r7" w =
      (Err (wrapError "load server state" e),
       set_trace (trace w ++ [EvEnsureRound 42 7]) w) /\
    teardownRound ctl match42 round7 "3" league homeIDs awayIDs "tfdb_box_a2"
      "udl-42-r7" publishedDetails w =
      (Err (wrapError "load state for teardown" e),
       set_trace (trace w ++ [EvTeardownRound 42 7]) w).
Proof.
  intros w.
  apply (malformed_secret_stops_the_round ctl match42 round7 "3" league homeIDs
           awayIDs "tfdb_box_a2" (Some publishedDetails) publishedDetails
           "udl-42-r7" w broken secretKeyGamePort).
  - by vm_compute.
  - apply list_elem_of_In. left. reflexivity.
  - by vm_compute.
Defined.

Lemma ensureRound_reuses_stored_state_witness :
  let out := ensureRound ctl match42 round7 "3" league homeIDs awayIDs
               "tfdb_box_a2" None "udl-42-r7" restarted in
  callsOf isAllocate (snd out) = callsOf isAllocate restarted /\
  draws (snd out) = draws restarted /\
  (fst out = Ok tt ->
   exists row,
     row ∈ database.matches_server_details (db (snd out)) /\
     database.row_match_id row = 42 /\
     database.row_round_id row = 7 /\
     database.row_port row = strconv.Itoa 30000 /\
     database.row_sourcetvport row = strconv.Itoa 30300 /\
     database.row_password row = "Xa12cdE678").
Proof.
  apply (ensureRound_reuses_stored_state ctl match42 round7 "3" league homeIDs
           awayIDs "tfdb_box_a2" None "udl-42-r7" restarted
           (kube.withVersion 1 (desiredSecret ctl match42 round7 stored))
           (withMap "tfdb_octagon_odb_a1" stored)).
  - by vm_compute.
  - by vm_compute.
Defined.

Lemma ensureRound_stops_when_ports_run_out_witness :
  ensureRound ctl match42 round7 "3" league homeIDs awayIDs "tfdb_box_a2" None
    "udl-42-r7" crowded =
  (Err (wrapError "allocate ports"
          (errorString "no free ports available in range 30000-30299")),
   set_trace
     (trace crowded ++
      [EvEnsureRound 42 7;
       EvAllocate (Err (errorString "no free ports available in range 30000-30299"))])
     crowded).
Proof.
  apply (ensureRound_stops_when_ports_run_out ctl match42 round7 "3" league
           homeIDs awayIDs "tfdb_box_a2" None "udl-42-r7" crowded).
  - by vm_compute.
  - by vm_compute.
Defined.

Lemma teardown_errors_name_the_failed_step_witness :
  let w := locked (world [node] [published]) in
  let out := teardownRound ctl match42 round7 "3" league homeIDs awayIDs
               "tfdb_box_a2" "udl-42-r7" publishedDetails w in
  let refusal :=
    wrapError "delete secret" (statusError Forbidden "udl-42-r7-settings") in
  fst out = Err refusal /\
  (exists step, step ∈ teardownSteps /\ failedAt step refusal) /\
  callsOf isSteam (snd out) = callsOf isSteam w.
Proof.
  intros w out refusal.
  assert (Hrun : fst out = Err refusal) by (by vm_compute).
  split; [exact Hrun|].
  exact (teardown_errors_name_the_failed_step ctl match42 round7 "3" league homeIDs
           awayIDs "tfdb_box_a2" "udl-42-r7" publishedDetails w refusal Hrun).
Defined.

(** Each of the four steps of [teardownRound] can be the one that
    fails: a secret without its port keys, a controller without a
    renderer, a driver that fails the statements on the details table,
    and a server that refuses to delete the secret.  In the last case
    the details row of the round is already deleted. *)
Lemma teardownRound_fails_at_each_step :
  let run ctl w :=
    teardownRound ctl match42 round7 "3" league homeIDs awayIDs "tfdb_box_a2"
                  "udl-42-r7" publishedDetails w in
  let w := world [node] [published] in
  (exists cause,
     fst (run ctl (withSecret broken w)) =
       Err (wrapError "load state for teardown" cause)) /\
  fst (run (New (settings [] "tfdb_octagon_odb_a1") None) w) =
    Err (wrapError "delete helm release"
           (errorString "helm renderer is not configured")) /\
  fst (run ctl (withTables (tables true [] [published]) w)) =
    Err (wrapError "delete match details"
           (wrapError "delete match details (42,7)" readOnly)) /\
  database.matches_server_details
    (db (snd (run ctl (withTables (tables true [] [published]) w)))) = [published] /\
  fst (run ctl (locked w)) =
    Err (wrapError "delete secret" (statusError Forbidden "udl-42-r7-settings")) /\
  database.matches_server_details (db (snd (run ctl (locked w)))) = [].
Proof.
  cbn zeta. split; [eexists; by vm_compute|]. repeat split; by vm_compute.
Qed.

Lemma ensureRound_publishes_what_it_allocated_witness :
  let w := world [node] [] in
  let out := ensureRound ctl match42 round7 "3" league homeIDs awayIDs
               "tfdb_box_a2" None "udl-42-r7" w in
  fst out = Ok tt /\
  exists assign password row,
    ports.Allocate (portAllocator ctl) (kube.services (cluster w)) = Ok assign /\
    String.length password = Z.to_nat (config.PasswordLength (config.SRCDS (cfg ctl))) /\
    allOf isAlphanumeric password = true /\
    row ∈ database.matches_server_details (db (snd out)) /\
    database.row_match_id row = 42 /\
    database.row_round_id row = 7 /\
    database.row_port row = strconv.Itoa (ports.aGame assign) /\
    database.row_sourcetvport row = strconv.Itoa (ports.aSourceTV assign) /\
    database.row_password row = password /\
    draws (snd out) =
      (draws w + Z.to_nat (config.PasswordLength (config.SRCDS (cfg ctl))) +
       Z.to_nat (config.RCONLength (config.SRCDS (cfg ctl))))%nat.
Proof.
  intros w out.
  assert (Hok : fst out = Ok tt) by (by vm_compute).
  split; [exact Hok|].
  apply (ensureRound_publishes_what_it_allocated ctl match42 round7 "3" league
           homeIDs awayIDs "tfdb_box_a2" None "udl-42-r7" w); [by vm_compute|exact Hok].
Defined.

End MoreScenarios.

(** ** A round whose details cannot be read *)

Section MatchAbort.
Import controller Calls ReconcilerSpec.
Context `{GoRuntime} `{steam.JSON}.
Variable c : Controller.

Lemma forEach_app {A} (body : A -> M unit) pre post : forall w,
  forEach body (pre ++ post) w =
  match forEach body pre w with
  | (Ok _, w1) => forEach body post w1
  | (Err e, w1) => (Err e, w1)
  end.
Proof.
  induction pre as [|item pre IH]; intros w; [done|].
  cbn [app]. rewrite !forEach_cons.
  destruct (body item w) as [[[]|e] w1]; [apply IH|done].
Qed.

Lemma reconcileRound_malformed m div league home away r w e :
  database.FetchMatchDetails (db w) (database.mID m) (database.rID r) = Err e ->
  reconcileRound c m div league home away r w =
  (Err (wrapError "fetch match details" e), w).
Proof.
  intros Hfetch. unfold reconcileRound.
  unfold bind at 1. unfold try at 1, readDB at 1.
  unfold bind at 1. unfold wrap at 1, readDB at 1. by rewrite Hfetch.
Qed.

(** X29: a round whose connection details cannot be read ends the
    reconciliation of its match: when the rounds before it have been
    reconciled and [FetchMatchDetails] then fails for it,
    [reconcileMatch] returns that error wrapped as a failure to fetch
    the match details, and the world is the one the earlier rounds
    left: the round itself and the rounds after it are not visited. *)
Theorem malformed_details_stop_the_match m w division league home away
    pre r post w1 e :
  database.FetchDivision (db w) (database.RosterHomeID m) = Ok division ->
  divisionMatchesFilter c (database.divName division) = true ->
  database.FetchLeague (db w) (database.divID division) = Ok league ->
  database.FetchTeamSteamIDs (db w) (database.RosterHomeID m) = Ok home ->
  database.FetchTeamSteamIDs (db w) (database.RosterAwayID m) = Ok away ->
  database.FetchMatchRounds (db w) (database.mID m) = Ok (pre ++ r :: post) ->
  forEach (reconcileRound c m (database.divID division) league home away) pre w =
    (Ok tt, w1) ->
  database.FetchMatchDetails (db w1) (database.mID m) (database.rID r) = Err e ->
  reconcileMatch c m w = (Err (wrapError "fetch match details" e), w1).
Proof.
  intros Hdiv Hfilter Hleague Hhome Haway Hrounds Hpre Hfetch.
  rewrite (reconcileMatch_rounds c m w division league home away _
             Hdiv Hfilter Hleague Hhome Haway Hrounds).
  rewrite forEach_app, Hpre, forEach_cons.
  by rewrite (reconcileRound_malformed _ _ _ _ _ _ _ _ Hfetch).
Qed.

End MatchAbort.

Section MatchAbortExamples.
Import controller Calls ReconcilerSpec example ascii_runtime.

Lemma malformed_details_stop_the_match_witness :
  let w := world [node] [malformed] in
  reconcileMatch ctl match42 w =
  (Err (wrapError "fetch match details"
          (wrapError "parse port from details"
             (numError "Atoi" "30000/udp" ErrSyntax))), w).
Proof.
  intros w.
  apply (malformed_details_stop_the_match ctl match42 w
           {| database.divID := "3"; database.divName := "Intermediate North" |}
           league ["76561198000000001"] ["76561198000000001"] [] round7 [] w).
  all: by vm_compute.
Defined.

End MatchAbortExamples.
